(** * Text_Detector: the augmentation pipeline of [augmentations.py]

    A shallow embedding of the image/annotation transforms and the theorems
    that relate them to the written specification.

    Modelling conventions
    - Array entries (pixels, coordinates) are rationals [Q]: float arithmetic
      is taken exact, rounding to float32 is not modelled.  Only the quotient
      computed by the overlap functions can leave the finite numbers (a
      division by zero of numpy floats gives nan or inf and no exception), so
      that quotient is a [float].
    - Python's [int(x)] is the truncation of the exact value.  Where the
      float the code holds lies within a rounding error of an integer, the
      integer of the code can differ by one from the integer here (the
      corners of a sampled rectangle, the offsets and the slice bounds of
      Expand), and a slice assignment that fits here can fail there.  The
      statements about the croppers and Expand for every draw are therefore
      made on the results that are returned, for some rectangle or some
      offsets, and not on the integers a given draw leads to.
    - The functions of [cv2] are abstract; a call that ends in a
      [cv2.error] has the result [None].
    - An image is an H x W x C array given as nested lists, rows first.  Its
      shape is read off the first row and the first pixel, so images are
      taken rectangular and non empty.
    - A geometry array keeps its column count next to its rows, as numpy's
      shape does, so that an array with no rows still has a width.
    - numpy's process-wide generator is an explicit stream of raw outputs,
      threaded through every call together with Python's exceptions.
    - A transform that writes into its argument is modelled by the value it
      returns. *)

From Stdlib Require Import String List ZArith QArith Qround Bool Lia Lqa.
From Stdlib Require Import Permutation.
Import ListNotations.

Set Implicit Arguments.
Set Warnings "-register-all".

(** ** Python exceptions and the generator *)

Inductive exn : Type :=
| TypeError
| ValueError
| IndexError
| AttributeError
| ZeroDivisionError
| NotImplementedError
| CvError.

(** Raw outputs of the generator still to come; every use reduces the next
    one to the unit interval. *)
Definition rng : Type := nat -> Q.

Definition rng_tail (g : rng) : rng := fun n => g (S n).

(** The outcome of a call: a value and the generator left behind, an
    exception, or [Spin] when a [while True] loop used up its budget of
    iterations. *)
Inductive result (A : Type) : Type :=
| Ok (a : A) (g : rng)
| Raise (e : exn)
| Spin.

Arguments Raise {A} e.
Arguments Spin {A}.

Definition M (A : Type) : Type := rng -> result A.

Definition ret {A} (a : A) : M A := fun g => Ok a g.

Definition raise {A} (e : exn) : M A := fun _ => Raise e.

Definition bind {A B} (m : M A) (k : A -> M B) : M B :=
  fun g => match m g with
           | Ok a g' => k a g'
           | Raise e => Raise e
           | Spin => Spin
           end.

Declare Scope py_scope.
Delimit Scope py_scope with py.
Notation "x <- m ;; k" := (bind m (fun x => k))
  (at level 61, m at next level, right associativity) : py_scope.
Notation "' p <- m ;; k" := (bind m (fun x => match x with p => k end))
  (at level 61, p pattern, m at next level, right associativity) : py_scope.
Open Scope py_scope.
Open Scope Q_scope.

(** ** Numbers *)

Definition Qltb (a b : Q) : bool := negb (Qle_bool b a).

Definition Qofnat (n : nat) : Q := inject_Z (Z.of_nat n).

(** Fractional part: the reduction of a raw output to [0,1). *)
Definition frac (q : Q) : Q := q - inject_Z (Qfloor q).

(** Python's [int(x)] on a float: truncation toward zero. *)
Definition py_int (q : Q) : Z :=
  if Qle_bool 0 q then Qfloor q else Qceiling q.

(** [numpy.random.random_sample()] *)
Definition random_sample : M Q := fun g => Ok (frac (g 0%nat)) (rng_tail g).

(** [numpy.random.uniform(low, high)]: [low + (high - low) * random_sample()],
    also when [high < low]. *)
Definition uniform (low high : Q) : M Q :=
  u <- random_sample ;; ret (low + (high - low) * u).

(** [numpy.random.randint(low, high)]: an integer of [low, high). *)
Definition randint_range (low high : Z) : M Z :=
  if (high <=? low)%Z then raise ValueError
  else u <- random_sample ;;
       ret (low + Qfloor (inject_Z (high - low) * u))%Z.

(** [numpy.random.randint(n)] *)
Definition randint (n : Z) : M Z := randint_range 0 n.

(** [numpy.random.choice(options)] on a non-empty tuple. *)
Definition choice {A} (options : list A) (default : A) : M A :=
  i <- randint (Z.of_nat (length options)) ;;
  ret (nth (Z.to_nat i) options default).

(** The quotient of two numpy floats. *)
Inductive float : Type :=
| Fin (q : Q)
| PInf
| NInf
| NaN.

Definition fl_div (a b : Q) : float :=
  if Qeq_bool b 0 then
    (if Qeq_bool a 0 then NaN else if Qltb 0 a then PInf else NInf)
  else Fin (a / b).

(** [a < b] on floats; false as soon as one side is nan. *)
Definition fl_ltb (a b : float) : bool :=
  match a, b with
  | NaN, _ | _, NaN => false
  | PInf, _ => false
  | _, NInf => false
  | NInf, _ => true
  | Fin _, PInf => true
  | Fin x, Fin y => Qltb x y
  end.

Definition fl_leb (a b : float) : bool :=
  match a, b with
  | NaN, _ | _, NaN => false
  | _, PInf => true
  | NInf, _ => true
  | PInf, _ => false
  | Fin _, NInf => false
  | Fin x, Fin y => Qle_bool x y
  end.

(** [ndarray.min()] and [ndarray.max()] propagate nan. *)
Definition fl_min2 (a b : float) : float :=
  match a, b with
  | NaN, _ | _, NaN => NaN
  | _, _ => if fl_ltb b a then b else a
  end.

Definition fl_max2 (a b : float) : float :=
  match a, b with
  | NaN, _ | _, NaN => NaN
  | _, _ => if fl_ltb a b then b else a
  end.

(** A reduction of a zero-size array has no identity and raises. *)
Definition fl_min (l : list float) : M float :=
  match l with
  | [] => raise ValueError
  | x :: r => ret (fold_left fl_min2 r x)
  end.

Definition fl_max (l : list float) : M float :=
  match l with
  | [] => raise ValueError
  | x :: r => ret (fold_left fl_max2 r x)
  end.

(** Python's builtin [min] and [max] over a sequence of numbers. *)
Definition py_min (l : list Q) : M Q :=
  match l with
  | [] => raise ValueError
  | x :: r => ret (fold_left (fun m y => if Qltb y m then y else m) r x)
  end.

Definition py_max (l : list Q) : M Q :=
  match l with
  | [] => raise ValueError
  | x :: r => ret (fold_left (fun m y => if Qltb m y then y else m) r x)
  end.

(** ** Sequences and slices *)

(** Clamp a slice bound of a sequence of length [n], step 1. *)
Definition norm_index (n : nat) (i : Z) : nat :=
  let j := if (i <? 0)%Z then (i + Z.of_nat n)%Z else i in
  Z.to_nat (Z.min (Z.of_nat n) (Z.max 0 j)).

(** The length of [l[lo:hi]] for [l] of length [n]; an omitted bound is
    [None]. *)
Definition slice_bounds (lo hi : option Z) (n : nat) : nat * nat :=
  (match lo with Some i => norm_index n i | None => O end,
   match hi with Some i => norm_index n i | None => n end).

(** [l[lo:hi]] *)
Definition py_slice {A} (lo hi : option Z) (l : list A) : list A :=
  let '(a, b) := slice_bounds lo hi (length l) in
  firstn (b - a) (skipn a l).

(** The indices selected by [start:stop:step] in a sequence of length [n]
    (an omitted bound is [None]); no index for the step 0, which no caller
    uses. *)
Definition slice_indices (start stop : option Z) (step : Z) (n : nat)
  : list nat :=
  let len := Z.of_nat n in
  let adjust (v : Z) : Z :=
    let v := if (v <? 0)%Z then (v + len)%Z else v in
    if (v <? 0)%Z then (if (step <? 0)%Z then (-1)%Z else 0%Z)
    else if (len <=? v)%Z then (if (step <? 0)%Z then (len - 1)%Z else len)
    else v in
  let lo := match start with
            | Some v => adjust v
            | None => if (step <? 0)%Z then (len - 1)%Z else 0%Z
            end in
  let hi := match stop with
            | Some v => adjust v
            | None => if (step <? 0)%Z then (-1)%Z else len
            end in
  let count :=
    if (0 <? step)%Z then
      (if (lo <? hi)%Z then ((hi - lo - 1) / step + 1)%Z else 0%Z)
    else if (step <? 0)%Z then
      (if (hi <? lo)%Z then ((lo - hi - 1) / (- step) + 1)%Z else 0%Z)
    else 0%Z in
  map (fun k => Z.to_nat (lo + Z.of_nat k * step)) (seq 0 (Z.to_nat count)).

(** [l[i] = v] for an index in range. *)
Fixpoint set_nth {A} (i : nat) (v : A) (l : list A) : list A :=
  match l, i with
  | [], _ => []
  | _ :: r, O => v :: r
  | x :: r, S j => x :: set_nth j v r
  end.

(** [pattern * n], the repetition of a Python list. *)
Fixpoint tile {A} (pattern : list A) (n : nat) : list A :=
  match n with
  | O => []
  | S k => pattern ++ tile pattern k
  end.

Fixpoint zip_with {A B C} (f : A -> B -> C) (l : list A) (r : list B)
  : list C :=
  match l, r with
  | x :: l', y :: r' => f x y :: zip_with f l' r'
  | _, _ => []
  end.

(** Boolean-mask indexing [a[mask]]: the mask has to be as long as [a]. *)
Fixpoint select {A} (mask : list bool) (l : list A) : list A :=
  match mask, l with
  | b :: mask', x :: l' => if b then x :: select mask' l' else select mask' l'
  | _, _ => []
  end.

Definition mask_index {A} (mask : list bool) (l : list A) : M (list A) :=
  if (length mask =? length l)%nat then ret (select mask l)
  else raise IndexError.

(** ** Arrays *)

(** An H x W x C image, indexed [image[y][x][c]]. *)
Definition image : Type := list (list (list Q)).

(** A two-dimensional array of coordinates, one row per object. *)
Record array2 : Type := mkArray2 { ncols : nat; rows : list (list Q) }.

Definition labels_t : Type := list Z.

(** What every transform consumes and produces; [None] is Python's [None]. *)
Definition triple : Type := (image * option array2 * option labels_t)%type.

Definition height (im : image) : nat := length im.
Definition width (im : image) : nat := length (hd [] im).
Definition depth (im : image) : nat := length (hd [] (hd [] im)).

(** [image.shape] *)
Definition shape (im : image) : nat * nat * nat :=
  (height im, width im, depth im).

Definition rectangular (h w c : nat) (im : image) : Prop :=
  length im = h /\
  Forall (fun row => length row = w /\
                     Forall (fun px : list Q => length px = c) row) im.

Definition well_formed (b : array2) : Prop :=
  Forall (fun r => length r = ncols b) (rows b).

Definition pixel (im : image) (y x c : nat) : Q :=
  nth c (nth x (nth y im []) []) 0.

Definition map_pixels (f : Q -> Q) (im : image) : image :=
  map (map (map f)) im.

(** [image[image > 255] = 255] followed by [image[image < 0] = 0]. *)
Definition clamp_hi (v : Q) : Q := if Qltb 255 v then 255 else v.
Definition clamp_lo (v : Q) : Q := if Qltb v 0 then 0 else v.
Definition clamp_image (im : image) : image :=
  map_pixels clamp_lo (map_pixels clamp_hi im).

(** [np.clip(v, lo, hi)] is [minimum(hi, maximum(v, lo))]. *)
Definition np_clip (lo hi v : Q) : Q :=
  let m := if Qltb v lo then lo else v in
  if Qltb hi m then hi else m.

(** Update of one channel of every pixel,
    [image[:, :, k] = f(image[:, :, k])]. *)
Definition map_channel (k : nat) (f : Q -> Q) (im : image) : M image :=
  if (k <? depth im)%nat then
    ret (map (map (fun px => set_nth k (f (nth k px 0)) px)) im)
  else raise IndexError.

(** A value broadcast along the channel axis of an in-place operation. *)
Definition broadcast_channels (v : list Q) (c : nat) : M (list Q) :=
  if (length v =? c)%nat then ret v
  else if (length v =? 1)%nat then ret (repeat (hd 0 v) c)
  else raise ValueError.

(** [astype(np.uint8)] of a float: truncated, then wrapped into a byte. *)
Definition astype_uint8 (im : image) : image :=
  map_pixels (fun v => inject_Z (py_int v mod 256)) im.

(** [permute(2, 0, 1)]: the output is indexed [out[c][y][x]]. *)
Definition permute_201 (im : image) : image :=
  map (fun c => map (map (fun px => nth c px 0)) im) (seq 0 (depth im)).

(** [transpose((1, 2, 0))] of a C x H x W tensor, back to H x W x C. *)
Definition transpose_120 (t : image) : image :=
  map (fun y =>
         map (fun x => map (fun plane => nth x (nth y plane []) 0) t)
             (seq 0 (length (hd [] (hd [] t)))))
      (seq 0 (length (hd [] t))).

(** ** OpenCV

    The functions of [cv2] the module calls; they are no part of the
    repository and stay abstract. *)

Inductive color_code : Type := COLOR_BGR2HSV | COLOR_HSV2BGR.

Inductive interpolation : Type := INTER_CUBIC.

Definition matrix23 : Type := ((Q * Q * Q) * (Q * Q * Q))%type.

Class OpenCV : Type := {
  (** [cv2.resize(src, (w, h), interpolation)]; [None] is a [cv2.error]. *)
  cv2_resize : image -> nat * nat -> interpolation -> option image;
  (** [cv2.cvtColor(src, code)]; [None] is a [cv2.error], as on an image
      with one or two channels. *)
  cv2_cvtColor : image -> color_code -> option image;
  cv2_getRotationMatrix2D : Q * Q -> Z -> Q -> matrix23;
  (** [cv2.warpAffine(src, M, (w, h), borderValue)] *)
  cv2_warpAffine : image -> matrix23 -> nat * nat -> list Q -> image
}.

(** ** Transforms *)

(** The transform units without sub-transforms, by class and constructor
    arguments. *)
Inductive unit_t : Type :=
| ConvertFromInts
| Normalize (mean var : list Q)
| Resize (size : nat)
| RandomSaturation (lower upper : Q)
| RandomHue (delta : Q)
| RandomLightingNoise
| ConvertColor (current transform : string)
| RandomContrast (lower upper : Q)
| RandomBrightness (delta : Q)
| ToCV2Image
| ToTensor
| RandomSampleCrop
| RandomSampleCropPoly
| Expand (mean : list Q)
| RandomMirror
| Rotate (mean : list Q).

Section Calls.

Context {cv : OpenCV}.

Definition ConvertFromInts_call (x : triple) : M triple :=
  let '(im, boxes, labels) := x in
  ret (im, boxes, labels).

Definition Normalize_call (mean var : list Q) (x : triple) : M triple :=
  let '(im, boxes, labels) := x in
  let im := map_pixels (fun v => v / 255) im in
  m <- broadcast_channels mean (depth im) ;;
  let im := map (map (fun px => zip_with Qminus px m)) im in
  s <- broadcast_channels var (depth im) ;;
  let im := map (map (fun px => zip_with Qdiv px s)) im in
  ret (im, boxes, labels).

(** [boxes * np.tile(new_wh, 4)]: an (N, n) array against 8 values. *)
Definition scale_boxes (new_wh : list Q) (b : array2) : M array2 :=
  let t := tile new_wh 4 in
  if (ncols b =? length t)%nat then
    ret (mkArray2 (ncols b) (map (fun r => zip_with Qmult r t) (rows b)))
  else if (ncols b =? 1)%nat then
    ret (mkArray2 (length t)
                  (map (fun r => map (Qmult (hd 0 r)) t) (rows b)))
  else raise ValueError.

Definition Resize_call (size : nat) (x : triple) : M triple :=
  let '(im, boxes, labels) := x in
  let '(h, w, _) := shape im in
  boxes <- match boxes with
           | Some b =>
               if (w =? 0)%nat || (h =? 0)%nat then raise ZeroDivisionError
               else
                 let new_wh := [Qofnat size / Qofnat w;
                                Qofnat size / Qofnat h] in
                 b' <- scale_boxes new_wh b ;; ret (Some b')
           | None => ret None
           end ;;
  match cv2_resize (astype_uint8 im) (size, size) INTER_CUBIC with
  | Some im' => ret (im', boxes, labels)
  | None => raise CvError
  end.

Definition RandomSaturation_call (lower upper : Q) (x : triple) : M triple :=
  let '(im, boxes, labels) := x in
  c <- randint 2 ;;
  if (c =? 0)%Z then ret (im, boxes, labels)
  else
    a <- uniform lower upper ;;
    im <- map_channel 1 (fun v => v * a) im ;;
    ret (clamp_image im, boxes, labels).

(** The two wrap-around assignments on the hue channel, in source order. *)
Definition wrap_hue (v : Q) : Q :=
  let v := if Qltb 360 v then v - 360 else v in
  if Qltb v 0 then v + 360 else v.

Definition RandomHue_call (delta : Q) (x : triple) : M triple :=
  let '(im, boxes, labels) := x in
  c <- randint 2 ;;
  if (c =? 0)%Z then ret (im, boxes, labels)
  else
    d <- uniform (- delta) delta ;;
    im <- map_channel 0 (fun v => wrap_hue (v + d)) im ;;
    ret (im, boxes, labels).

(** [image[:, :, swaps]] *)
Definition SwapChannels_call (swaps : list nat) (im : image) : M image :=
  if forallb (fun s => (s <? depth im)%nat) swaps then
    ret (map (map (fun px => map (fun s => nth s px 0) swaps)) im)
  else raise IndexError.

Definition perms : list (list nat) :=
  [[0; 1; 2]; [0; 2; 1]; [1; 0; 2]; [1; 2; 0]; [2; 0; 1]; [2; 1; 0]]%nat.

Definition RandomLightingNoise_call (x : triple) : M triple :=
  let '(im, boxes, labels) := x in
  c <- randint 2 ;;
  if (c =? 0)%Z then ret (im, boxes, labels)
  else
    swap <- choice perms [] ;;
    im <- SwapChannels_call swap im ;;
    ret (im, boxes, labels).

Definition ConvertColor_call (current transform : string) (x : triple)
  : M triple :=
  let '(im, boxes, labels) := x in
  if (current =? "BGR")%string && (transform =? "HSV")%string then
    match cv2_cvtColor im COLOR_BGR2HSV with
    | Some im' => ret (im', boxes, labels)
    | None => raise CvError
    end
  else if (current =? "HSV")%string && (transform =? "BGR")%string then
    match cv2_cvtColor im COLOR_HSV2BGR with
    | Some im' => ret (im', boxes, labels)
    | None => raise CvError
    end
  else raise NotImplementedError.

Definition RandomContrast_call (lower upper : Q) (x : triple) : M triple :=
  let '(im, boxes, labels) := x in
  c <- randint 2 ;;
  if (c =? 0)%Z then ret (im, boxes, labels)
  else
    alpha <- uniform lower upper ;;
    ret (clamp_image (map_pixels (fun v => v * alpha) im), boxes, labels).

Definition RandomBrightness_call (delta : Q) (x : triple) : M triple :=
  let '(im, boxes, labels) := x in
  c <- randint 2 ;;
  if (c =? 0)%Z then ret (im, boxes, labels)
  else
    d <- uniform (- delta) delta ;;
    ret (clamp_image (map_pixels (fun v => v + d) im), boxes, labels).

Definition ToCV2Image_call (x : triple) : M triple :=
  let '(tensor, boxes, labels) := x in
  ret (transpose_120 tensor, boxes, labels).

(** [torch.from_numpy] refuses [None]. *)
Definition from_numpy {A} (a : option A) : M (option A) :=
  match a with
  | Some v => ret (Some v)
  | None => raise TypeError
  end.

Definition ToTensor_call (x : triple) : M triple :=
  let '(cvimage, boxes, labels) := x in
  match boxes with
  | None => ret (permute_201 cvimage, None, None)
  | Some _ =>
      b <- from_numpy boxes ;;
      l <- from_numpy labels ;;
      ret (permute_201 cvimage, b, l)
  end.

End Calls.

(** ** Overlap of boxes with a crop rectangle *)

(** [a[:, lo:hi]] *)
Definition columns (lo hi : option Z) (a : array2) : array2 :=
  let '(i, j) := slice_bounds lo hi (ncols a) in
  mkArray2 (j - i) (map (py_slice lo hi) (rows a)).

(** [a[:, k]] *)
Definition column (k : nat) (a : array2) : M (list Q) :=
  if (k <? ncols a)%nat then ret (map (fun r => nth k r 0) (rows a))
  else raise IndexError.

(** An elementwise operation of an (N, k) array with a vector, under
    numpy's broadcasting. *)
Definition broadcast_vec (f : Q -> Q -> Q) (a : array2) (v : list Q)
  : M array2 :=
  if (ncols a =? length v)%nat then
    ret (mkArray2 (ncols a) (map (fun r => zip_with f r v) (rows a)))
  else if (ncols a =? 1)%nat then
    ret (mkArray2 (length v) (map (fun r => map (f (hd 0 r)) v) (rows a)))
  else if (length v =? 1)%nat then
    ret (mkArray2 (ncols a) (map (map (fun y => f y (hd 0 v))) (rows a)))
  else raise ValueError.

(** An elementwise operation of two arrays with the same number of rows. *)
Definition broadcast_arr (f : Q -> Q -> Q) (a b : array2) : M array2 :=
  if (ncols a =? ncols b)%nat then
    ret (mkArray2 (ncols a) (zip_with (zip_with f) (rows a) (rows b)))
  else if (ncols a =? 1)%nat then
    ret (mkArray2 (ncols b)
                  (zip_with (fun r s => map (f (hd 0 r)) s) (rows a) (rows b)))
  else if (ncols b =? 1)%nat then
    ret (mkArray2 (ncols a)
                  (zip_with (fun r s => map (fun y => f y (hd 0 s)) r)
                            (rows a) (rows b)))
  else raise ValueError.

Definition np_minimum (a b : Q) : Q := if Qltb b a then b else a.
Definition np_maximum (a b : Q) : Q := if Qltb a b then b else a.

(** A crop rectangle [x1, y1, x2, y2] of integers. *)
Definition rect_t : Type := list Z.

Definition rect_q (rect : rect_t) : list Q := map inject_Z rect.

Definition intersect (box_a : array2) (box_b : list Q) : M (list Q) :=
  max_xy <- broadcast_vec np_minimum (columns (Some 2%Z) None box_a)
                          (py_slice (Some 2%Z) None box_b) ;;
  min_xy <- broadcast_vec np_maximum (columns None (Some 2%Z) box_a)
                          (py_slice None (Some 2%Z) box_b) ;;
  d <- broadcast_arr Qminus max_xy min_xy ;;
  let inter := mkArray2 (ncols d) (map (map (np_maximum 0)) (rows d)) in
  i0 <- column 0 inter ;;
  i1 <- column 1 inter ;;
  ret (zip_with Qmult i0 i1).

(** [(box_a[:, 2] - box_a[:, 0]) * (box_a[:, 3] - box_a[:, 1])] *)
Definition area (box_a : array2) : M (list Q) :=
  c2 <- column 2 box_a ;;
  c0 <- column 0 box_a ;;
  c3 <- column 3 box_a ;;
  c1 <- column 1 box_a ;;
  ret (zip_with Qmult (zip_with Qminus c2 c0) (zip_with Qminus c3 c1)).

Definition jaccard_numpy (box_a : array2) (box_b : list Q) : M (list float) :=
  inter <- intersect box_a box_b ;;
  area_a <- area box_a ;;
  let area_b := (nth 2 box_b 0 - nth 0 box_b 0)
                * (nth 3 box_b 0 - nth 1 box_b 0) in
  let union := zip_with (fun a i => a + area_b - i) area_a inter in
  ret (zip_with fl_div inter union).

Definition modified_jaccard_numpy (box_a : array2) (box_b : list Q)
  : M (list float) :=
  inter <- intersect box_a box_b ;;
  area_a <- area box_a ;;
  let union := area_a in
  ret (zip_with fl_div inter union).

(** ** The croppers *)

(** A sampling mode: [None], or a pair of optional bounds. *)
Definition mode_t : Type := option (option Q * option Q).

Definition lower_bound (b : option Q) : float :=
  match b with Some v => Fin v | None => NInf end.

Definition upper_bound (b : option Q) : float :=
  match b with Some v => Fin v | None => PInf end.

(** [image[rect[1]:rect[3], rect[0]:rect[2], :]] *)
Definition crop_image (rect : rect_t) (im : image) : image :=
  map (py_slice (Some (nth 0 rect 0%Z)) (Some (nth 2 rect 0%Z)))
      (py_slice (Some (nth 1 rect 0%Z)) (Some (nth 3 rect 0%Z)) im).

(** The rectangle sampled by one trial, or [None] when the aspect ratio is
    refused.  [random.uniform(width - w)] has one argument, the lower bound;
    the upper bound is then the default 1.0. *)
Definition sample_rect (scale : Q) (im : image) : M (option rect_t) :=
  let '(height, width, _) := shape im in
  w <- uniform (scale * Qofnat width) (Qofnat width) ;;
  h <- uniform (scale * Qofnat height) (Qofnat height) ;;
  if Qeq_bool w 0 then raise ZeroDivisionError
  else if Qltb (h / w) (1 # 2) || Qltb 2 (h / w) then ret None
  else
    left <- uniform (Qofnat width - w) 1 ;;
    top <- uniform (Qofnat height - h) 1 ;;
    ret (Some [py_int left; py_int top; py_int (left + w); py_int (top + h)]).

Definition RandomSampleCrop_options : list mode_t :=
  [None; Some (Some (9 # 10), None)].

(** The boxes that meet the rectangle (the TextBoxes mask). *)
Definition crop_mask (rect : list Q) (boxes : array2) : M (list bool) :=
  b2 <- column 2 boxes ;;
  b3 <- column 3 boxes ;;
  let m1 := zip_with andb (map (Qltb (nth 0 rect 0)) b2)
                          (map (Qltb (nth 1 rect 0)) b3) in
  b0 <- column 0 boxes ;;
  b1 <- column 1 boxes ;;
  let m2 := zip_with andb (map (fun v => Qltb v (nth 2 rect 0)) b0)
                          (map (fun v => Qltb v (nth 3 rect 0)) b1) in
  ret (zip_with andb m1 m2).

(** The four slice assignments that clip a kept box to the rectangle and
    move it to the crop's frame; the boxes have four columns here. *)
Definition clip_box (rect : list Q) (r : list Q) : list Q :=
  [np_maximum (nth 0 r 0) (nth 0 rect 0) - nth 0 rect 0;
   np_maximum (nth 1 r 0) (nth 1 rect 0) - nth 1 rect 0;
   np_minimum (nth 2 r 0) (nth 2 rect 0) - nth 0 rect 0;
   np_minimum (nth 3 r 0) (nth 3 rect 0) - nth 1 rect 0].

(** The end of a trial of [RandomSampleCrop], from the cut of the image on. *)
Definition crop_keep (rect : rect_t) (mask : list bool) (x : triple)
  : M triple :=
  let '(im, boxes, labels) := x in
  match boxes with
  | None => raise TypeError
  | Some b =>
      current_boxes <- mask_index mask (rows b) ;;
      match labels with
      | None => raise TypeError
      | Some l =>
          current_labels <- mask_index mask l ;;
          ret (crop_image rect im,
               Some (mkArray2 (ncols b)
                              (map (clip_box (rect_q rect)) current_boxes)),
               Some current_labels)
      end
  end.

Definition RandomSampleCrop_trial (min_iou max_iou : float) (x : triple)
  : M (option triple) :=
  let '(im, boxes, labels) := x in
  r <- sample_rect (3 # 10) im ;;
  match r with
  | None => ret None
  | Some rect =>
      match boxes with
      | None => raise TypeError
      | Some b =>
          overlap <- jaccard_numpy b (rect_q rect) ;;
          lo <- fl_min overlap ;;
          if fl_ltb lo min_iou then ret None
          else
            hi <- fl_max overlap ;;
            if fl_ltb max_iou hi then ret None
            else
              mask <- crop_mask (rect_q rect) b ;;
              if negb (existsb (fun v => v) mask) then ret None
              else y <- crop_keep rect mask x ;; ret (Some y)
      end
  end.

(** [for _ in range(n)]: the first trial that returns, if any. *)
Fixpoint trials (n : nat) (trial : M (option triple)) : M (option triple) :=
  match n with
  | O => ret None
  | S k => r <- trial ;;
           match r with
           | Some y => ret (Some y)
           | None => trials k trial
           end
  end.

(** One pass of the body of [while True]. *)
Definition RandomSampleCrop_pass (x : triple) : M (option triple) :=
  mode <- choice RandomSampleCrop_options None ;;
  match mode with
  | None => ret (Some x)
  | Some (min_iou, max_iou) =>
      trials 50 (RandomSampleCrop_trial (lower_bound min_iou)
                                        (upper_bound max_iou) x)
  end.

(** [while True], cut after [fuel] passes. *)
Fixpoint while_true (fuel : nat) (pass : M (option triple)) : M triple :=
  match fuel with
  | O => fun _ => Spin
  | S k => r <- pass ;;
           match r with
           | Some y => ret y
           | None => while_true k pass
           end
  end.

Definition RandomSampleCrop_call (fuel : nat) (x : triple) : M triple :=
  while_true fuel (RandomSampleCrop_pass x).

(** A loop body run over a list, stopping at the first exception. *)
Fixpoint map_M {A B} (f : A -> M B) (l : list A) : M (list B) :=
  match l with
  | [] => ret []
  | a :: r => b <- f a ;; bs <- map_M f r ;; ret (b :: bs)
  end.

(** The entries of a row at the given indices. *)
Definition take_indices (idx : list nat) (r : list Q) : list Q :=
  map (fun j => nth j r 0) idx.

Definition RandomSampleCropPoly_options : list mode_t :=
  [None; Some (Some 1, None); Some (Some 3, None); Some (Some 5, None);
   Some (Some 7, None); Some (Some 9, None)].

(** The bounding rectangle of every polygon: min and max over
    [boxes[i, ::2]] and [boxes[i, 1::2]]. *)
Definition bounding_rects (boxes : option array2) : M array2 :=
  match boxes with
  | None => raise TypeError
  | Some b =>
      let xs := slice_indices None None 2 (ncols b) in
      let ys := slice_indices (Some 1%Z) None 2 (ncols b) in
      rs <- map_M (fun r =>
                     x0 <- py_min (take_indices xs r) ;;
                     y0 <- py_min (take_indices ys r) ;;
                     x1 <- py_max (take_indices xs r) ;;
                     y1 <- py_max (take_indices ys r) ;;
                     ret [x0; y0; x1; y1]) (rows b) ;;
      ret (mkArray2 4 rs)
  end.

(** [boxes[:, :2*num_pt] op= offset * num_pt] with
    [num_pt = int(boxes.shape[1] / 2)]. *)
Definition shift_row (op : Q -> Q -> Q) (offset : list Q) (num_pt : nat)
  (r : list Q) : list Q :=
  zip_with op (firstn (2 * num_pt) r) (tile offset num_pt)
  ++ skipn (2 * num_pt) r.

Definition shift_boxes (op : Q -> Q -> Q) (offset : list Q) (b : array2)
  : array2 :=
  let num_pt := (ncols b / 2)%nat in
  mkArray2 (ncols b) (map (shift_row op offset num_pt) (rows b)).

(** The end of a trial of [RandomSampleCropPoly], from the cut of the image
    on: no mask. *)
Definition crop_translate (rect : rect_t) (x : triple) : M triple :=
  let '(im, boxes, labels) := x in
  match boxes with
  | None => raise AttributeError
  | Some b =>
      ret (crop_image rect im,
           Some (shift_boxes Qminus (firstn 2 (rect_q rect)) b),
           labels)
  end.

Definition RandomSampleCropPoly_trial (min_boxes max_boxes : float)
  (boxes_rect : array2) (x : triple) : M (option triple) :=
  let '(im, _, _) := x in
  r <- sample_rect (1 # 10) im ;;
  match r with
  | None => ret None
  | Some rect =>
      overlap <- modified_jaccard_numpy boxes_rect (rect_q rect) ;;
      let inside :=
        Fin (Qofnat (length (filter (fl_ltb (Fin (9 # 10))) overlap))) in
      if fl_leb inside min_boxes || fl_leb max_boxes inside then ret None
      else y <- crop_translate rect x ;; ret (Some y)
  end.

Definition RandomSampleCropPoly_pass (x : triple) : M (option triple) :=
  let '(_, boxes, _) := x in
  mode <- choice RandomSampleCropPoly_options None ;;
  boxes_rect <- bounding_rects boxes ;;
  match mode with
  | None => ret (Some x)
  | Some (min_boxes, max_boxes) =>
      if (length (rows boxes_rect) =? 0)%nat then ret (Some x)
      else trials 50 (RandomSampleCropPoly_trial (lower_bound min_boxes)
                                                 (upper_bound max_boxes)
                                                 boxes_rect x)
  end.

Definition RandomSampleCropPoly_call (fuel : nat) (x : triple) : M triple :=
  while_true fuel (RandomSampleCropPoly_pass x).

(** ** Expand, mirror, rotate *)

(** [np.zeros((h, w, c))] with every pixel then set to the fill value. *)
Definition filled_canvas (h w : Z) (c : nat) (fill : list Q) : M image :=
  if (h <? 0)%Z || (w <? 0)%Z then raise ValueError
  else
    px <- broadcast_channels fill c ;;
    ret (repeat (repeat px (Z.to_nat w)) (Z.to_nat h)).

(** [canvas[top:bottom, left:right] = src].  The two shapes agree for every
    offset [Expand] can draw; a source of a single row or column, which
    numpy would repeat over a larger window, is refused here with the other
    mismatches. *)
Definition paste (top bottom left right : Z) (src canvas : image) : M image :=
  let '(a, b) := slice_bounds (Some top) (Some bottom) (height canvas) in
  let '(c, d) := slice_bounds (Some left) (Some right) (width canvas) in
  if ((b - a =? height src) && (d - c =? width src)
      && (depth canvas =? depth src))%nat
  then
    ret (firstn a canvas
         ++ zip_with (fun crow srow => firstn c crow ++ srow ++ skipn d crow)
                     (firstn (b - a) (skipn a canvas)) src
         ++ skipn b canvas)
  else raise ValueError.

Definition Expand_call (mean : list Q) (x : triple) : M triple :=
  let '(im, boxes, labels) := x in
  c <- randint 2 ;;
  if negb (c =? 0)%Z then ret (im, boxes, labels)
  else
    let '(height, width, depth) := shape im in
    ratio <- uniform 1 (5 # 4) ;;
    left <- uniform 0 (Qofnat width * ratio - Qofnat width) ;;
    top <- uniform 0 (Qofnat height * ratio - Qofnat height) ;;
    expand_image <- filled_canvas (py_int (Qofnat height * ratio))
                                  (py_int (Qofnat width * ratio)) depth mean ;;
    expand_image <- paste (py_int top) (py_int (top + Qofnat height))
                          (py_int left) (py_int (left + Qofnat width))
                          im expand_image ;;
    match boxes with
    | None => raise AttributeError
    | Some b =>
        ret (expand_image,
             Some (shift_boxes Qplus
                               [inject_Z (py_int left); inject_Z (py_int top)]
                               b),
             labels)
    end.

(** [a[:, dst] = values]: the value array has [n_values] columns, as many
    as the target or a single one, which is then repeated. *)
Definition setitem_columns (dst : list nat) (n_values : nat)
  (values : list Q -> list Q) (a : array2) : M array2 :=
  let store r :=
    fold_left (fun acc jv => set_nth (fst jv) (snd jv) acc)
              (combine dst (if (n_values =? length dst)%nat then values r
                            else repeat (hd 0 (values r)) (length dst)))
              r in
  if (n_values =? length dst)%nat || (n_values =? 1)%nat then
    ret (mkArray2 (ncols a) (map store (rows a)))
  else raise ValueError.

Definition RandomMirror_call (x : triple) : M triple :=
  let '(im, boxes, classes) := x in
  let w := Qofnat (width im) in
  c <- randint 2 ;;
  if (c =? 0)%Z then ret (im, boxes, classes)
  else
    let im := map (@rev (list Q)) im in
    match boxes with
    | None => raise AttributeError
    | Some b =>
        let dst := slice_indices (Some 0%Z) None 2 (ncols b) in
        let src := slice_indices (Some 2%Z) None (-2) (ncols b) in
        b' <- setitem_columns dst (length src)
                (fun r => map (fun v => w - v) (take_indices src r)) b ;;
        ret (im, Some b', classes)
    end.

(** [M.dot(pt)] for a 2 x 3 matrix; the point has to have three entries. *)
Definition dot (m : matrix23) (pt : list Q) : M (list Q) :=
  let '((a, b, c), (d, e, f)) := m in
  match pt with
  | [x; y; z] => ret [a * x + b * y + c * z; d * x + e * y + f * z]
  | _ => raise ValueError
  end.

(** The inner loop of [Rotate] on one box: each of the four points in turn. *)
Definition rotate_box (m : matrix23) (box : list Q) : M (list Q) :=
  fold_left
    (fun acc l =>
       box <- acc ;;
       let lo := Z.of_nat (2 * l) in
       let hi := Z.of_nat (2 * (l + 1)) in
       rot_pt <- dot m (py_slice (Some lo) (Some hi) box ++ [1]) ;;
       ret (firstn (2 * l) box ++ rot_pt ++ skipn (2 * (l + 1)) box))
    (seq 0 4) (ret box).

Section Composites.

Context {cv : OpenCV}.

Definition Rotate_call (mean : list Q) (x : triple) : M triple :=
  let '(im, boxes, labels) := x in
  let '(height, width, _) := shape im in
  let center := (Qofnat width / 2, Qofnat height / 2) in
  let size := (width, height) in
  k <- randint 3 ;;
  if (k =? 0)%Z then
    angle <- randint_range (-90) 90 ;;
    let m := cv2_getRotationMatrix2D center angle 1 in
    let im := cv2_warpAffine im m size mean in
    match boxes with
    | None => raise TypeError
    | Some b =>
        rs <- map_M (rotate_box m) (rows b) ;;
        ret (im, Some (mkArray2 (ncols b) rs), labels)
    end
  else ret (im, boxes, labels).

(** [__call__] of a transform unit; [fuel] bounds the passes of the
    croppers' [while True]. *)
Definition call_unit (fuel : nat) (u : unit_t) : triple -> M triple :=
  match u with
  | ConvertFromInts => ConvertFromInts_call
  | Normalize mean var => Normalize_call mean var
  | Resize size => Resize_call size
  | RandomSaturation lower upper => RandomSaturation_call lower upper
  | RandomHue delta => RandomHue_call delta
  | RandomLightingNoise => RandomLightingNoise_call
  | ConvertColor current transform => ConvertColor_call current transform
  | RandomContrast lower upper => RandomContrast_call lower upper
  | RandomBrightness delta => RandomBrightness_call delta
  | ToCV2Image => ToCV2Image_call
  | ToTensor => ToTensor_call
  | RandomSampleCrop => RandomSampleCrop_call fuel
  | RandomSampleCropPoly => RandomSampleCropPoly_call fuel
  | Expand mean => Expand_call mean
  | RandomMirror => RandomMirror_call
  | Rotate mean => Rotate_call mean
  end.

(** [Compose.__call__]: the triple threaded through the list, in order. *)
Fixpoint Compose_call (transforms : list (triple -> M triple)) (x : triple)
  : M triple :=
  match transforms with
  | [] => ret x
  | t :: rest => y <- t x ;; Compose_call rest y
  end.

(** [PhotometricDistort.pd] *)
Definition pd : list unit_t :=
  [RandomContrast (1 # 2) (3 # 2);
   ConvertColor "BGR" "HSV";
   RandomHue 36;
   ConvertColor "HSV" "BGR";
   RandomContrast (1 # 2) (3 # 2)].

Definition PhotometricDistort_call (fuel : nat) (x : triple) : M triple :=
  let '(image, boxes, labels) := x in
  let im := image in
  '(im, boxes, labels) <- RandomBrightness_call 16 (im, boxes, labels) ;;
  c <- randint 2 ;;
  let distort :=
    if negb (c =? 0)%Z
    then Compose_call (map (call_unit fuel) (py_slice None (Some (-1)%Z) pd))
    else Compose_call (map (call_unit fuel) (py_slice (Some 1%Z) None pd)) in
  '(im, boxes, labels) <- distort (im, boxes, labels) ;;
  ret (map_pixels (np_clip 0 255) im, boxes, labels).

(** Every transform of the module: the units, and the classes built from
    other transforms. *)
Inductive transform : Type :=
| Unit (u : unit_t)
| PhotometricDistort
| Compose (transforms : list transform)
| Augmentation_traininig (size : nat) (mean : list Q)
| Augmentation_inference (size : nat) (mean : list Q).

Definition Normalize_default : unit_t :=
  Normalize [485 # 1000; 456 # 1000; 406 # 1000]
            [229 # 1000; 224 # 1000; 225 # 1000].

Fixpoint call (fuel : nat) (t : transform) : triple -> M triple :=
  match t with
  | Unit u => call_unit fuel u
  | PhotometricDistort => PhotometricDistort_call fuel
  | Compose transforms => Compose_call (map (call fuel) transforms)
  | Augmentation_traininig size _ =>
      Compose_call [call_unit fuel ConvertFromInts;
                    PhotometricDistort_call fuel;
                    call_unit fuel RandomSampleCropPoly;
                    call_unit fuel (Resize size);
                    call_unit fuel Normalize_default;
                    call_unit fuel ToTensor]
  | Augmentation_inference size _ =>
      Compose_call [call_unit fuel ConvertFromInts;
                    call_unit fuel (Resize size);
                    call_unit fuel Normalize_default;
                    call_unit fuel ToTensor]
  end.

End Composites.

(** ** The copy loop of [get_state_dict.py]

    The script reads and writes files and builds networks; the part that
    is a computation is the loop that copies the pretrained entries into
    the state of the backbone.  A state dict is an ordered dictionary from
    parameter names to tensors, given as the list of its items in key
    order; the tensors stay abstract. *)

Section StateDict.

Variable tensor : Type.

Definition state_dict : Type := list (string * tensor).

(** [d.keys()] *)
Definition keys (d : state_dict) : list string := map fst d.

(** [d[k]]; [None] is a KeyError. *)
Fixpoint getitem (d : state_dict) (k : string) : option tensor :=
  match d with
  | [] => None
  | (k', v) :: r => if (k' =? k)%string then Some v else getitem r k
  end.

(** [d[k] = v]: a key that is present keeps its place, a new key goes to
    the end. *)
Fixpoint setitem (k : string) (v : tensor) (d : state_dict) : state_dict :=
  match d with
  | [] => [(k, v)]
  | (k', v') :: r =>
      if (k' =? k)%string then (k, v) :: r else (k', v') :: setitem k v r
  end.

(** [sub in s] on strings. *)
Fixpoint contains (sub s : string) : bool :=
  prefix sub s
  || match s with
     | EmptyString => false
     | String _ s' => contains sub s'
     end.

(** The loop over [d.keys()], on the keys [ks] that are left; [None] is
    the KeyError of [d[k]]. *)
Fixpoint copy_keys (d : state_dict) (ks : list string) (dd : state_dict)
  : option state_dict :=
  match ks with
  | [] => Some dd
  | k :: ks' =>
      if contains "last_linear" k then Some dd
      else match getitem d k with
           | Some v => copy_keys d ks' (setitem k v dd)
           | None => None
           end
  end.

Definition copy_pretrained (d dd : state_dict) : option state_dict :=
  copy_keys d (keys d) dd.

End StateDict.

(** ** Vocabulary of the statements *)

(** The value [random.randint(2)] draws from the generator [g]. *)
Definition coin (g : rng) : Z := Qfloor (inject_Z 2 * frac (g 0%nat)).

(** Every entry of the image lies in [lo, hi]. *)
Definition in_range (lo hi : Q) (im : image) : Prop :=
  Forall (Forall (Forall (fun v => lo <= v <= hi))) im.

(** Channel 0 of every pixel lies in [lo, hi]. *)
Definition hue_in_range (lo hi : Q) (im : image) : Prop :=
  Forall (Forall (fun px => lo <= nth 0 px 0 <= hi)) im.

(** Geometry and labels go together: both absent, or as many labels as
    rows. *)
Definition synced (boxes : option array2) (labels : option labels_t) : Prop :=
  match boxes, labels with
  | Some b, Some l => length (rows b) = length l
  | None, None => True
  | _, _ => False
  end.

Definition synced_triple (x : triple) : Prop :=
  let '(_, boxes, labels) := x in synced boxes labels.

(** Channel 0 of every pixel lies in [lo, hi). *)
Definition hue_below (lo hi : Q) (im : image) : Prop :=
  Forall (Forall (fun px => lo <= nth 0 px 0 < hi)) im.

(** Entrywise equality of rational arrays. *)
Definition rows_eq (a b : list (list Q)) : Prop := Forall2 (Forall2 Qeq) a b.

(** The two chains of the composite distortion, as the specification lists
    them: contrast before the hue jitter, or after it. *)
Definition chain_contrast_first : list unit_t :=
  [RandomContrast (1 # 2) (3 # 2);
   ConvertColor "BGR" "HSV";
   RandomHue 36;
   ConvertColor "HSV" "BGR"].

Definition chain_contrast_last : list unit_t :=
  [ConvertColor "BGR" "HSV";
   RandomHue 36;
   ConvertColor "HSV" "BGR";
   RandomContrast (1 # 2) (3 # 2)].

Definition is_contrast (u : unit_t) : bool :=
  match u with
  | RandomContrast _ _ => true
  | _ => false
  end.

Definition image_of (x : triple) : image := fst (fst x).

(** The mirror of a box [x1, y1, x2, y2] in an image of width [w], as the
    specification words it: [w - x] with left and right swapped. *)
Definition mirror_box (w : Q) (r : list Q) : list Q :=
  [w - nth 2 r 0; nth 1 r 0; w - nth 0 r 0; nth 3 r 0].

(** What OpenCV documents for [cv2.resize] with a square target: when it
    returns, the result has the requested height and width. *)
Definition resize_contract (cv : OpenCV) : Prop :=
  forall (src dst : image) (n : nat),
    cv2_resize src (n, n) INTER_CUBIC = Some dst ->
    height dst = n /\ width dst = n.

(** The value [random.uniform(low, high)] draws from the generator [g]. *)
Definition uniform_value (low high : Q) (g : rng) : Q :=
  low + (high - low) * frac (g 0%nat).

(** The canvas the specification describes for Expand: [rows] x [cols]
    pixels of the fill colour, with the source image laid at row [top] and
    column [left]. *)
Definition expanded_canvas (rows cols top left : nat) (fill : list Q)
  (src : image) : image :=
  repeat (repeat fill cols) top
  ++ map (fun srow => repeat fill left ++ srow
                      ++ repeat fill (cols - (left + length srow))) src
  ++ repeat (repeat fill cols) (rows - (top + length src)).

(** The pixel a fill value of [c] entries, or of one entry, stands for. *)
Definition fill_pixel (fill : list Q) (c : nat) : list Q :=
  if (length fill =? c)%nat then fill else repeat (hd 0 fill) c.

(** The units that work on pixel values only. *)
Definition pixel_only (u : unit_t) : bool :=
  match u with
  | ConvertFromInts | Normalize _ _ | RandomSaturation _ _ | RandomHue _
  | RandomLightingNoise | ConvertColor _ _ | RandomContrast _ _
  | RandomBrightness _ | ToCV2Image => true
  | _ => false
  end.

(** A transform keeps geometry and labels together on every return. *)
Definition keeps_sync (f : triple -> M triple) : Prop :=
  forall x g y g', f x g = Ok y g' -> synced_triple x -> synced_triple y.

(** ** Concrete inputs *)

(** A generator whose first raw outputs are listed. *)
Definition tape (l : list Q) : rng := fun n => nth n l 0.

(** An image of one colour. *)
Definition blank (h w c : nat) (v : Q) : image :=
  repeat (repeat (repeat v c) w) h.

(** A stand-in for OpenCV, to run calls on concrete inputs: the resize gives
    a black image of the requested size, the colour conversion accepts the
    images of three channels and leaves them alone, as the warp does. *)
Definition cv_plain : OpenCV :=
  {| cv2_resize := fun im wh _ =>
       Some (blank (snd wh) (fst wh) (depth im) 0);
     cv2_cvtColor := fun im _ =>
       if (depth im =? 3)%nat then Some im else None;
     cv2_getRotationMatrix2D := fun _ _ _ => ((1, 0, 0), (0, 1, 0));
     cv2_warpAffine := fun im _ _ _ => im |}.

(** The polygon of the specification's crop example and a small one. *)
Definition poly_example : list Q := [10; 10; 50; 10; 50; 50; 10; 50].
Definition poly_small : list Q := [20; 20; 30; 20; 30; 30; 20; 30].

(** The input of the crop example: a 50 x 50 image with the polygon of the
    specification and two small polygons that lie inside the rectangle
    [5, 5, 45, 45], and the draws that select the mode (1, None) and sample
    that rectangle at the first trial. *)
Definition crop_example_input : triple :=
  (blank 50 50 3 7,
   Some (mkArray2 8 [poly_example; poly_small; poly_small]),
   Some [1; 2; 3]%Z).

Definition crop_example_draws : rng :=
  tape [1 # 4; 7 # 9; 7 # 9; 5 # 9; 5 # 9].

(** The area a box [x1, y1, x2, y2] shares with a rectangle, and its own
    area. *)
Definition box_intersection (rect row : list Q) : Q :=
  np_maximum 0 (np_minimum (nth 2 row 0) (nth 2 rect 0)
                - np_maximum (nth 0 row 0) (nth 0 rect 0))
  * np_maximum 0 (np_minimum (nth 3 row 0) (nth 3 rect 0)
                  - np_maximum (nth 1 row 0) (nth 1 rect 0)).

Definition box_area (row : list Q) : Q :=
  (nth 2 row 0 - nth 0 row 0) * (nth 3 row 0 - nth 1 row 0).

(** A box with a left-top corner strictly before its right-bottom corner. *)
Definition proper_box (row : list Q) : Prop :=
  length row = 4%nat
  /\ nth 0 row 0 < nth 2 row 0 /\ nth 1 row 0 < nth 3 row 0.

(** [rect] is the smallest axis-aligned rectangle around the points of the
    row [r] of [n] columns, x at the even and y at the odd columns: it
    bounds every coordinate and each of its sides is met by one. *)
Definition tight_rect (n : nat) (r rect : list Q) : Prop :=
  exists x0 y0 x1 y1,
    rect = [x0; y0; x1; y1]
    /\ (forall j, (j < n)%nat -> Nat.even j = true ->
                  x0 <= nth j r 0 /\ nth j r 0 <= x1)
    /\ (forall j, (j < n)%nat -> Nat.odd j = true ->
                  y0 <= nth j r 0 /\ nth j r 0 <= y1)
    /\ (exists j, (j < n)%nat /\ Nat.even j = true /\ nth j r 0 = x0)
    /\ (exists j, (j < n)%nat /\ Nat.odd j = true /\ nth j r 0 = y0)
    /\ (exists j, (j < n)%nat /\ Nat.even j = true /\ nth j r 0 = x1)
    /\ (exists j, (j < n)%nat /\ Nat.odd j = true /\ nth j r 0 = y1).

(** The image of the point (x, y) under a 2 x 3 affine matrix. *)
Definition affine (m : matrix23) (x y : Q) : list Q :=
  let '((a, b, c), (d, e, f)) := m in
  [a * x + b * y + c; d * x + e * y + f].

(** A row whose first four points are moved by [m]; further columns stay. *)
Definition rotated_row (m : matrix23) (r : list Q) : list Q :=
  match r with
  | x1 :: y1 :: x2 :: y2 :: x3 :: y3 :: x4 :: y4 :: rest =>
      affine m x1 y1 ++ affine m x2 y2 ++ affine m x3 y3 ++ affine m x4 y4
      ++ rest
  | _ => r
  end.

(** What the inference preset takes from [cv2.resize]: on a non-empty
    source and a positive size it returns a size x size image with the
    channels of the source. *)
Definition resize_returns (cv : OpenCV) : Prop :=
  forall (src : image) (n : nat),
    (0 < n)%nat -> (0 < height src)%nat -> (0 < width src)%nat ->
    exists dst, cv2_resize src (n, n) INTER_CUBIC = Some dst
                /\ rectangular n n (depth src) dst.

(** A generator none of whose draws falls in the lowest sixth of the unit
    interval: [numpy.random.choice] over six options never gives the first
    one. *)
Definition never_first_of_six (g : rng) : Prop :=
  forall n, 1 # 6 <= frac (g n).

(** ** The photometric steps, as the specification words them *)

(** The hue wrap: values above 360 go down by 360, values below 0 go up by
    360, every other value stays. *)
Definition hue_wrapped (s : Q) : Q :=
  if Qltb 360 s then s - 360 else if Qltb s 0 then s + 360 else s.

(** The hue of a pixel (its first channel) moved by [d] and wrapped. *)
Definition jitter_hue (d : Q) (px : list Q) : list Q :=
  match px with
  | [] => []
  | hue :: rest => hue_wrapped (hue + d) :: rest
  end.

(** A brightness step: nothing, or one delta of [-delta, delta] added to
    every value, the sums clipped to [0,255]. *)
Definition brightened (delta : Q) (im im' : image) : Prop :=
  im' = im
  \/ exists d, - delta <= d <= delta
               /\ im' = map_pixels (fun v => np_clip 0 255 (v + d)) im.

(** A contrast step: nothing, or every value multiplied by one factor of
    [lower, upper], the products clipped to [0,255]. *)
Definition contrasted (lower upper : Q) (im im' : image) : Prop :=
  im' = im
  \/ exists a, lower <= a <= upper
               /\ im' = map_pixels (fun v => np_clip 0 255 (v * a)) im.

(** A hue step: nothing, or one delta of [-delta, delta] added to the hue
    of every pixel, wrapped. *)
Definition hue_jittered (delta : Q) (im im' : image) : Prop :=
  im' = im
  \/ exists d, - delta <= d <= delta /\ im' = map (map (jitter_hue d)) im.

(** What the photometric chain takes from [cv2.cvtColor]: an image of three
    channels is converted to one of three channels. *)
Definition cvt_three_channels (cv : OpenCV) : Prop :=
  forall (src : image) (code : color_code),
    depth src = 3%nat ->
    exists dst, cv2_cvtColor src code = Some dst /\ depth dst = 3%nat.

(** [cv2.cvtColor] refuses an image with fewer than three channels. *)
Definition cvt_needs_three (cv : OpenCV) : Prop :=
  forall (src : image) (code : color_code),
    (depth src < 3)%nat -> cv2_cvtColor src code = None.

(** * Theorems *)

Unset Implicit Arguments.

(** ** Numbers and the generator *)

Lemma Qltb_true (a b : Q) : Qltb a b = true <-> a < b.
Proof.
  unfold Qltb. rewrite negb_true_iff, <- not_true_iff_false, Qle_bool_iff.
  split; intro H; [apply Qnot_le_lt | apply Qlt_not_le]; exact H.
Qed.

Lemma Qltb_false (a b : Q) : Qltb a b = false <-> b <= a.
Proof.
  unfold Qltb. rewrite negb_false_iff. apply Qle_bool_iff.
Qed.

Ltac qcases :=
  repeat match goal with
    | H : Qltb _ _ = true |- _ => apply Qltb_true in H
    | H : Qltb _ _ = false |- _ => apply Qltb_false in H
    | |- context [Qltb ?a ?b] => destruct (Qltb a b) eqn:?
    end.

Lemma frac_bounds (q : Q) : 0 <= frac q /\ frac q < 1.
Proof.
  unfold frac.
  pose proof (Qfloor_le q) as Hlo.
  pose proof (Qlt_floor q) as Hhi.
  rewrite inject_Z_plus in Hhi. change (inject_Z 1) with 1 in Hhi.
  split; lra.
Qed.

Lemma frac_unit (q : Q) : 0 <= q -> q < 1 -> Qfloor q = 0%Z.
Proof.
  intros Hlo Hhi.
  pose proof (Qfloor_le q) as H1.
  pose proof (Qlt_floor q) as H2.
  assert (Ha : (Qfloor q < 1)%Z).
  { rewrite Zlt_Qlt. change (inject_Z 1) with 1. lra. }
  assert (Hb : (-1 < Qfloor q)%Z).
  { rewrite Zlt_Qlt. rewrite inject_Z_plus in H2.
    change (inject_Z 1) with 1 in H2.
    change (inject_Z (-1)) with (-1 # 1). lra. }
  lia.
Qed.

Lemma randint2 (g : rng) : randint 2 g = Ok (coin g) (rng_tail g).
Proof. reflexivity. Qed.

Lemma coin_values (g : rng) : coin g = 0%Z \/ coin g = 1%Z.
Proof.
  unfold coin. destruct (frac_bounds (g 0%nat)) as [Hlo Hhi].
  set (u := frac (g 0%nat)) in *.
  pose proof (Qfloor_le (inject_Z 2 * u)) as H1.
  pose proof (Qlt_floor (inject_Z 2 * u)) as H2.
  rewrite inject_Z_plus in H2.
  change (inject_Z 1) with 1 in H2. change (inject_Z 2) with 2 in *.
  assert (Ha : (Qfloor (2 * u) < 2)%Z).
  { rewrite Zlt_Qlt. change (inject_Z 2) with 2. lra. }
  assert (Hb : (-1 < Qfloor (2 * u))%Z).
  { rewrite Zlt_Qlt. change (inject_Z (-1)) with (-1 # 1). lra. }
  lia.
Qed.

(** The coin falls on 0 exactly on the lower half of the unit interval. *)
Lemma coin_half (g : rng) : coin g = 0%Z <-> frac (g 0%nat) < 1 # 2.
Proof.
  unfold coin. destruct (frac_bounds (g 0%nat)) as [Hlo Hhi].
  set (u := frac (g 0%nat)) in *. change (inject_Z 2) with 2.
  pose proof (Qfloor_le (2 * u)) as H1.
  pose proof (Qlt_floor (2 * u)) as H2.
  rewrite inject_Z_plus in H2. change (inject_Z 1) with 1 in H2.
  split; intro H.
  - rewrite H in H2. change (inject_Z 0) with 0 in H2. lra.
  - assert (Ha : (Qfloor (2 * u) < 1)%Z).
    { rewrite Zlt_Qlt. change (inject_Z 1) with 1. lra. }
    assert (Hb : (-1 < Qfloor (2 * u))%Z).
    { rewrite Zlt_Qlt. change (inject_Z (-1)) with (-1 # 1). lra. }
    lia.
Qed.

(** ** Clipping *)

Lemma clamp_bounds (v : Q) : 0 <= clamp_lo (clamp_hi v) <= 255.
Proof. unfold clamp_lo, clamp_hi. qcases; split; lra. Qed.

Lemma np_clip_bounds (v : Q) : 0 <= np_clip 0 255 v <= 255.
Proof. unfold np_clip. qcases; split; lra. Qed.

Lemma map_pixels_range (f : Q -> Q) (lo hi : Q) (im : image) :
  (forall v, lo <= f v <= hi) -> in_range lo hi (map_pixels f im).
Proof.
  intro Hf. unfold in_range, map_pixels.
  apply Forall_map, Forall_forall. intros row _.
  apply Forall_map, Forall_forall. intros px _.
  apply Forall_map, Forall_forall. intros v _. apply Hf.
Qed.

Lemma map_pixels_compose (f g : Q -> Q) (im : image) :
  map_pixels f (map_pixels g im) = map_pixels (fun v => f (g v)) im.
Proof.
  unfold map_pixels. rewrite map_map. apply map_ext. intro row.
  rewrite map_map. apply map_ext. intro px. apply map_map.
Qed.

Lemma clamp_image_range (im : image) : in_range 0 255 (clamp_image im).
Proof.
  unfold clamp_image. rewrite map_pixels_compose.
  apply map_pixels_range. intro v. apply clamp_bounds.
Qed.

(** ** The hue wrap *)

Lemma wrap_hue_bounds (v d : Q) :
  0 <= v <= 360 -> - (360) <= d <= 360 -> 0 <= wrap_hue (v + d) <= 360.
Proof. intros Hv Hd. unfold wrap_hue. qcases; split; lra. Qed.

Lemma uniform_run (low high : Q) (g : rng) :
  uniform low high g = Ok (low + (high - low) * frac (g 0%nat)) (rng_tail g).
Proof. reflexivity. Qed.

Lemma uniform_symmetric_bounds (delta u : Q) :
  0 <= delta -> 0 <= u -> u < 1 ->
  - delta <= - delta + (delta - - delta) * u <= delta.
Proof. intros Hd Hlo Hhi. split; nra. Qed.

Lemma set_nth_length {A} (l : list A) (k : nat) (v : A) :
  length (set_nth k v l) = length l.
Proof.
  revert k. induction l as [|a l IH]; intros [|k]; simpl; auto.
Qed.

Lemma hue_update_range (f : Q -> Q) (lo hi : Q) (im : image) :
  (forall v, lo <= v <= hi -> lo <= f v <= hi) ->
  hue_in_range lo hi im ->
  hue_in_range lo hi
    (map (map (fun px => set_nth 0 (f (nth 0 px 0)) px)) im).
Proof.
  intros Hf Him. unfold hue_in_range in *.
  apply Forall_map. eapply Forall_impl; [|exact Him].
  intros row Hrow. apply Forall_map. eapply Forall_impl; [|exact Hrow].
  intros [|h t] Hpx; simpl in *; [exact Hpx | apply Hf, Hpx].
Qed.

(** ** The photometric units *)

Section Photometric.

Context {cv : OpenCV}.

Variables (im : image) (boxes : option array2) (labels : option labels_t).

Lemma RandomBrightness_run (delta : Q) (g : rng) :
  exists im' g',
    RandomBrightness_call delta (im, boxes, labels) g
    = Ok (im', boxes, labels) g'
    /\ (coin g <> 0%Z \/ in_range 0 255 im -> in_range 0 255 im').
Proof.
  unfold RandomBrightness_call, bind. rewrite randint2.
  destruct (coin g =? 0)%Z eqn:Hc.
  - exists im, (rng_tail g). split; [reflexivity|].
    apply Z.eqb_eq in Hc. intros [H|H]; [contradiction | exact H].
  - rewrite uniform_run. eexists _, _. split; [reflexivity|].
    intros _. apply clamp_image_range.
Qed.

Lemma RandomContrast_run (lower upper : Q) (g : rng) :
  exists im' g',
    RandomContrast_call lower upper (im, boxes, labels) g
    = Ok (im', boxes, labels) g'
    /\ (coin g <> 0%Z \/ in_range 0 255 im -> in_range 0 255 im').
Proof.
  unfold RandomContrast_call, bind. rewrite randint2.
  destruct (coin g =? 0)%Z eqn:Hc.
  - exists im, (rng_tail g). split; [reflexivity|].
    apply Z.eqb_eq in Hc. intros [H|H]; [contradiction | exact H].
  - rewrite uniform_run. eexists _, _. split; [reflexivity|].
    intros _. apply clamp_image_range.
Qed.

Lemma RandomHue_run (delta : Q) (g : rng) :
  (1 <= depth im)%nat ->
  exists im' g',
    RandomHue_call delta (im, boxes, labels) g = Ok (im', boxes, labels) g'
    /\ (0 <= delta <= 360 -> hue_in_range 0 360 im ->
        hue_in_range 0 360 im').
Proof.
  intro Hd. unfold RandomHue_call, bind. rewrite randint2.
  destruct (coin g =? 0)%Z eqn:Hc.
  - exists im, (rng_tail g). split; [reflexivity | auto].
  - rewrite uniform_run. unfold map_channel.
    assert (Hk : (0 <? depth im)%nat = true) by (apply Nat.ltb_lt; lia).
    rewrite Hk. eexists _, _. split; [reflexivity|].
    intros Hdelta Him.
    set (d := - delta + (delta - - delta) * frac (rng_tail g 0%nat)).
    apply (hue_update_range (fun v => wrap_hue (v + d))); [|exact Him].
    intros v Hv. apply wrap_hue_bounds; [exact Hv|].
    destruct (frac_bounds (rng_tail g 0%nat)) as [Hlo Hhi].
    pose proof (uniform_symmetric_bounds delta _ (proj1 Hdelta)
                  Hlo Hhi) as Hb.
    fold d in Hb. lra.
Qed.

End Photometric.

(** C6 as stated fails twice: a skipped brightness branch returns a value
    above 255 untouched, and the hue 342 jittered by +18 (the draw 3/4)
    comes out as 360, outside [0,360). *)
Lemma photometric_units_in_range_counterexample :
  (exists g',
      RandomBrightness_call 16 ([[[300; 0; 0]]], None, None) (tape [1 # 4])
      = Ok ([[[300; 0; 0]]], None, None) g'
      /\ ~ in_range 0 255 [[[300; 0; 0]]])
  /\ (exists im' g',
         hue_below 0 360 [[[342; 0; 0]]]
         /\ RandomHue_call 36 ([[[342; 0; 0]]], None, None)
                           (tape [1 # 2; 3 # 4])
            = Ok (im', None, None) g'
         /\ pixel im' 0 0 0 == 360
         /\ ~ hue_below 0 360 im').
Proof.
  split.
  - eexists. split; [reflexivity|].
    intro H. apply Forall_inv, Forall_inv, Forall_inv in H.
    destruct H as [_ H]. vm_compute in H. apply H. reflexivity.
  - eexists _, _. split; [|split; [reflexivity|split]].
    + constructor; [|constructor]. constructor; [|constructor].
      split; [discriminate | reflexivity].
    + vm_compute. reflexivity.
    + intro H. vm_compute in H. apply Forall_inv, Forall_inv in H.
      destruct H as [_ H]. discriminate H.
Qed.

(** ** The photometric units return *)

Lemma depth_map_pixels (f : Q -> Q) (im : image) :
  depth (map_pixels f im) = depth im.
Proof.
  unfold depth, map_pixels.
  destruct im as [|[|px row] im]; cbn [map hd]; try reflexivity.
  apply length_map.
Qed.

Lemma depth_clamp_image (im : image) : depth (clamp_image im) = depth im.
Proof. unfold clamp_image. rewrite !depth_map_pixels. reflexivity. Qed.

Lemma depth_update_channel (k : nat) (f : Q -> Q) (im : image) :
  depth (map (map (fun px => set_nth k (f (nth k px 0)) px)) im) = depth im.
Proof.
  unfold depth. destruct im as [|[|px row] im]; cbn [map hd]; try reflexivity.
  apply set_nth_length.
Qed.

Lemma RandomBrightness_total (delta : Q) (im : image) (b : option array2)
  (l : option labels_t) (g : rng) :
  exists im' g',
    RandomBrightness_call delta (im, b, l) g = Ok (im', b, l) g'
    /\ depth im' = depth im.
Proof.
  unfold RandomBrightness_call, bind. rewrite randint2.
  destruct (coin g =? 0)%Z.
  - eexists _, _. split; reflexivity.
  - rewrite uniform_run. eexists _, _. split; [reflexivity|].
    rewrite depth_clamp_image. apply depth_map_pixels.
Qed.

Lemma RandomContrast_total (lower upper : Q) (im : image)
  (b : option array2) (l : option labels_t) (g : rng) :
  exists im' g',
    RandomContrast_call lower upper (im, b, l) g = Ok (im', b, l) g'
    /\ depth im' = depth im.
Proof.
  unfold RandomContrast_call, bind. rewrite randint2.
  destruct (coin g =? 0)%Z.
  - eexists _, _. split; reflexivity.
  - rewrite uniform_run. eexists _, _. split; [reflexivity|].
    rewrite depth_clamp_image. apply depth_map_pixels.
Qed.

Lemma RandomHue_total (delta : Q) (im : image) (b : option array2)
  (l : option labels_t) (g : rng) :
  (1 <= depth im)%nat ->
  exists im' g',
    RandomHue_call delta (im, b, l) g = Ok (im', b, l) g'
    /\ depth im' = depth im.
Proof.
  intro Hd. unfold RandomHue_call, bind. rewrite randint2.
  destruct (coin g =? 0)%Z.
  - eexists _, _. split; reflexivity.
  - rewrite uniform_run. unfold map_channel.
    assert (Hk : (0 <? depth im)%nat = true) by (apply Nat.ltb_lt; lia).
    rewrite Hk. eexists _, _. split; [reflexivity|].
    set (d := - delta + (delta - - delta) * frac (rng_tail g 0%nat)).
    exact (depth_update_channel 0 (fun v => wrap_hue (v + d)) im).
Qed.

Lemma ConvertColor_BGR_HSV {cv : OpenCV} (im : image) (b : option array2)
  (l : option labels_t) (g : rng) :
  ConvertColor_call "BGR" "HSV" (im, b, l) g
  = match cv2_cvtColor im COLOR_BGR2HSV with
    | Some im' => Ok (im', b, l) g
    | None => Raise CvError
    end.
Proof.
  unfold ConvertColor_call. cbn [String.eqb Ascii.eqb Bool.eqb andb].
  destruct (cv2_cvtColor im COLOR_BGR2HSV); reflexivity.
Qed.

Lemma ConvertColor_HSV_BGR {cv : OpenCV} (im : image) (b : option array2)
  (l : option labels_t) (g : rng) :
  ConvertColor_call "HSV" "BGR" (im, b, l) g
  = match cv2_cvtColor im COLOR_HSV2BGR with
    | Some im' => Ok (im', b, l) g
    | None => Raise CvError
    end.
Proof.
  unfold ConvertColor_call. cbn [String.eqb Ascii.eqb Bool.eqb andb].
  destruct (cv2_cvtColor im COLOR_HSV2BGR); reflexivity.
Qed.

(** With a colour conversion that takes the images of three channels to
    images of three channels, both chains of the composite distortion run
    to their end on such an image. *)
Lemma PhotometricDistort_returns {cv : OpenCV} (fuel : nat) (im : image)
  (b : option array2) (l : option labels_t) (g : rng) :
  cvt_three_channels cv -> depth im = 3%nat ->
  exists y g', PhotometricDistort_call fuel (im, b, l) g = Ok y g'.
Proof.
  intros Hcv Hd. unfold PhotometricDistort_call, bind.
  destruct (RandomBrightness_total 16 im b l g) as (im1 & g1 & E1 & D1).
  rewrite E1, randint2.
  assert (Hd1 : depth im1 = 3%nat) by (rewrite D1; exact Hd).
  destruct (coin g1 =? 0)%Z; cbn [negb].
  - change (py_slice (Some 1%Z) None pd) with chain_contrast_last.
    unfold chain_contrast_last.
    cbn [map call_unit Compose_call]. unfold bind.
    rewrite ConvertColor_BGR_HSV.
    destruct (Hcv im1 COLOR_BGR2HSV Hd1) as (im2 & -> & D2).
    destruct (RandomHue_total 36 im2 b l (rng_tail g1) ltac:(lia))
      as (im3 & g3 & E3 & D3).
    rewrite E3, ConvertColor_HSV_BGR.
    destruct (Hcv im3 COLOR_HSV2BGR ltac:(lia)) as (im4 & -> & D4).
    destruct (RandomContrast_total (1 # 2) (3 # 2) im4 b l g3)
      as (im5 & g5 & E5 & _).
    rewrite E5. eexists _, _. reflexivity.
  - change (py_slice None (Some (-1)%Z) pd) with chain_contrast_first.
    unfold chain_contrast_first.
    cbn [map call_unit Compose_call]. unfold bind.
    destruct (RandomContrast_total (1 # 2) (3 # 2) im1 b l (rng_tail g1))
      as (im2 & g2 & E2 & D2).
    rewrite E2, ConvertColor_BGR_HSV.
    destruct (Hcv im2 COLOR_BGR2HSV ltac:(lia)) as (im3 & -> & D3).
    destruct (RandomHue_total 36 im3 b l g2 ltac:(lia))
      as (im4 & g4 & E4 & D4).
    rewrite E4, ConvertColor_HSV_BGR.
    destruct (Hcv im4 COLOR_HSV2BGR ltac:(lia)) as (im5 & -> & D5).
    eexists _, _. reflexivity.
Qed.

(** ** The composite distortion *)

Lemma pd_without_last : py_slice None (Some (-1)%Z) pd = chain_contrast_first.
Proof. reflexivity. Qed.

Lemma pd_without_first : py_slice (Some 1%Z) None pd = chain_contrast_last.
Proof. reflexivity. Qed.

(** ** Mirror *)

Lemma width_flip (im : image) : width (map (@rev (list Q)) im) = width im.
Proof. destruct im as [|row im]; [reflexivity | apply length_rev]. Qed.

Lemma flip_involutive (im : image) :
  map (@rev (list Q)) (map (@rev (list Q)) im) = im.
Proof.
  rewrite map_map. rewrite <- (map_id im) at 2.
  apply map_ext. intro row. apply rev_involutive.
Qed.

Lemma coin_taken (g : rng) : coin g <> 0%Z -> (coin g =? 0)%Z = false.
Proof. intro H. apply Z.eqb_neq. exact H. Qed.

(** On four columns the slice assignment of RandomMirror is [mirror_box]. *)
Lemma RandomMirror_boxes (im : image) (b : array2) (classes : option labels_t)
  (g : rng) :
  ncols b = 4%nat -> well_formed b -> coin g <> 0%Z ->
  RandomMirror_call (im, Some b, classes) g
  = Ok (map (@rev (list Q)) im,
        Some (mkArray2 4 (map (mirror_box (Qofnat (width im))) (rows b))),
        classes)
       (rng_tail g).
Proof.
  destruct b as [n rs]. simpl. intros -> Hwf Hc.
  unfold RandomMirror_call, bind. rewrite randint2, (coin_taken g Hc).
  cbn [ncols rows]. unfold setitem_columns, ret.
  change (slice_indices (Some 0%Z) None 2 4) with [0; 2]%nat.
  change (slice_indices (Some 2%Z) None (-2) 4) with [2; 0]%nat.
  cbn [length Nat.eqb orb ncols rows]. do 4 f_equal.
  f_equal. unfold well_formed in Hwf. cbn [ncols rows] in Hwf.
  apply map_ext_in. intros r Hr.
  rewrite Forall_forall in Hwf. specialize (Hwf r Hr).
  destruct r as [|x1 [|y1 [|x2 [|y2 [|? ?]]]]]; try discriminate Hwf.
  reflexivity.
Qed.

Lemma mirror_box_twice (w : Q) (r : list Q) :
  length r = 4%nat -> Forall2 Qeq (mirror_box w (mirror_box w r)) r.
Proof.
  intro Hr.
  destruct r as [|x1 [|y1 [|x2 [|y2 [|? ?]]]]]; try discriminate Hr.
  unfold mirror_box. cbn [nth].
  repeat constructor; try reflexivity; ring.
Qed.

Lemma mirror_rows_twice (w : Q) (rs : list (list Q)) :
  Forall (fun r => length r = 4%nat) rs ->
  rows_eq (map (fun r => mirror_box w (mirror_box w r)) rs) rs.
Proof.
  intro Hwf. unfold rows_eq.
  induction Hwf as [|r rs' Hr _ IH]; constructor;
    [apply mirror_box_twice, Hr | exact IH].
Qed.

(** C7.  On boxes of four coordinates, with the flip branch taken in both
    applications, RandomMirror reverses every image row and maps a box
    [x1, y1, x2, y2] to [width - x2, y1, width - x1, y2]; applied twice it
    returns the original image, the original classes and boxes equal to the
    original ones entry by entry. *)
Theorem RandomMirror_involution (im : image) (b : array2)
  (classes : option labels_t) (g : rng) :
  ncols b = 4%nat -> well_formed b ->
  coin g <> 0%Z -> coin (rng_tail g) <> 0%Z ->
  RandomMirror_call (im, Some b, classes) g
  = Ok (map (@rev (list Q)) im,
        Some (mkArray2 4 (map (mirror_box (Qofnat (width im))) (rows b))),
        classes)
       (rng_tail g)
  /\ exists b2,
      (y <- RandomMirror_call (im, Some b, classes) ;; RandomMirror_call y) g
      = Ok (im, Some b2, classes) (rng_tail (rng_tail g))
      /\ ncols b2 = 4%nat
      /\ rows_eq (rows b2) (rows b).
Proof.
  intros Hn Hwf Hc1 Hc2.
  pose proof (RandomMirror_boxes im b classes g Hn Hwf Hc1) as H1.
  split; [exact H1|].
  set (w := Qofnat (width im)) in *.
  set (b1 := mkArray2 4 (map (mirror_box w) (rows b))) in *.
  assert (Hwf1 : well_formed b1).
  { unfold well_formed, b1. cbn [ncols rows].
    apply Forall_map, Forall_forall. intros r _. reflexivity. }
  pose proof (RandomMirror_boxes (map (@rev (list Q)) im) b1 classes
                (rng_tail g) eq_refl Hwf1 Hc2) as H2.
  rewrite width_flip, flip_involutive in H2. fold w in H2.
  eexists. split; [|split].
  - unfold bind at 1. rewrite H1. exact H2.
  - reflexivity.
  - unfold b1. cbn [rows]. rewrite map_map.
    apply mirror_rows_twice.
    unfold well_formed in Hwf. rewrite Hn in Hwf. exact Hwf.
Qed.

Lemma RandomMirror_involution_witness :
  exists b2,
    (y <- RandomMirror_call (blank 2 3 3 7,
                             Some (mkArray2 4 [[1; 2; 3; 4]; [0; 0; 2; 1]]),
                             Some [1; 2]%Z) ;;
     RandomMirror_call y) (tape [1 # 2; 3 # 4])
    = Ok (blank 2 3 3 7, Some b2, Some [1; 2]%Z)
         (rng_tail (rng_tail (tape [1 # 2; 3 # 4])))
    /\ ncols b2 = 4%nat
    /\ rows_eq (rows b2) [[1; 2; 3; 4]; [0; 0; 2; 1]].
Proof.
  apply (proj2 (RandomMirror_involution (blank 2 3 3 7)
                  (mkArray2 4 [[1; 2; 3; 4]; [0; 0; 2; 1]])
                  (Some [1; 2]%Z) (tape [1 # 2; 3 # 4])
                  eq_refl
                  ltac:(repeat constructor)
                  ltac:(vm_compute; discriminate)
                  ltac:(vm_compute; discriminate))).
Defined.

(** C10.  With the flip branch taken, RandomMirror assigns the two columns
    [2, 0] into the columns [0, 2] of a box array and returns, while on a
    polygon array of eight coordinates the two columns [2, 0] meet the four
    columns [0, 2, 4, 6] and the assignment raises ValueError, rows or no
    rows. *)
Theorem RandomMirror_polygons_fail (im : image) (b : array2)
  (classes : option labels_t) (g : rng) :
  coin g <> 0%Z ->
  (ncols b = 8%nat ->
   slice_indices (Some 0%Z) None 2 (ncols b) = [0; 2; 4; 6]%nat
   /\ slice_indices (Some 2%Z) None (-2) (ncols b) = [2; 0]%nat
   /\ RandomMirror_call (im, Some b, classes) g = Raise ValueError)
  /\ (ncols b = 4%nat -> well_formed b ->
      slice_indices (Some 0%Z) None 2 (ncols b) = [0; 2]%nat
      /\ slice_indices (Some 2%Z) None (-2) (ncols b) = [2; 0]%nat
      /\ exists b',
          RandomMirror_call (im, Some b, classes) g
          = Ok (map (@rev (list Q)) im, Some b', classes) (rng_tail g)).
Proof.
  intro Hc. split.
  - intro Hn. rewrite Hn. split; [reflexivity|]. split; [reflexivity|].
    unfold RandomMirror_call, bind. rewrite randint2, (coin_taken g Hc), Hn.
    reflexivity.
  - intros Hn Hwf. rewrite Hn. split; [reflexivity|]. split; [reflexivity|].
    eexists. apply RandomMirror_boxes; assumption.
Qed.

Lemma RandomMirror_polygons_fail_witness :
  RandomMirror_call (blank 2 3 3 7, Some (mkArray2 8 [poly_example]),
                     Some [1%Z]) (tape [1 # 2])
  = Raise ValueError
  /\ RandomMirror_call (blank 2 3 3 7, Some (mkArray2 8 []), Some [])
                       (tape [1 # 2])
     = Raise ValueError.
Proof.
  split.
  - apply (proj1 (RandomMirror_polygons_fail (blank 2 3 3 7)
                    (mkArray2 8 [poly_example]) (Some [1%Z]) (tape [1 # 2])
                    ltac:(vm_compute; discriminate)) eq_refl).
  - apply (proj1 (RandomMirror_polygons_fail (blank 2 3 3 7)
                    (mkArray2 8 []) (Some []) (tape [1 # 2])
                    ltac:(vm_compute; discriminate)) eq_refl).
Defined.

(** ** ToTensor *)

Lemma nth_nil {A} (k : nat) (d : A) : nth k [] d = d.
Proof. destruct k; reflexivity. Qed.

Lemma rectangular_depth (h w c : nat) (im : image) :
  rectangular h w c im -> (0 < h)%nat -> (0 < w)%nat -> depth im = c.
Proof.
  intros [Hlen Hrows] Hh Hw. unfold depth.
  destruct im as [|row im]; [simpl in Hlen; lia|].
  apply Forall_inv in Hrows. destruct Hrows as [Hrow Hpx].
  destruct row as [|px row]; [simpl in Hrow; lia|].
  apply Forall_inv in Hpx. exact Hpx.
Qed.

Lemma permute_201_pixel (im : image) (k y x : nat) :
  (k < depth im)%nat ->
  pixel (permute_201 im) k y x = pixel im y x k.
Proof.
  intro Hk. unfold pixel, permute_201.
  rewrite (nth_indep _ []
             (map (map (fun px : list Q => nth 0 px 0)) im))
    by (rewrite length_map, length_seq; exact Hk).
  rewrite (map_nth (fun c => map (map (fun px : list Q => nth c px 0)) im)).
  rewrite seq_nth by exact Hk. cbn [Nat.add].
  set (f := fun px : list Q => nth k px 0).
  assert (E1 : nth y (map (map f) im) [] = map f (nth y im []))
    by exact (map_nth (map f) im [] y).
  rewrite E1.
  assert (E2 : forall row, nth x (map f row) 0 = f (nth x row [])).
  { intro row. rewrite <- (map_nth f row [] x).
    unfold f at 3. rewrite nth_nil. reflexivity. }
  apply E2.
Qed.

Lemma permute_201_rectangular (h w c : nat) (im : image) :
  rectangular h w c im -> (0 < h)%nat -> (0 < w)%nat ->
  rectangular c h w (permute_201 im).
Proof.
  intros Hrect Hh Hw. pose proof (rectangular_depth _ _ _ _ Hrect Hh Hw) as Hd.
  destruct Hrect as [Hlen Hrows]. unfold permute_201. rewrite Hd.
  split; [rewrite length_map, length_seq; reflexivity|].
  apply Forall_map, Forall_forall. intros k _.
  split; [rewrite length_map; exact Hlen|].
  apply Forall_map. eapply Forall_impl; [|exact Hrows].
  intros row [Hrow _]. cbn beta. rewrite length_map. exact Hrow.
Qed.

(** C9.  ToTensor returns the image with its axes reordered from
    (height, width, channel) to (channel, height, width): the entry
    [c, y, x] of the result is the entry [y, x, c] of the input.  Geometry
    and labels that are present come back with the same contents, and with
    the geometry absent both the geometry and the label output are [None],
    whatever the labels were.  No generator output is used. *)
Theorem ToTensor_reorders_axes (im : image) (g : rng) :
  (forall b l,
      ToTensor_call (im, Some b, Some l) g
      = Ok (permute_201 im, Some b, Some l) g)
  /\ (forall l,
         ToTensor_call (im, None, l) g = Ok (permute_201 im, None, None) g)
  /\ (forall h w c,
         rectangular h w c im -> (0 < h)%nat -> (0 < w)%nat ->
         rectangular c h w (permute_201 im)
         /\ forall k y x,
             (k < c)%nat ->
             pixel (permute_201 im) k y x = pixel im y x k).
Proof.
  split; [reflexivity|]. split; [reflexivity|].
  intros h w c Hrect Hh Hw. split.
  - apply permute_201_rectangular; assumption.
  - intros k y x Hk. apply permute_201_pixel.
    rewrite (rectangular_depth h w c im Hrect Hh Hw). exact Hk.
Qed.

Lemma ToTensor_reorders_axes_witness :
  let im := [[[1; 2; 3]; [4; 5; 6]]] in
  rectangular 3 1 2 (permute_201 im)
  /\ pixel (permute_201 im) 2 0 1 = pixel im 0 1 2
  /\ permute_201 im = [[[1; 4]]; [[2; 5]]; [[3; 6]]].
Proof.
  intro im.
  destruct (proj2 (proj2 (ToTensor_reorders_axes im (tape []))) 1%nat 2%nat
              3%nat) as [Hrect Hpix].
  - split; [reflexivity|]. repeat constructor.
  - lia.
  - lia.
  - split; [exact Hrect|]. split; [apply Hpix; lia | reflexivity].
Defined.

(** ** Resize *)

Lemma scale_row_entry (r : list Q) (sw sh : Q) (j : nat) :
  length r = 8%nat -> (j < 8)%nat ->
  nth j (zip_with Qmult r (tile [sw; sh] 4)) 0
  = nth j r 0 * (if Nat.even j then sw else sh).
Proof.
  intros Hr Hj.
  destruct r as [|a0 [|a1 [|a2 [|a3 [|a4 [|a5 [|a6 [|a7 [|? ?]]]]]]]]];
    try discriminate Hr.
  do 8 (destruct j as [|j]; [reflexivity|]). lia.
Qed.

Lemma shape_nonempty (im : image) :
  (0 < height im)%nat -> (0 < width im)%nat ->
  ((width im =? 0)%nat || (height im =? 0)%nat) = false.
Proof.
  intros Hh Hw. apply orb_false_iff. split; apply Nat.eqb_neq; lia.
Qed.

(** C4 (amended).  On an image of height h > 0 and width w > 0 with
    polygons of eight coordinates, Resize(size) returns what [cv2.resize]
    gives for the target (size, size), which is a size x size image by
    OpenCV's contract, and multiplies every x-coordinate of every row by
    size/w and every y-coordinate by size/h: the pair is tiled four times.
    Boxes of four coordinates do not meet the eight tiled factors and raise
    ValueError. *)
Theorem Resize_scales_polygons {cv : OpenCV} (size : nat) (im : image)
  (b : array2) (labels : option labels_t) (g : rng) :
  (0 < height im)%nat -> (0 < width im)%nat ->
  let sw := Qofnat size / Qofnat (width im) in
  let sh := Qofnat size / Qofnat (height im) in
  (ncols b = 8%nat ->
   forall out,
     cv2_resize (astype_uint8 im) (size, size) INTER_CUBIC = Some out ->
     Resize_call size (im, Some b, labels) g
     = Ok (out,
           Some (mkArray2 8 (map (fun r => zip_with Qmult r (tile [sw; sh] 4))
                                 (rows b))),
           labels) g
     /\ (resize_contract cv -> height out = size /\ width out = size)
     /\ (well_formed b ->
         forall r j,
           In r (rows b) -> (j < 8)%nat ->
           nth j (zip_with Qmult r (tile [sw; sh] 4)) 0
           = nth j r 0 * (if Nat.even j then sw else sh)))
  /\ (ncols b = 4%nat ->
      Resize_call size (im, Some b, labels) g = Raise ValueError).
Proof.
  intros Hh Hw sw sh. split.
  - intros Hn out Hout. split; [|split].
    + unfold Resize_call, shape, bind.
      rewrite (shape_nonempty im Hh Hw). unfold scale_boxes.
      rewrite Hn. cbn [tile app length Nat.eqb]. unfold ret.
      rewrite Hout. reflexivity.
    + intro Hcv. exact (Hcv _ _ _ Hout).
    + intros Hwf r j Hr Hj. apply scale_row_entry; [|exact Hj].
      unfold well_formed in Hwf. rewrite Forall_forall in Hwf.
      rewrite (Hwf r Hr). exact Hn.
  - intro Hn. unfold Resize_call, shape, bind.
    rewrite (shape_nonempty im Hh Hw). unfold scale_boxes.
    rewrite Hn. reflexivity.
Qed.

Lemma blank_shape (h w c : nat) (v : Q) :
  height (blank h w c v) = h
  /\ ((0 < h)%nat -> width (blank h w c v) = w).
Proof.
  unfold height, width, blank. split; [apply repeat_length|].
  intro Hh. destruct h; [lia|]. simpl hd. apply repeat_length.
Qed.

Lemma Resize_scales_polygons_witness :
  @Resize_call cv_plain 20 (blank 40 10 3 7, Some (mkArray2 8 [poly_example]),
                            Some [1%Z]) (tape [])
  = Ok (blank 20 20 3 0,
        Some (mkArray2 8
                [zip_with Qmult poly_example
                          (tile [Qofnat 20 / Qofnat 10; Qofnat 20 / Qofnat 40]
                                4)]),
        Some [1%Z]) (tape [])
  /\ height (blank 20 20 3 0) = 20%nat
  /\ width (blank 20 20 3 0) = 20%nat.
Proof.
  destruct (proj1 (@Resize_scales_polygons cv_plain 20 (blank 40 10 3 7)
                     (mkArray2 8 [poly_example]) (Some [1%Z]) (tape [])
                     ltac:(vm_compute; lia) ltac:(vm_compute; lia))
                  eq_refl (blank 20 20 3 0) eq_refl) as (Hrun & Hshape & _).
  split; [exact Hrun|].
  apply Hshape. intros src dst n Hdst.
  injection Hdst as <-. cbn [fst snd].
  split; [apply blank_shape|].
  destruct n; [reflexivity | apply blank_shape; lia].
Defined.

(** C4 as stated fails on boxes of four coordinates: the product with the
    eight tiled factors raises instead of scaling. *)
Lemma Resize_scales_polygons_counterexample :
  @Resize_call cv_plain 20 (blank 40 10 3 7, Some (mkArray2 4 [[1; 2; 3; 4]]),
                            Some [1%Z]) (tape [])
  = Raise ValueError.
Proof. reflexivity. Qed.

(** ** Slices of lists *)

Lemma norm_index_nat (n k : nat) :
  (k <= n)%nat -> norm_index n (Z.of_nat k) = k.
Proof.
  intro Hk. unfold norm_index.
  destruct (Z.of_nat k <? 0)%Z eqn:E; [apply Z.ltb_lt in E; lia|].
  rewrite Z.max_r by lia. rewrite Z.min_r by lia. apply Nat2Z.id.
Qed.

Lemma slice_middle {A} (a m b : list A) :
  firstn (length m) (skipn (length a) (a ++ m ++ b)) = m.
Proof.
  rewrite skipn_app, skipn_all, Nat.sub_diag. cbn [app skipn].
  rewrite firstn_app, firstn_all, Nat.sub_diag. cbn [firstn].
  apply app_nil_r.
Qed.

Lemma py_slice_middle {A} (a m b : list A) :
  py_slice (Some (Z.of_nat (length a)))
           (Some (Z.of_nat (length a + length m))) (a ++ m ++ b) = m.
Proof.
  unfold py_slice, slice_bounds.
  rewrite !norm_index_nat by (rewrite !length_app; lia).
  replace (length a + length m - length a)%nat with (length m) by lia.
  apply slice_middle.
Qed.

Lemma firstn_repeat_le {A} (a : A) (n m : nat) :
  (n <= m)%nat -> firstn n (repeat a m) = repeat a n.
Proof.
  revert m. induction n as [|n IH]; intros [|m] Hm; simpl; try lia;
    [reflexivity | reflexivity | f_equal; apply IH; lia].
Qed.

Lemma skipn_repeat {A} (a : A) (n m : nat) :
  skipn n (repeat a m) = repeat a (m - n).
Proof.
  revert m. induction n as [|n IH]; intros [|m]; simpl; auto.
Qed.

Lemma zip_with_repeat {A B C} (f : A -> B -> C) (a : A) (l : list B) :
  zip_with f (repeat a (length l)) l = map (f a) l.
Proof. induction l as [|b l IH]; simpl; [reflexivity | f_equal; exact IH]. Qed.

(** ** Truncation *)

Lemma Qfloor_unique (q : Q) (z : Z) :
  inject_Z z <= q -> q < inject_Z (z + 1) -> Qfloor q = z.
Proof.
  intros Hlo Hhi.
  pose proof (Qfloor_le q) as H1. pose proof (Qlt_floor q) as H2.
  assert (Ha : (Qfloor q < z + 1)%Z) by (rewrite Zlt_Qlt; lra).
  assert (Hb : (z < Qfloor q + 1)%Z) by (rewrite Zlt_Qlt; lra).
  lia.
Qed.

Lemma py_int_comp (q q' : Q) : q == q' -> py_int q = py_int q'.
Proof.
  intro H. unfold py_int.
  rewrite (Qleb_comp 0 0 (Qeq_refl 0) q q' H).
  rewrite (Qfloor_comp q q' H), (Qceiling_comp q q' H). reflexivity.
Qed.

(** A truncation that gives a positive integer is a floor. *)
Lemma py_int_positive (q : Q) (z : Z) :
  py_int q = z -> (0 < z)%Z -> inject_Z z <= q /\ q < inject_Z (z + 1).
Proof.
  unfold py_int. intros H Hz.
  destruct (Qle_bool 0 q) eqn:E.
  - subst z. split; [apply Qfloor_le | apply Qlt_floor].
  - exfalso.
    assert (Hq : q < 0).
    { apply Qnot_le_lt. intro Hle. apply Qle_bool_iff in Hle. congruence. }
    pose proof (Qceiling_lt q) as Hc. rewrite H in Hc.
    assert (Hz' : inject_Z (z - 1) < 0) by lra.
    change 0 with (inject_Z 0) in Hz'. rewrite <- Zlt_Qlt in Hz'. lia.
Qed.

Lemma py_int_shift (q : Q) (z : Z) (n : nat) :
  py_int q = z -> (0 < z)%Z -> py_int (q + Qofnat n) = (z + Z.of_nat n)%Z.
Proof.
  intros H Hz. destruct (py_int_positive q z H Hz) as [Hlo Hhi].
  assert (Hn : 0 <= Qofnat n).
  { unfold Qofnat. change 0 with (inject_Z 0). rewrite <- Zle_Qle. lia. }
  assert (Hz0 : 0 < inject_Z z).
  { change 0 with (inject_Z 0). rewrite <- Zlt_Qlt. exact Hz. }
  unfold py_int.
  assert (E : Qle_bool 0 (q + Qofnat n) = true) by (apply Qle_bool_iff; lra).
  rewrite E. apply Qfloor_unique.
  - rewrite inject_Z_plus. unfold Qofnat. lra.
  - rewrite !inject_Z_plus in *. unfold Qofnat. lra.
Qed.

(** ** Expand *)

Lemma rectangular_width (h w c : nat) (im : image) :
  rectangular h w c im -> (0 < h)%nat -> width im = w.
Proof.
  intros [Hlen Hall] Hh. unfold width.
  destruct im as [|row im]; [simpl in Hlen; lia|].
  apply Forall_inv in Hall. exact (proj1 Hall).
Qed.

Section Canvas.

Variables (rows_ cols top left h w d : nat) (fill : list Q) (src : image).

Hypothesis Hsrc : rectangular h w d src.
Hypothesis Hh : (0 < h)%nat.
Hypothesis Hw : (0 < w)%nat.
Hypothesis Hfill : length fill = d.
Hypothesis Hrows : (top + h <= rows_)%nat.
Hypothesis Hcols : (left + w <= cols)%nat.

Let canvas : image := expanded_canvas rows_ cols top left fill src.

Lemma src_rows (srow : list (list Q)) : In srow src -> length srow = w.
Proof.
  intro Hin. destruct Hsrc as [_ Hall]. rewrite Forall_forall in Hall.
  exact (proj1 (Hall srow Hin)).
Qed.

Lemma src_shape : height src = h /\ width src = w /\ depth src = d.
Proof.
  split; [exact (proj1 Hsrc)|]. split.
  - exact (rectangular_width h w d src Hsrc Hh).
  - exact (rectangular_depth h w d src Hsrc Hh Hw).
Qed.

Lemma paste_on_fill (g : rng) :
  paste (Z.of_nat top) (Z.of_nat (top + h))
        (Z.of_nat left) (Z.of_nat (left + w))
        src (repeat (repeat fill cols) rows_) g
  = Ok canvas g.
Proof.
  destruct src_shape as (Hhs & Hws & Hds).
  unfold paste, slice_bounds.
  assert (Hch : height (repeat (repeat fill cols) rows_) = rows_)
    by apply repeat_length.
  assert (Hcw : width (repeat (repeat fill cols) rows_) = cols).
  { unfold width. destruct rows_; [lia|]. simpl hd. apply repeat_length. }
  assert (Hcd : depth (repeat (repeat fill cols) rows_) = d).
  { unfold depth. destruct rows_; [lia|]. simpl hd.
    destruct cols; [lia|]. simpl hd. exact Hfill. }
  rewrite Hch, Hcw, Hcd, Hhs, Hws, Hds.
  rewrite !norm_index_nat by lia.
  replace (top + h - top)%nat with h by lia.
  replace (left + w - left)%nat with w by lia.
  rewrite !Nat.eqb_refl. cbn [andb]. unfold ret. cbv beta.
  apply (f_equal (fun c => Ok c g)).
  unfold canvas, expanded_canvas.
  rewrite firstn_repeat_le by lia.
  rewrite !skipn_repeat.
  rewrite firstn_repeat_le by lia.
  rewrite <- Hhs at 1. unfold height. rewrite zip_with_repeat.
  rewrite (proj1 Hsrc).
  f_equal. f_equal.
  apply map_ext_in. intros srow Hin.
  rewrite firstn_repeat_le by lia. rewrite skipn_repeat.
  rewrite (src_rows srow Hin). reflexivity.
Qed.

Lemma canvas_rectangular : rectangular rows_ cols d canvas.
Proof.
  unfold canvas, expanded_canvas. split.
  - rewrite !length_app, length_map, !repeat_length, (proj1 Hsrc). lia.
  - assert (Hrow : length (repeat fill cols) = cols
                   /\ Forall (fun px : list Q => length px = d)
                             (repeat fill cols)).
    { split; [apply repeat_length|].
      apply Forall_forall. intros px Hpx.
      apply repeat_spec in Hpx. subst px. exact Hfill. }
    apply Forall_app. split; [|apply Forall_app; split].
    + apply Forall_forall. intros r Hr. apply repeat_spec in Hr.
      subst r. exact Hrow.
    + apply Forall_map, Forall_forall. intros srow Hin.
      destruct Hsrc as [_ Hall]. rewrite Forall_forall in Hall.
      destruct (Hall srow Hin) as [Hlen Hpx]. split.
      * rewrite !length_app, !repeat_length, Hlen. lia.
      * apply Forall_app. split; [|apply Forall_app; split].
        -- apply Forall_forall. intros px Hin'.
           apply repeat_spec in Hin'. subst px. exact Hfill.
        -- exact Hpx.
        -- apply Forall_forall. intros px Hin'.
           apply repeat_spec in Hin'. subst px. exact Hfill.
    + apply Forall_forall. intros r Hr. apply repeat_spec in Hr.
      subst r. exact Hrow.
Qed.

(** [canvas[top:top+h, left:left+w]] is the source image. *)
Lemma canvas_window :
  crop_image [Z.of_nat left; Z.of_nat top;
              Z.of_nat (left + w); Z.of_nat (top + h)] canvas
  = src.
Proof.
  unfold crop_image. cbn [nth]. unfold canvas, expanded_canvas.
  set (mid := map _ src).
  assert (Hmid : length mid = h)
    by (unfold mid; rewrite length_map; exact (proj1 Hsrc)).
  replace (Z.of_nat top)
    with (Z.of_nat (length (repeat (repeat fill cols) top)))
    by (rewrite repeat_length; reflexivity).
  replace (Z.of_nat (top + h))
    with (Z.of_nat (length (repeat (repeat fill cols) top) + length mid))
    by (rewrite repeat_length, Hmid; reflexivity).
  rewrite py_slice_middle. unfold mid. rewrite map_map.
  rewrite <- (map_id src) at 2. apply map_ext_in. intros srow Hin.
  pose proof (src_rows srow Hin) as Hlen.
  replace (Z.of_nat left) with (Z.of_nat (length (repeat fill left)))
    by (rewrite repeat_length; reflexivity).
  replace (Z.of_nat (left + w))
    with (Z.of_nat (length (repeat fill left) + length srow))
    by (rewrite repeat_length, Hlen; reflexivity).
  apply py_slice_middle.
Qed.

(** Outside the window every pixel of the canvas is the fill colour. *)
Lemma canvas_outside (y x : nat) :
  (y < rows_)%nat -> (x < cols)%nat ->
  ~ ((top <= y < top + h)%nat /\ (left <= x < left + w)%nat) ->
  nth x (nth y canvas []) [] = fill.
Proof.
  intros Hy Hx Hout. unfold canvas, expanded_canvas.
  set (row := repeat fill cols).
  set (G := fun srow : list (list Q) =>
              repeat fill left ++ srow
              ++ repeat fill (cols - (left + length srow))).
  assert (Hrowx : nth x row [] = fill)
    by (apply nth_repeat_lt; exact Hx).
  destruct (Nat.lt_ge_cases y top) as [Hlt|Hge].
  - rewrite app_nth1 by (rewrite repeat_length; exact Hlt).
    rewrite nth_repeat_lt by exact Hlt. exact Hrowx.
  - rewrite app_nth2 by (rewrite repeat_length; exact Hge).
    rewrite repeat_length.
    destruct (Nat.lt_ge_cases y (top + h)) as [Hin|Hbelow].
    + rewrite app_nth1 by (rewrite length_map, (proj1 Hsrc); lia).
      rewrite (nth_indep _ [] (G []))
        by (rewrite length_map, (proj1 Hsrc); lia).
      rewrite (map_nth G).
      set (srow := nth (y - top) src []).
      assert (Hlen : length srow = w).
      { apply src_rows. apply nth_In. rewrite (proj1 Hsrc). lia. }
      unfold G. rewrite Hlen.
      destruct (Nat.lt_ge_cases x left) as [Hxl|Hxr].
      * rewrite app_nth1 by (rewrite repeat_length; exact Hxl).
        apply nth_repeat_lt. exact Hxl.
      * rewrite app_nth2 by (rewrite repeat_length; exact Hxr).
        rewrite repeat_length.
        rewrite app_nth2 by lia.
        apply nth_repeat_lt. lia.
    + rewrite app_nth2 by (rewrite length_map, (proj1 Hsrc); lia).
      rewrite nth_repeat_lt by (rewrite length_map, (proj1 Hsrc); lia).
      exact Hrowx.
Qed.

End Canvas.

Lemma tile_length {A} (p : list A) (n : nat) :
  length (tile p n) = (n * length p)%nat.
Proof.
  induction n as [|n IH]; simpl; [reflexivity|].
  rewrite length_app, IH. reflexivity.
Qed.

Lemma zip_with_length {A B C} (f : A -> B -> C) (l : list A) (r : list B) :
  length (zip_with f l r) = Nat.min (length l) (length r).
Proof.
  revert r. induction l as [|a l IH]; intros [|b r]; simpl; auto.
Qed.

Lemma zip_tile_entry (op : Q -> Q -> Q) (a c : Q) (n : nat) :
  forall (l : list Q) (j : nat),
    length l = (2 * n)%nat -> (j < 2 * n)%nat ->
    nth j (zip_with op l (tile [a; c] n)) 0
    = op (nth j l 0) (if Nat.even j then a else c).
Proof.
  induction n as [|n IH]; intros l j Hl Hj; [lia|].
  destruct l as [|x [|y l]]; simpl in Hl; try lia.
  destruct j as [|[|j]]; [reflexivity | reflexivity|].
  cbn [tile app zip_with nth].
  change (Nat.even (S (S j))) with (Nat.even j).
  apply IH; lia.
Qed.

(** The entries of a shifted row: the offset pair is added along the first
    [2 * num_pt] columns. *)
Lemma shift_row_entry (op : Q -> Q -> Q) (a c : Q) (n : nat)
  (r : list Q) (j : nat) :
  (2 * n <= length r)%nat -> (j < 2 * n)%nat ->
  nth j (shift_row op [a; c] n r) 0
  = op (nth j r 0) (if Nat.even j then a else c).
Proof.
  intros Hr Hj. unfold shift_row.
  assert (Hlen : length (firstn (2 * n) r) = (2 * n)%nat)
    by (rewrite length_firstn; lia).
  rewrite app_nth1
    by (rewrite zip_with_length, Hlen, tile_length; simpl length; lia).
  rewrite (zip_tile_entry op a c n _ j Hlen Hj).
  rewrite nth_firstn.
  destruct (j <? 2 * n)%nat eqn:E; [reflexivity|].
  apply Nat.ltb_ge in E. lia.
Qed.

Lemma shift_row_length (op : Q -> Q -> Q) (a c : Q) (n : nat) (r : list Q) :
  (2 * n <= length r)%nat -> length (shift_row op [a; c] n r) = length r.
Proof.
  intro Hr. unfold shift_row.
  rewrite length_app, zip_with_length, length_firstn, tile_length,
    length_skipn. simpl length. lia.
Qed.

Lemma fill_pixel_length (fill : list Q) (c : nat) :
  length (fill_pixel fill c) = c.
Proof.
  unfold fill_pixel. destruct (length fill =? c)%nat eqn:E.
  - apply Nat.eqb_eq. exact E.
  - apply repeat_length.
Qed.

Lemma filled_canvas_run (h w c : nat) (fill : list Q) (g : rng) :
  length fill = c \/ length fill = 1%nat ->
  filled_canvas (Z.of_nat h) (Z.of_nat w) c fill g
  = Ok (repeat (repeat (fill_pixel fill c) w) h) g.
Proof.
  intro Hfill. unfold filled_canvas.
  destruct (Z.of_nat h <? 0)%Z eqn:E1; [apply Z.ltb_lt in E1; lia|].
  destruct (Z.of_nat w <? 0)%Z eqn:E2; [apply Z.ltb_lt in E2; lia|].
  cbn [orb]. unfold bind, broadcast_channels, fill_pixel.
  rewrite !Nat2Z.id.
  destruct (length fill =? c)%nat eqn:E; [reflexivity|].
  destruct Hfill as [H|H]; [apply Nat.eqb_neq in E; contradiction|].
  rewrite H. reflexivity.
Qed.

(** C8.  On a 100 x 100 image, when Expand's coin falls on 0 (the branch
    that is not the no-op), the ratio drawn is 1.2 and the offsets drawn
    truncate to left = 5 and top = 3, the call returns a 120 x 120 canvas
    that holds the image at [3:103, 5:105] and the configured mean
    everywhere else, and every x-coordinate of every geometry row is
    increased by 5 and every y-coordinate by 3 (along the [2 * num_pt]
    columns the source shifts, all of them for boxes and polygons); the
    labels are unchanged. *)
Theorem Expand_example (mean : list Q) (im : image) (d : nat) (b : array2)
  (labels : option labels_t) (g : rng) :
  let ratio := uniform_value 1 (5 # 4) (rng_tail g) in
  let left :=
    uniform_value 0 (Qofnat 100 * ratio - Qofnat 100)
                  (rng_tail (rng_tail g)) in
  let top :=
    uniform_value 0 (Qofnat 100 * ratio - Qofnat 100)
                  (rng_tail (rng_tail (rng_tail g))) in
  let canvas := expanded_canvas 120 120 3 5 (fill_pixel mean d) im in
  rectangular 100 100 d im ->
  length mean = d \/ length mean = 1%nat ->
  coin g = 0%Z -> ratio == 6 # 5 -> py_int left = 5%Z -> py_int top = 3%Z ->
  Expand_call mean (im, Some b, labels) g
  = Ok (canvas, Some (shift_boxes Qplus [5; 3] b), labels)
       (rng_tail (rng_tail (rng_tail (rng_tail g))))
  /\ rectangular 120 120 d canvas
  /\ crop_image [5; 3; 105; 103]%Z canvas = im
  /\ (forall y x,
         (y < 120)%nat -> (x < 120)%nat ->
         ~ ((3 <= y < 103)%nat /\ (5 <= x < 105)%nat) ->
         nth x (nth y canvas []) [] = fill_pixel mean d)
  /\ rows (shift_boxes Qplus [5; 3] b)
     = map (shift_row Qplus [5; 3] (ncols b / 2)) (rows b)
  /\ (well_formed b ->
      forall r j,
        In r (rows b) -> (j < 2 * (ncols b / 2))%nat ->
        nth j (shift_row Qplus [5; 3] (ncols b / 2) r) 0
        = nth j r 0 + (if Nat.even j then 5 else 3)).
Proof.
  intros ratio left top canvas Him Hmean Hcoin Hratio Hleft Htop.
  assert (Hh : (0 < 100)%nat) by lia.
  pose proof (fill_pixel_length mean d) as Hfill.
  assert (Hfit : (3 + 100 <= 120)%nat /\ (5 + 100 <= 120)%nat) by lia.
  split; [|split; [|split; [|split; [|split]]]].
  - unfold Expand_call, bind. rewrite randint2, Hcoin.
    cbn [Z.eqb negb]. unfold shape.
    change (height im) with (length im).
    rewrite (proj1 Him), (rectangular_width 100 100 d im Him Hh),
      (rectangular_depth 100 100 d im Him Hh Hh).
    rewrite !uniform_run.
    fold (uniform_value 1 (5 # 4) (rng_tail g)). fold ratio.
    fold (uniform_value 0 (Qofnat 100 * ratio - Qofnat 100)
                        (rng_tail (rng_tail g))). fold left.
    fold (uniform_value 0 (Qofnat 100 * ratio - Qofnat 100)
                        (rng_tail (rng_tail (rng_tail g)))). fold top.
    assert (Hside : py_int (Qofnat 100 * ratio) = Z.of_nat 120).
    { rewrite (py_int_comp _ (inject_Z 120)); [reflexivity|].
      rewrite Hratio. reflexivity. }
    rewrite Hside, (filled_canvas_run 120 120 d mean _ Hmean).
    rewrite Hleft, Htop.
    rewrite (py_int_shift top 3 100 Htop eq_refl),
      (py_int_shift left 5 100 Hleft eq_refl).
    change 3%Z with (Z.of_nat 3) at 1.
    change (3 + Z.of_nat 100)%Z with (Z.of_nat (3 + 100)).
    change 5%Z with (Z.of_nat 5) at 1.
    change (5 + Z.of_nat 100)%Z with (Z.of_nat (5 + 100)).
    rewrite (paste_on_fill 120 120 3 5 100 100 d (fill_pixel mean d) im
               Him Hh Hh Hfill (proj1 Hfit) (proj2 Hfit)).
    reflexivity.
  - apply (canvas_rectangular 120 120 3 5 100 100 d); assumption || lia.
  - apply (canvas_window 120 120 3 5 100 100 d (fill_pixel mean d) im);
      assumption || lia.
  - intros y x Hy Hx Hout.
    apply (canvas_outside 120 120 3 5 100 100 d); assumption || lia.
  - reflexivity.
  - intros Hwf r j Hr Hj.
    apply (shift_row_entry Qplus 5 3); [|exact Hj].
    unfold well_formed in Hwf. rewrite Forall_forall in Hwf.
    rewrite (Hwf r Hr).
    pose proof (Nat.div_mod_eq (ncols b) 2). lia.
Qed.

Lemma blank_rectangular (h w c : nat) (v : Q) :
  rectangular h w c (blank h w c v).
Proof.
  unfold blank. split; [apply repeat_length|].
  apply Forall_forall. intros row Hrow. apply repeat_spec in Hrow. subst row.
  split; [apply repeat_length|].
  apply Forall_forall. intros px Hpx. apply repeat_spec in Hpx. subst px.
  apply repeat_length.
Qed.

Lemma Expand_example_witness :
  let im := blank 100 100 3 7 in
  let g := tape [1 # 4; 4 # 5; 1 # 4; 3 # 20] in
  let canvas := expanded_canvas 120 120 3 5 [104; 117; 123] im in
  Expand_call [104; 117; 123]
              (im, Some (mkArray2 8 [poly_example]), Some [1%Z]) g
  = Ok (canvas,
        Some (mkArray2 8 [[15; 13; 55; 13; 55; 53; 15; 53]]),
        Some [1%Z])
       (rng_tail (rng_tail (rng_tail (rng_tail g))))
  /\ crop_image [5; 3; 105; 103]%Z canvas = im
  /\ nth 4 (nth 3 canvas []) [] = [104; 117; 123]
  /\ nth 5 (nth 3 canvas []) [] = [7; 7; 7].
Proof.
  intros im g canvas.
  destruct (Expand_example [104; 117; 123] im 3
              (mkArray2 8 [poly_example]) (Some [1%Z]) g
              (blank_rectangular 100 100 3 7)
              (or_introl eq_refl)
              ltac:(vm_compute; reflexivity)
              ltac:(vm_compute; reflexivity)
              ltac:(vm_compute; reflexivity)
              ltac:(vm_compute; reflexivity))
    as (Hrun & _ & Hwin & Hout & _).
  split; [exact Hrun|]. split; [exact Hwin|]. split.
  - apply (Hout 3%nat 4%nat); lia.
  - vm_compute. reflexivity.
Defined.

(** ** The polygon cropper *)

Lemma choice_poly_run (g : rng) :
  exists mode,
    choice RandomSampleCropPoly_options None g = Ok mode (rng_tail g).
Proof. eexists. reflexivity. Qed.

Lemma slice_indices_length (start stop : option Z) (n : nat) :
  length (slice_indices start stop 2 n)
  = Z.to_nat
      (let len := Z.of_nat n in
       let adjust (v : Z) : Z :=
         let v := if (v <? 0)%Z then (v + len)%Z else v in
         if (v <? 0)%Z then 0%Z else if (len <=? v)%Z then len else v in
       let lo := match start with Some v => adjust v | None => 0%Z end in
       let hi := match stop with Some v => adjust v | None => len end in
       if (lo <? hi)%Z then ((hi - lo - 1) / 2 + 1)%Z else 0%Z).
Proof.
  unfold slice_indices. rewrite length_map, length_seq. reflexivity.
Qed.

Lemma xs_nonempty (n : nat) :
  (1 <= n)%nat -> slice_indices None None 2 n <> [].
Proof.
  intros Hn E. apply (f_equal (@length nat)) in E.
  rewrite slice_indices_length in E. cbv zeta in E.
  destruct (0 <? Z.of_nat n)%Z eqn:E1; [|apply Z.ltb_ge in E1; lia].
  pose proof (Z.div_pos (Z.of_nat n - 0 - 1) 2 ltac:(lia) ltac:(lia)) as Hq.
  simpl length in E.
  remember ((Z.of_nat n - 0 - 1) / 2)%Z as q. clear Heqq. lia.
Qed.

Lemma ys_nonempty (n : nat) :
  (2 <= n)%nat -> slice_indices (Some 1%Z) None 2 n <> [].
Proof.
  intros Hn E. apply (f_equal (@length nat)) in E.
  rewrite slice_indices_length in E. cbv zeta beta in E.
  change (1 <? 0)%Z with false in E. cbv iota in E.
  destruct (Z.of_nat n <=? 1)%Z eqn:E0; [apply Z.leb_le in E0; lia|].
  change (1 <? 0)%Z with false in E. cbv iota in E.
  destruct (1 <? Z.of_nat n)%Z eqn:E1; [|apply Z.ltb_ge in E1; lia].
  pose proof (Z.div_pos (Z.of_nat n - 1 - 1) 2 ltac:(lia) ltac:(lia)) as Hq.
  simpl length in E.
  remember ((Z.of_nat n - 1 - 1) / 2)%Z as q. clear Heqq. lia.
Qed.

Lemma py_min_run (l : list Q) (g : rng) :
  l <> [] -> exists v, py_min l g = Ok v g.
Proof. destruct l; [contradiction | eexists; reflexivity]. Qed.

Lemma py_max_run (l : list Q) (g : rng) :
  l <> [] -> exists v, py_max l g = Ok v g.
Proof. destruct l; [contradiction | eexists; reflexivity]. Qed.

Lemma take_indices_nonempty (idx : list nat) (r : list Q) :
  idx <> [] -> take_indices idx r <> [].
Proof. destruct idx; [contradiction | discriminate]. Qed.

(** A loop body that neither raises nor draws maps over every list. *)
Lemma map_M_pure {A B} (f : A -> M B) (l : list A) (g : rng) :
  (forall a, exists b, f a g = Ok b g) ->
  exists bs, map_M f l g = Ok bs g /\ length bs = length l.
Proof.
  intro Hf. induction l as [|a l (bs & Hbs & Hlen)].
  - exists []. split; reflexivity.
  - destruct (Hf a) as (b & Hb). exists (b :: bs).
    simpl. unfold bind. rewrite Hb, Hbs. split; [reflexivity|].
    simpl. rewrite Hlen. reflexivity.
Qed.

Lemma bounding_rects_run (b : array2) (g : rng) :
  (2 <= ncols b)%nat \/ rows b = [] ->
  exists rs,
    bounding_rects (Some b) g = Ok (mkArray2 4 rs) g
    /\ length rs = length (rows b).
Proof.
  intros [Hn|Hempty].
  - unfold bounding_rects, bind.
    set (xs := slice_indices None None 2 (ncols b)).
    set (ys := slice_indices (Some 1%Z) None 2 (ncols b)).
    assert (Hxs : xs <> []) by (apply xs_nonempty; lia).
    assert (Hys : ys <> []) by (apply ys_nonempty; lia).
    match goal with
    | |- context [map_M ?f (rows b) g] =>
        destruct (map_M_pure f (rows b) g) as (rs & Hrs & Hlen)
    end.
    + intro r.
      destruct (py_min_run _ g (take_indices_nonempty xs r Hxs)) as (x0 & E1).
      destruct (py_min_run _ g (take_indices_nonempty ys r Hys)) as (y0 & E2).
      destruct (py_max_run _ g (take_indices_nonempty xs r Hxs)) as (x1 & E3).
      destruct (py_max_run _ g (take_indices_nonempty ys r Hys)) as (y1 & E4).
      exists [x0; y0; x1; y1]. unfold bind. rewrite E1, E2, E3, E4.
      reflexivity.
    + exists rs. rewrite Hrs. split; [reflexivity | exact Hlen].
  - exists []. unfold bounding_rects, bind. rewrite Hempty.
    split; reflexivity.
Qed.

(** C3 (amended).  When the geometry is present, RandomSampleCropPoly
    returns the image, the geometry and the labels unchanged, at the first
    pass of its loop and without an error, whenever the object list is empty
    or the drawn mode is None and every row has at least one x and one y
    coordinate. *)
Theorem RandomSampleCropPoly_identity (fuel : nat) (im : image) (b : array2)
  (labels : option labels_t) (g : rng) :
  rows b = []
  \/ (choice RandomSampleCropPoly_options None g = Ok None (rng_tail g)
      /\ (2 <= ncols b)%nat) ->
  RandomSampleCropPoly_pass (im, Some b, labels) g
  = Ok (Some (im, Some b, labels)) (rng_tail g)
  /\ RandomSampleCropPoly_call (S fuel) (im, Some b, labels) g
     = Ok (im, Some b, labels) (rng_tail g).
Proof.
  intro H.
  assert (Hpass : RandomSampleCropPoly_pass (im, Some b, labels) g
                  = Ok (Some (im, Some b, labels)) (rng_tail g)).
  { unfold RandomSampleCropPoly_pass, bind.
    destruct H as [Hempty|[Hmode Hn]].
    - destruct (choice_poly_run g) as (mode & Hmode). rewrite Hmode.
      destruct (bounding_rects_run b (rng_tail g) (or_intror Hempty))
        as (rs & Hrs & Hlen).
      rewrite Hrs. rewrite Hempty in Hlen.
      destruct rs; [|discriminate Hlen].
      destruct mode as [[mn mx]|]; reflexivity.
    - rewrite Hmode.
      destruct (bounding_rects_run b (rng_tail g) (or_introl Hn))
        as (rs & Hrs & _).
      rewrite Hrs. reflexivity. }
  split; [exact Hpass|].
  unfold RandomSampleCropPoly_call. cbn [while_true]. unfold bind.
  rewrite Hpass. reflexivity.
Qed.

Lemma RandomSampleCropPoly_identity_witness :
  RandomSampleCropPoly_call 1 (blank 4 4 3 7, Some (mkArray2 8 []), Some [])
                            (tape [1 # 2])
  = Ok (blank 4 4 3 7, Some (mkArray2 8 []), Some [])
       (rng_tail (tape [1 # 2]))
  /\ RandomSampleCropPoly_call 1
       (blank 4 4 3 7, Some (mkArray2 8 [poly_example]), Some [1%Z])
       (tape [1 # 10])
     = Ok (blank 4 4 3 7, Some (mkArray2 8 [poly_example]), Some [1%Z])
          (rng_tail (tape [1 # 10])).
Proof.
  split.
  - apply (RandomSampleCropPoly_identity 0 (blank 4 4 3 7) (mkArray2 8 [])
             (Some []) (tape [1 # 2])).
    left. reflexivity.
  - apply (RandomSampleCropPoly_identity 0 (blank 4 4 3 7)
             (mkArray2 8 [poly_example]) (Some [1%Z]) (tape [1 # 10])).
    right. split; [reflexivity | simpl; lia].
Defined.

(** C3 as stated fails on the default geometry [None]: the bounding
    rectangles are computed before the mode is looked at, and [len(None)]
    raises. *)
Lemma RandomSampleCropPoly_identity_counterexample :
  choice RandomSampleCropPoly_options None (tape [1 # 10])
  = Ok None (rng_tail (tape [1 # 10]))
  /\ RandomSampleCropPoly_call 1 (blank 4 4 3 7, None, None) (tape [1 # 10])
     = Raise TypeError.
Proof. split; reflexivity. Qed.

(** ** Rows and labels stay together *)

(** Case analysis along a run that returned: every bind, test and pattern
    the run went through. *)
Ltac run_cases H :=
  repeat (cbv beta in H;
          match type of H with
          | Ok _ _ = Ok _ _ => fail 1
          | Raise _ = _ => discriminate H
          | Spin = _ => discriminate H
          | bind _ _ _ = _ => unfold bind in H
          | ret _ _ = _ => unfold ret in H
          | raise _ _ = _ => discriminate H
          | match ?s with _ => _ end = _ =>
              let E := fresh "E" in destruct s eqn:E; try discriminate H
          | match ?s with _ => _ end _ = _ =>
              let E := fresh "E" in destruct s eqn:E; try discriminate H
          end).

Lemma pixel_units_keep_annotations {cv : OpenCV} (fuel : nat) (u : unit_t)
  (im : image) (b : option array2) (l : option labels_t) (g : rng)
  (im' : image) (b' : option array2) (l' : option labels_t) (g' : rng) :
  pixel_only u = true ->
  call_unit fuel u (im, b, l) g = Ok (im', b', l') g' ->
  b' = b /\ l' = l.
Proof.
  intros Hu H. destruct u; try discriminate Hu; cbn [call_unit] in H.
  - unfold ConvertFromInts_call in H. run_cases H. inversion H. auto.
  - unfold Normalize_call in H. run_cases H. inversion H. auto.
  - unfold RandomSaturation_call in H. run_cases H; inversion H; auto.
  - unfold RandomHue_call in H. run_cases H; inversion H; auto.
  - unfold RandomLightingNoise_call in H. run_cases H; inversion H; auto.
  - unfold ConvertColor_call in H. run_cases H; inversion H; auto.
  - unfold RandomContrast_call in H. run_cases H; inversion H; auto.
  - unfold RandomBrightness_call in H. run_cases H; inversion H; auto.
  - unfold ToCV2Image_call in H. run_cases H. inversion H. auto.
Qed.

Lemma trials_inv (n : nat) (trial : M (option triple)) (g : rng)
  (y : triple) (g' : rng) :
  trials n trial g = Ok (Some y) g' ->
  exists g1, trial g1 = Ok (Some y) g'.
Proof.
  revert g. induction n as [|n IH]; intros g H; cbn [trials] in H.
  - discriminate H.
  - unfold bind in H. destruct (trial g) as [[y1|] g1| |] eqn:E;
      try discriminate H.
    + unfold ret in H. inversion H; subst. exists g. exact E.
    + apply (IH g1 H).
Qed.

Lemma while_true_inv (fuel : nat) (pass : M (option triple)) (g : rng)
  (y : triple) (g' : rng) :
  while_true fuel pass g = Ok y g' ->
  exists g1, pass g1 = Ok (Some y) g'.
Proof.
  revert g. induction fuel as [|n IH]; intros g H; cbn [while_true] in H.
  - discriminate H.
  - unfold bind in H. destruct (pass g) as [[y1|] g1| |] eqn:E;
      try discriminate H.
    + unfold ret in H. inversion H; subst. exists g. exact E.
    + apply (IH g1 H).
Qed.

Lemma map_M_length {A B} (f : A -> M B) (l : list A) (g : rng)
  (bs : list B) (g' : rng) :
  map_M f l g = Ok bs g' -> length bs = length l.
Proof.
  revert g bs. induction l as [|a l IH]; intros g bs H; cbn [map_M] in H.
  - unfold ret in H. inversion H. reflexivity.
  - unfold bind in H. destruct (f a g) as [b g1| |]; try discriminate H.
    destruct (map_M f l g1) as [bs1 g2| |] eqn:E; try discriminate H.
    unfold ret in H. inversion H; subst. simpl. f_equal. exact (IH g1 bs1 E).
Qed.

Lemma select_length {A B} (mask : list bool) (a : list A) (b : list B) :
  length a = length b -> length (select mask a) = length (select mask b).
Proof.
  revert a b. induction mask as [|m mask IH]; intros [|x a] [|y b] H;
    cbn [select length] in *; try reflexivity; try discriminate H.
  injection H as H. destruct m; cbn [length]; rewrite (IH a b H); reflexivity.
Qed.

(** The same mask applied to rows and to labels keeps every kept row next
    to its own label. *)
Lemma select_combine {A B} (mask : list bool) (a : list A) (b : list B) :
  select mask (combine a b) = combine (select mask a) (select mask b).
Proof.
  revert a b. induction mask as [|m mask IH]; intros [|x a] [|y b];
    cbn [select combine]; try reflexivity.
  - destruct m; [|destruct (select mask a)]; reflexivity.
  - destruct m; cbn [combine]; rewrite IH; reflexivity.
Qed.

(** A pass of the polygon cropper that returns hands back its input or the
    translation of its input by the corner of some rectangle. *)
Lemma RandomSampleCropPoly_pass_inv (x y : triple) (g g' : rng) :
  RandomSampleCropPoly_pass x g = Ok (Some y) g' ->
  y = x \/ exists rect g1, crop_translate rect x g1 = Ok y g'.
Proof.
  intro H. unfold RandomSampleCropPoly_pass in H.
  destruct x as [[im b] l].
  unfold bind in H.
  destruct (choice RandomSampleCropPoly_options None g) as [mode g1| |];
    try discriminate H.
  destruct (bounding_rects b g1) as [br g2| |]; try discriminate H.
  destruct mode as [[mn mx]|].
  - destruct (length (rows br) =? 0)%nat.
    + unfold ret in H. inversion H. left. reflexivity.
    + apply trials_inv in H. destruct H as (g3 & H).
      unfold RandomSampleCropPoly_trial, bind in H.
      destruct (sample_rect (1 # 10) im g3) as [[rect|] g4| |];
        try discriminate H.
      destruct (modified_jaccard_numpy br (rect_q rect) g4) as [ov g5| |];
        try discriminate H.
      match type of H with
      | (if ?c then _ else _) _ = _ => destruct c; try discriminate H
      end.
      destruct (crop_translate rect (im, b, l) g5) as [y1 g6| |] eqn:E;
        try discriminate H.
      unfold ret in H. inversion H; subst. right. exists rect, g5. exact E.
  - unfold ret in H. inversion H. left. reflexivity.
Qed.

Lemma crop_translate_inv (rect : rect_t) (im : image) (b : array2)
  (l : option labels_t) (g : rng) (y : triple) (g' : rng) :
  crop_translate rect (im, Some b, l) g = Ok y g' ->
  y = (crop_image rect im,
       Some (shift_boxes Qminus (firstn 2 (rect_q rect)) b), l).
Proof. intro H. inversion H. reflexivity. Qed.

(** A pass of the box cropper that returns hands back its input or the
    rows and labels selected by one mask. *)
Lemma RandomSampleCrop_pass_inv (x y : triple) (g g' : rng) :
  RandomSampleCrop_pass x g = Ok (Some y) g' ->
  y = x \/ exists rect mask g1, crop_keep rect mask x g1 = Ok y g'.
Proof.
  intro H. unfold RandomSampleCrop_pass in H.
  unfold bind in H.
  destruct (choice RandomSampleCrop_options None g) as [mode g1| |];
    try discriminate H.
  destruct mode as [[mn mx]|].
  - apply trials_inv in H. destruct H as (g3 & H).
    unfold RandomSampleCrop_trial in H. destruct x as [[im b] l].
    unfold bind in H.
    destruct (sample_rect (3 # 10) im g3) as [[rect|] g4| |];
      try discriminate H.
    destruct b as [b|]; try discriminate H.
    destruct (jaccard_numpy b (rect_q rect) g4) as [ov g5| |];
      try discriminate H.
    destruct (fl_min ov g5) as [lo g6| |]; try discriminate H.
    destruct (fl_ltb lo (lower_bound mn)); try discriminate H.
    destruct (fl_max ov g6) as [hi g7| |]; try discriminate H.
    destruct (fl_ltb (upper_bound mx) hi); try discriminate H.
    destruct (crop_mask (rect_q rect) b g7) as [mask g8| |];
      try discriminate H.
    destruct (negb (existsb (fun v => v) mask)); try discriminate H.
    destruct (crop_keep rect mask (im, Some b, l) g8) as [y1 g9| |] eqn:E;
      try discriminate H.
    unfold ret in H. inversion H; subst. right. exists rect, mask, g8.
    exact E.
  - unfold ret in H. inversion H. left. reflexivity.
Qed.

Lemma crop_keep_inv (rect : rect_t) (mask : list bool) (im : image)
  (b : option array2) (l : option labels_t) (g : rng) (y : triple)
  (g' : rng) :
  crop_keep rect mask (im, b, l) g = Ok y g' ->
  exists b0 l0,
    b = Some b0 /\ l = Some l0
    /\ length mask = length (rows b0) /\ length mask = length l0
    /\ y = (crop_image rect im,
            Some (mkArray2 (ncols b0)
                    (map (clip_box (rect_q rect)) (select mask (rows b0)))),
            Some (select mask l0)).
Proof.
  intro H. unfold crop_keep in H.
  destruct b as [b0|]; [|discriminate H].
  unfold bind, mask_index in H.
  destruct (length mask =? length (rows b0))%nat eqn:E1;
    [|discriminate H].
  unfold ret in H. cbv beta in H.
  destruct l as [l0|]; [|discriminate H].
  destruct (length mask =? length l0)%nat eqn:E2; [|discriminate H].
  inversion H. exists b0, l0.
  apply Nat.eqb_eq in E1. apply Nat.eqb_eq in E2.
  repeat split; assumption.
Qed.

Lemma shift_boxes_rows (op : Q -> Q -> Q) (offset : list Q) (b : array2) :
  length (rows (shift_boxes op offset b)) = length (rows b).
Proof. unfold shift_boxes. cbn [rows]. apply length_map. Qed.

Section Sync.

Context {cv : OpenCV}.

Variable fuel : nat.

Lemma pixel_units_keep_sync (u : unit_t) :
  pixel_only u = true -> keeps_sync (call_unit fuel u).
Proof.
  intros Hu [[im b] l] g [[im' b'] l'] g' H Hs.
  destruct (pixel_units_keep_annotations fuel u im b l g im' b' l' g' Hu H)
    as [-> ->].
  exact Hs.
Qed.

Lemma scale_boxes_rows (new_wh : list Q) (b : array2) (g : rng)
  (b' : array2) (g' : rng) :
  scale_boxes new_wh b g = Ok b' g' -> length (rows b') = length (rows b).
Proof.
  unfold scale_boxes. intro H.
  destruct (ncols b =? length (tile new_wh 4))%nat.
  - inversion H. cbn [rows]. apply length_map.
  - destruct (ncols b =? 1)%nat; [|discriminate H].
    inversion H. cbn [rows]. apply length_map.
Qed.

Lemma Resize_keeps_sync (size : nat) : keeps_sync (Resize_call size).
Proof.
  intros [[im b] l] g [[im' b'] l'] g' H Hs.
  unfold Resize_call, shape, bind in H.
  destruct b as [b|].
  - destruct ((width im =? 0)%nat || (height im =? 0)%nat);
      [discriminate H|].
    match type of H with
    | match match ?run with Ok _ _ => _ | Raise _ => _ | Spin => _ end
      with Ok _ _ => _ | Raise _ => _ | Spin => _ end = _ =>
        destruct run as [b1 g1| |] eqn:E; try discriminate H
    end.
    apply scale_boxes_rows in E. unfold ret in H.
    destruct (cv2_resize _ _ _); [|discriminate H].
    inversion H; subst.
    destruct l' as [l'|]; cbn [synced_triple synced] in *; [|contradiction].
    rewrite E. exact Hs.
  - unfold ret in H. destruct (cv2_resize _ _ _); [|discriminate H].
    inversion H; subst. exact Hs.
Qed.

Lemma ToTensor_keeps_sync : keeps_sync ToTensor_call.
Proof.
  intros [[im b] l] g [[im' b'] l'] g' H Hs.
  destruct b as [b|]; destruct l as [l|]; cbn [synced_triple synced] in Hs;
    try contradiction; inversion H; subst; exact Hs.
Qed.

Lemma RandomSampleCropPoly_keeps_sync :
  keeps_sync (RandomSampleCropPoly_call fuel).
Proof.
  intros x g y g' H Hs. unfold RandomSampleCropPoly_call in H.
  apply while_true_inv in H. destruct H as (g1 & H).
  apply RandomSampleCropPoly_pass_inv in H.
  destruct H as [->|(rect & g2 & H)]; [exact Hs|].
  destruct x as [[im b] l].
  destruct b as [b|]; [|discriminate H].
  apply crop_translate_inv in H. subst y.
  destruct l as [l|]; cbn [synced_triple synced] in *; [|contradiction].
  rewrite shift_boxes_rows. exact Hs.
Qed.

Lemma RandomSampleCrop_keeps_sync : keeps_sync (RandomSampleCrop_call fuel).
Proof.
  intros x g y g' H Hs. unfold RandomSampleCrop_call in H.
  apply while_true_inv in H. destruct H as (g1 & H).
  apply RandomSampleCrop_pass_inv in H.
  destruct H as [->|(rect & mask & g2 & H)]; [exact Hs|].
  destruct x as [[im b] l].
  apply crop_keep_inv in H.
  destruct H as (b0 & l0 & -> & -> & _ & _ & ->).
  cbn [synced_triple synced rows] in *.
  rewrite length_map. apply select_length. exact Hs.
Qed.

Lemma Expand_keeps_sync (mean : list Q) : keeps_sync (Expand_call mean).
Proof.
  intros [[im b] l] g [[im' b'] l'] g' H Hs.
  unfold Expand_call, shape in H.
  run_cases H; inversion H; subst; try exact Hs.
  destruct l' as [l'|]; cbn [synced_triple synced] in *; [|contradiction].
  rewrite shift_boxes_rows. exact Hs.
Qed.

Lemma setitem_columns_rows (dst : list nat) (n : nat)
  (values : list Q -> list Q) (a : array2) (g : rng) (a' : array2)
  (g' : rng) :
  setitem_columns dst n values a g = Ok a' g' ->
  length (rows a') = length (rows a).
Proof.
  unfold setitem_columns. intro H.
  destruct ((n =? length dst)%nat || (n =? 1)%nat); [|discriminate H].
  inversion H. cbn [rows]. apply length_map.
Qed.

Lemma RandomMirror_keeps_sync : keeps_sync RandomMirror_call.
Proof.
  intros [[im b] l] g [[im' b'] l'] g' H Hs.
  unfold RandomMirror_call, bind in H.
  destruct (randint 2 g) as [c g1| |]; try discriminate H.
  destruct (c =? 0)%Z.
  - unfold ret in H. inversion H; subst. exact Hs.
  - destruct b as [b|]; [|discriminate H].
    match type of H with
    | match ?run with Ok _ _ => _ | Raise _ => _ | Spin => _ end = _ =>
        destruct run as [b1 g2| |] eqn:E; try discriminate H
    end.
    apply setitem_columns_rows in E. unfold ret in H. inversion H; subst.
    destruct l' as [l'|]; cbn [synced_triple synced] in *; [|contradiction].
    rewrite E. exact Hs.
Qed.

Lemma Rotate_keeps_sync (mean : list Q) : keeps_sync (Rotate_call mean).
Proof.
  intros [[im b] l] g [[im' b'] l'] g' H Hs.
  unfold Rotate_call, shape in H.
  unfold bind in H.
  destruct (randint 3 g) as [k g1| |]; try discriminate H.
  destruct (k =? 0)%Z.
  - destruct (randint_range (-90) 90 g1) as [angle g2| |];
      try discriminate H.
    destruct b as [b|]; [|discriminate H].
    match type of H with
    | match ?run with Ok _ _ => _ | Raise _ => _ | Spin => _ end = _ =>
        destruct run as [rs g3| |] eqn:E; try discriminate H
    end.
    apply map_M_length in E. unfold ret in H. inversion H; subst.
    destruct l' as [l'|]; cbn [synced_triple synced rows] in *;
      [|contradiction].
    rewrite E. exact Hs.
  - unfold ret in H. inversion H; subst. exact Hs.
Qed.

Lemma unit_keeps_sync (u : unit_t) : keeps_sync (call_unit fuel u).
Proof.
  destruct u;
    try (apply pixel_units_keep_sync; reflexivity); cbn [call_unit].
  - apply Resize_keeps_sync.
  - apply ToTensor_keeps_sync.
  - apply RandomSampleCrop_keeps_sync.
  - apply RandomSampleCropPoly_keeps_sync.
  - apply Expand_keeps_sync.
  - apply RandomMirror_keeps_sync.
  - apply Rotate_keeps_sync.
Qed.

Lemma Compose_keeps_sync (fs : list (triple -> M triple)) :
  Forall keeps_sync fs -> keeps_sync (Compose_call fs).
Proof.
  induction 1 as [|f fs Hf _ IH]; intros x g y g' H Hs;
    cbn [Compose_call] in H.
  - unfold ret in H. inversion H; subst. exact Hs.
  - unfold bind in H. destruct (f x g) as [x1 g1| |] eqn:E;
      try discriminate H.
    exact (IH x1 g1 y g' H (Hf x g x1 g1 E Hs)).
Qed.

Lemma units_keep_sync (us : list unit_t) :
  Forall keeps_sync (map (call_unit fuel) us).
Proof.
  apply Forall_map, Forall_forall. intros u _. apply unit_keeps_sync.
Qed.

Lemma PhotometricDistort_keeps_sync :
  keeps_sync (PhotometricDistort_call fuel).
Proof.
  intros [[im b] l] g [[im' b'] l'] g' H Hs.
  unfold PhotometricDistort_call, bind in H.
  destruct (RandomBrightness_call 16 (im, b, l) g) as [[[im1 b1] l1] g1| |]
    eqn:E1; try discriminate H.
  pose proof (unit_keeps_sync (RandomBrightness 16) _ _ _ _ E1 Hs) as Hs1.
  destruct (randint 2 g1) as [c g2| |]; try discriminate H.
  match type of H with
  | match ?run with Ok _ _ => _ | Raise _ => _ | Spin => _ end = _ =>
      destruct run as [[[im2 b2] l2] g3| |] eqn:E2; try discriminate H
  end.
  unfold ret in H. inversion H; subst.
  destruct (negb (c =? 0)%Z);
    exact (Compose_keeps_sync _ (units_keep_sync _) _ _ _ _ E2 Hs1).
Qed.

Lemma call_keeps_sync (t : transform) : keeps_sync (call fuel t).
Proof.
  revert t. fix IH 1. intros [u| |ts|size mean|size mean]; cbn [call].
  - apply unit_keeps_sync.
  - apply PhotometricDistort_keeps_sync.
  - apply Compose_keeps_sync.
    induction ts as [|t ts IHts]; cbn [map]; constructor;
      [apply IH | exact IHts].
  - apply Compose_keeps_sync.
    repeat (constructor;
            [first [apply unit_keeps_sync
                   | apply PhotometricDistort_keeps_sync]|]).
    constructor.
  - apply Compose_keeps_sync.
    repeat (constructor; [apply unit_keeps_sync|]).
    constructor.
Qed.

End Sync.

(** C1.  Every transform of the module, the composites included, keeps
    geometry and labels together: on every return from a call whose input
    has as many labels as geometry rows (or neither), the output has as many
    labels as geometry rows (or neither).  RandomSampleCropPoly returns the
    labels unchanged and all the rows, as they were or each translated by
    the corner of one rectangle.  RandomSampleCrop returns its input, or the
    rows and the labels selected by one and the same boolean mask, each kept
    (clipped) row still next to its own label. *)
Theorem geometry_labels_synchronised {cv : OpenCV} (fuel : nat) :
  (forall t x g y g',
      call fuel t x g = Ok y g' -> synced_triple x -> synced_triple y)
  /\ (forall im b l g im' b' l' g',
         RandomSampleCropPoly_call fuel (im, Some b, Some l) g
         = Ok (im', b', l') g' ->
         l' = Some l
         /\ exists b1,
             b' = Some b1
             /\ length (rows b1) = length (rows b)
             /\ (b1 = b
                 \/ exists rect,
                     b1 = shift_boxes Qminus (firstn 2 (rect_q rect)) b))
  /\ (forall im b l g im' b' l' g',
         RandomSampleCrop_call fuel (im, Some b, Some l) g
         = Ok (im', b', l') g' ->
         (b' = Some b /\ l' = Some l)
         \/ exists rect mask,
             length mask = length (rows b) /\ length mask = length l
             /\ b' = Some (mkArray2 (ncols b)
                             (map (clip_box (rect_q rect))
                                  (select mask (rows b))))
             /\ l' = Some (select mask l)
             /\ combine (select mask (rows b)) (select mask l)
                = select mask (combine (rows b) l)).
Proof.
  split; [|split].
  - intros t. exact (call_keeps_sync fuel t).
  - intros im b l g im' b' l' g' H.
    unfold RandomSampleCropPoly_call in H.
    apply while_true_inv in H. destruct H as (g1 & H).
    apply RandomSampleCropPoly_pass_inv in H.
    destruct H as [H|(rect & g2 & H)].
    + inversion H; subst. split; [reflexivity|].
      exists b. split; [reflexivity|]. split; [reflexivity|].
      left. reflexivity.
    + apply crop_translate_inv in H. inversion H; subst.
      split; [reflexivity|]. eexists. split; [reflexivity|].
      split; [apply shift_boxes_rows|]. right. exists rect. reflexivity.
  - intros im b l g im' b' l' g' H.
    unfold RandomSampleCrop_call in H.
    apply while_true_inv in H. destruct H as (g1 & H).
    apply RandomSampleCrop_pass_inv in H.
    destruct H as [H|(rect & mask & g2 & H)].
    + inversion H; subst. left. split; reflexivity.
    + apply crop_keep_inv in H.
      destruct H as (b0 & l0 & Hb & Hl & Hm1 & Hm2 & Hy).
      inversion Hb; inversion Hl; subst b0 l0. inversion Hy; subst.
      right. exists rect, mask.
      repeat split; try assumption. symmetry. apply select_combine.
Qed.

Lemma geometry_labels_synchronised_witness :
  let x := (blank 50 50 1 7,
            Some (mkArray2 4 [[5; 5; 45; 45]; [6; 5; 45; 45]]),
            Some [1; 2]%Z) in
  let g := tape [1 # 2; 5 # 7; 5 # 7; 5 # 9; 5 # 9] in
  exists im' g',
    @call cv_plain 1 (Unit RandomSampleCrop) x g
    = Ok (im',
          Some (mkArray2 4 [[0; 0; 40; 40]; [1; 0; 40; 40]]),
          Some [1; 2]%Z) g'
    /\ synced_triple (im',
                      Some (mkArray2 4 [[0; 0; 40; 40]; [1; 0; 40; 40]]),
                      Some [1; 2]%Z).
Proof.
  intros x g.
  destruct (@call cv_plain 1 (Unit RandomSampleCrop) x g)
    as [[[im' b'] l'] g'| |] eqn:Hrun.
  - assert (Hb : b' = Some (mkArray2 4 [[0; 0; 40; 40]; [1; 0; 40; 40]])
                 /\ l' = Some [1; 2]%Z).
    { vm_compute in Hrun. inversion Hrun. split; reflexivity. }
    destruct Hb as [-> ->].
    exists im', g'. split; [reflexivity|].
    exact (proj1 (@geometry_labels_synchronised cv_plain 1)
             (Unit RandomSampleCrop) x g _ g' Hrun eq_refl).
  - vm_compute in Hrun. discriminate Hrun.
  - vm_compute in Hrun. discriminate Hrun.
Defined.

(** A trial of the polygon cropper that returns a triple has sampled a
    rectangle and returns the translation by its corner. *)
Lemma RandomSampleCropPoly_trial_inv (mn mx : float) (br : array2)
  (im : image) (b : option array2) (l : option labels_t) (g : rng)
  (y : triple) (g' : rng) :
  RandomSampleCropPoly_trial mn mx br (im, b, l) g = Ok (Some y) g' ->
  exists rect,
    sample_rect (1 # 10) im g = Ok (Some rect) g'
    /\ crop_translate rect (im, b, l) g' = Ok y g'.
Proof.
  intro H. unfold RandomSampleCropPoly_trial, bind in H.
  destruct (sample_rect (1 # 10) im g) as [[rect|] g1| |];
    try discriminate H.
  assert (Hj : forall g0 r, modified_jaccard_numpy br (rect_q rect) g0 = r ->
                            match r with Ok _ g2 => g2 = g0 | _ => True end).
  { intros g0 r <-. unfold modified_jaccard_numpy, intersect, area, bind,
      broadcast_vec, broadcast_arr, column, ret, raise.
    repeat match goal with
           | |- context [if ?c then _ else _] => destruct c
           end; try exact I; reflexivity. }
  destruct (modified_jaccard_numpy br (rect_q rect) g1) as [ov g2| |] eqn:E;
    try discriminate H.
  apply Hj in E. subst g2.
  match type of H with
  | (if ?c then _ else _) _ = _ => destruct c; try discriminate H
  end.
  destruct b as [b|]; [|discriminate H].
  inversion H; subst. exists rect. split; reflexivity.
Qed.

(** C2 (amended).  A successful trial of RandomSampleCropPoly keeps every
    object and translates it by the corner of the sampled rectangle, with
    no filtering and no clipping; with the rectangle [5, 5, 45, 45] the
    polygon [10,10,50,10,50,50,10,50] becomes [5,5,45,5,45,45,5,45], the
    corner (5, 5) subtracted from each of its four points, wherever it
    stands in the list; and a call on [crop_example_input] does return
    through that rectangle. *)
Theorem RandomSampleCropPoly_example (im : image)
  (before after : list (list Q)) (labels : option labels_t) (g : rng) :
  crop_translate [5; 5; 45; 45]%Z
    (im, Some (mkArray2 8 (before ++ poly_example :: after)), labels) g
  = Ok (crop_image [5; 5; 45; 45]%Z im,
        Some (mkArray2 8
                (map (shift_row Qminus [5; 5] 4) before
                 ++ [5; 5; 45; 5; 45; 45; 5; 45]
                 :: map (shift_row Qminus [5; 5] 4) after)),
        labels) g
  /\ (forall mn mx br b y g',
         RandomSampleCropPoly_trial mn mx br (im, b, labels) g
         = Ok (Some y) g' ->
         exists rect,
           sample_rect (1 # 10) im g = Ok (Some rect) g'
           /\ crop_translate rect (im, b, labels) g' = Ok y g')
  /\ sample_rect (1 # 10) (image_of crop_example_input)
                 (rng_tail crop_example_draws)
     = Ok (Some [5; 5; 45; 45]%Z)
          (rng_tail (rng_tail (rng_tail (rng_tail
             (rng_tail crop_example_draws)))))
  /\ RandomSampleCropPoly_call 1 crop_example_input crop_example_draws
     = Ok (crop_image [5; 5; 45; 45]%Z (image_of crop_example_input),
           Some (mkArray2 8 [[5; 5; 45; 5; 45; 45; 5; 45];
                             [15; 15; 25; 15; 25; 25; 15; 25];
                             [15; 15; 25; 15; 25; 25; 15; 25]]),
           Some [1; 2; 3]%Z)
          (rng_tail (rng_tail (rng_tail (rng_tail
             (rng_tail crop_example_draws))))).
Proof.
  split; [|split; [|split]].
  - unfold crop_translate, ret, shift_boxes. cbn [ncols rows].
    rewrite map_app. reflexivity.
  - intros mn mx br b y g'. apply RandomSampleCropPoly_trial_inv.
  - vm_compute. reflexivity.
  - vm_compute. reflexivity.
Qed.

Lemma RandomSampleCropPoly_example_witness :
  exists rect y g',
    RandomSampleCropPoly_trial (Fin 1) PInf
      (mkArray2 4 [[10; 10; 50; 50]; [20; 20; 30; 30]; [20; 20; 30; 30]])
      crop_example_input (rng_tail crop_example_draws)
    = Ok (Some y) g'
    /\ sample_rect (1 # 10) (image_of crop_example_input)
                   (rng_tail crop_example_draws)
       = Ok (Some rect) g'
    /\ crop_translate rect crop_example_input g' = Ok y g'.
Proof.
  destruct (RandomSampleCropPoly_trial (Fin 1) PInf
              (mkArray2 4 [[10; 10; 50; 50]; [20; 20; 30; 30];
                           [20; 20; 30; 30]])
              crop_example_input (rng_tail crop_example_draws))
    as [[y|] g'| |] eqn:Hrun;
    try (vm_compute in Hrun; discriminate Hrun).
  destruct (proj1 (proj2 (RandomSampleCropPoly_example
                            (image_of crop_example_input) [] []
                            (Some [1; 2; 3]%Z)
                            (rng_tail crop_example_draws)))
              _ _ _ _ y g' Hrun) as (rect & Hrect & Hy).
  exists rect, y, g'. split; [reflexivity|]. split; assumption.
Defined.

(** C2 as stated fails: the call of the example returns the polygon as
    [5,5,45,5,45,45,5,45], whose third and fourth points have y = 45, and
    not the [5,5,45,5,45,40,5,40] of the specification. *)
Lemma RandomSampleCropPoly_example_counterexample :
  exists im' b' l' g',
    RandomSampleCropPoly_call 1 crop_example_input crop_example_draws
    = Ok (im', Some b', l') g'
    /\ nth 0 (rows b') [] = [5; 5; 45; 5; 45; 45; 5; 45]
    /\ nth 0 (rows b') [] <> [5; 5; 45; 5; 45; 40; 5; 40]
    /\ ~ Forall2 Qeq (nth 0 (rows b') []) [5; 5; 45; 5; 45; 40; 5; 40].
Proof.
  eexists _, _, _, _. split; [vm_compute; reflexivity|].
  cbn [rows nth]. split; [reflexivity|]. split.
  - discriminate.
  - intro H. do 5 (apply Forall2_cons_iff in H; destruct H as [_ H]).
    apply Forall2_cons_iff in H. destruct H as [H _]. discriminate H.
Qed.

(** * Further properties of the module *)

(** ** Compose *)

Lemma Compose_call_app (fs1 fs2 : list (triple -> M triple)) (x : triple)
  (g : rng) :
  Compose_call (fs1 ++ fs2) x g
  = (y <- Compose_call fs1 x ;; Compose_call fs2 y) g.
Proof.
  revert x g. induction fs1 as [|f fs1 IH]; intros x g; cbn [app Compose_call].
  - reflexivity.
  - unfold bind at 1 2 3. destruct (f x g) as [y g1| |]; try reflexivity.
    rewrite IH. reflexivity.
Qed.

(** X1.  Compose runs a concatenated list as the first list followed by the
    second, so nesting two Compose objects inside a Compose is the same as
    composing the concatenation; an exception raised by the first part is
    the outcome of the whole and nothing of the second part runs. *)
Theorem Compose_concatenation {cv : OpenCV} (fuel : nat)
  (ts1 ts2 : list transform) (x : triple) (g : rng) :
  call fuel (Compose (ts1 ++ ts2)) x g
  = (y <- call fuel (Compose ts1) x ;; call fuel (Compose ts2) y) g
  /\ call fuel (Compose [Compose ts1; Compose ts2]) x g
     = call fuel (Compose (ts1 ++ ts2)) x g
  /\ (forall e,
         call fuel (Compose ts1) x g = Raise e ->
         call fuel (Compose (ts1 ++ ts2)) x g = Raise e).
Proof.
  assert (H : call fuel (Compose (ts1 ++ ts2)) x g
              = (y <- call fuel (Compose ts1) x ;;
                 call fuel (Compose ts2) y) g).
  { cbn [call]. rewrite map_app. apply Compose_call_app. }
  split; [exact H|]. split.
  - rewrite H. cbn [call map Compose_call]. unfold bind.
    destruct (Compose_call (map (call fuel) ts1) x g) as [y g1| |];
      try reflexivity.
    destruct (Compose_call (map (call fuel) ts2) y g1) as [z g2| |];
      reflexivity.
  - intros e He. rewrite H. unfold bind. rewrite He. reflexivity.
Qed.

Lemma Compose_concatenation_witness :
  @call cv_plain 1 (Compose ([Unit RandomMirror] ++ [Unit ToTensor]))
        (blank 2 3 3 7, Some (mkArray2 8 [poly_example]), Some [1%Z])
        (tape [1 # 2])
  = Raise ValueError.
Proof.
  apply (proj2 (proj2 (@Compose_concatenation cv_plain 1 [Unit RandomMirror]
                         [Unit ToTensor]
                         (blank 2 3 3 7, Some (mkArray2 8 [poly_example]),
                          Some [1%Z]) (tape [1 # 2])))).
  reflexivity.
Defined.

(** ** Photometric transforms leave the annotations alone *)

Lemma pixel_chain_keeps_annotations {cv : OpenCV} (fuel : nat)
  (us : list unit_t) :
  forallb pixel_only us = true ->
  forall im b l g im' b' l' g',
    Compose_call (map (call_unit fuel) us) (im, b, l) g
    = Ok (im', b', l') g' ->
    b' = b /\ l' = l.
Proof.
  induction us as [|u us IH]; intros Hus im b l g im' b' l' g' H.
  - inversion H. split; reflexivity.
  - cbn [forallb] in Hus. apply andb_prop in Hus. destruct Hus as [Hu Hus].
    cbn [map Compose_call] in H. unfold bind in H.
    destruct (call_unit fuel u (im, b, l) g) as [[[im1 b1] l1] g1| |] eqn:E;
      try discriminate H.
    destruct (pixel_units_keep_annotations fuel u im b l g im1 b1 l1 g1 Hu E)
      as [-> ->].
    exact (IH Hus im1 b l g1 im' b' l' g' H).
Qed.

(** X3.  PhotometricDistort, and each of the nine pixel-level units on its
    own, returns the geometry and the labels it was given, whatever they
    are; only the image changes. *)
Theorem photometric_keeps_annotations {cv : OpenCV} (fuel : nat)
  (im : image) (b : option array2) (l : option labels_t) (g : rng)
  (im' : image) (b' : option array2) (l' : option labels_t) (g' : rng) :
  (PhotometricDistort_call fuel (im, b, l) g = Ok (im', b', l') g' ->
   b' = b /\ l' = l)
  /\ (forall u,
         pixel_only u = true ->
         call_unit fuel u (im, b, l) g = Ok (im', b', l') g' ->
         b' = b /\ l' = l).
Proof.
  split.
  - intro H. unfold PhotometricDistort_call, bind in H.
    destruct (RandomBrightness_call 16 (im, b, l) g)
      as [[[im1 b1] l1] g1| |] eqn:E1; try discriminate H.
    destruct (pixel_units_keep_annotations fuel (RandomBrightness 16)
                im b l g im1 b1 l1 g1 eq_refl E1) as [-> ->].
    destruct (randint 2 g1) as [c g2| |]; try discriminate H.
    match type of H with
    | match ?run with Ok _ _ => _ | Raise _ => _ | Spin => _ end = _ =>
        destruct run as [[[im2 b2] l2] g3| |] eqn:E2; try discriminate H
    end.
    unfold ret in H. inversion H; subst.
    destruct (negb (c =? 0)%Z).
    + exact (pixel_chain_keeps_annotations fuel
               (py_slice None (Some (-1)%Z) pd) eq_refl
               im1 b l g2 im2 b' l' g' E2).
    + exact (pixel_chain_keeps_annotations fuel
               (py_slice (Some 1%Z) None pd) eq_refl
               im1 b l g2 im2 b' l' g' E2).
  - intros u Hu H.
    exact (pixel_units_keep_annotations fuel u im b l g im' b' l' g' Hu H).
Qed.

Lemma photometric_keeps_annotations_witness :
  exists im' g',
    @PhotometricDistort_call cv_plain 1
      ([[[350; 300; 20]]], Some (mkArray2 8 [poly_example]), Some [4%Z])
      (tape [3 # 4; 1 # 2; 1 # 4; 3 # 4; 1 # 2; 3 # 4; 1 # 3])
    = Ok (im', Some (mkArray2 8 [poly_example]), Some [4%Z]) g'.
Proof.
  destruct (@PhotometricDistort_call cv_plain 1
              ([[[350; 300; 20]]], Some (mkArray2 8 [poly_example]),
               Some [4%Z])
              (tape [3 # 4; 1 # 2; 1 # 4; 3 # 4; 1 # 2; 3 # 4; 1 # 3]))
    as [[[im' b'] l'] g'| |] eqn:Hrun;
    try (vm_compute in Hrun; discriminate Hrun).
  destruct (proj1 (@photometric_keeps_annotations cv_plain 1 _ _ _ _
                     im' b' l' g') Hrun) as [-> ->].
  exists im', g'. reflexivity.
Defined.

(** ** The inference preset *)

Lemma Normalize_keeps_generator (mean var : list Q) (x y : triple)
  (g g' : rng) :
  Normalize_call mean var x g = Ok y g' -> g' = g.
Proof.
  destruct x as [[im b] l].
  unfold Normalize_call, bind, broadcast_channels, ret, raise.
  intro H.
  repeat (cbv beta iota in H;
          match type of H with
          | context [if ?c then _ else _] => destruct c
          end);
    cbv beta iota in H; try discriminate H; inversion H; reflexivity.
Qed.

Lemma Resize_keeps_generator {cv : OpenCV} (size : nat) (x y : triple)
  (g g' : rng) :
  Resize_call size x g = Ok y g' -> g' = g.
Proof.
  destruct x as [[im b] l].
  unfold Resize_call, shape, bind, scale_boxes, ret, raise.
  intro H. destruct b as [b|].
  - repeat (cbv beta iota in H;
            match type of H with
            | context [if ?c then _ else _] => destruct c
            end);
      cbv beta iota in H; try discriminate H;
      destruct (cv2_resize _ _ _);
      try discriminate H; inversion H; reflexivity.
  - destruct (cv2_resize _ _ _);
      try discriminate H; inversion H; reflexivity.
Qed.

Lemma ToTensor_keeps_generator (x y : triple) (g g' : rng) :
  ToTensor_call x g = Ok y g' -> g' = g.
Proof.
  destruct x as [[im [b|]] [l|]]; intro H; try discriminate H;
    inversion H; reflexivity.
Qed.

(** X4.  The inference preset uses no random draw: whenever it returns, the
    generator is as it was.  With the geometry absent it returns [None] for
    geometry and labels; with boxes of four coordinates on a non-empty image
    it raises ValueError in Resize, so the preset accepts geometry only as
    polygons of eight coordinates (or a single column). *)
Theorem inference_preset_behaviour {cv : OpenCV} (fuel size : nat)
  (mean : list Q) (im : image) (b : option array2) (l : option labels_t)
  (g : rng) :
  (forall y g',
      call fuel (Augmentation_inference size mean) (im, b, l) g = Ok y g' ->
      g' = g /\ (b = None -> snd (fst y) = None /\ snd y = None))
  /\ (forall b4,
         b = Some b4 -> ncols b4 = 4%nat ->
         (0 < height im)%nat -> (0 < width im)%nat ->
         call fuel (Augmentation_inference size mean) (im, b, l) g
         = Raise ValueError).
Proof.
  split.
  - intros y g' H. cbn [call Compose_call call_unit] in H. unfold bind in H.
    cbn [ConvertFromInts_call] in H. unfold ret at 1 in H.
    destruct (Resize_call size (im, b, l) g) as [[[im1 b1] l1] g1| |] eqn:E1;
      try discriminate H.
    pose proof (Resize_keeps_generator size _ _ _ _ E1) as ->.
    destruct (call_unit fuel Normalize_default (im1, b1, l1) g)
      as [[[im2 b2] l2] g2| |] eqn:E2; try discriminate H.
    pose proof (Normalize_keeps_generator _ _ _ _ _ _ E2) as ->.
    destruct (ToTensor_call (im2, b2, l2) g) as [y3 g3| |] eqn:E3;
      try discriminate H.
    pose proof (ToTensor_keeps_generator _ _ _ _ E3) as ->.
    unfold ret in H. inversion H; subst. split; [reflexivity|].
    intros ->.
    assert (Hb1 : b1 = None).
    { unfold Resize_call, shape, bind, ret in E1.
      destruct (cv2_resize _ _ _); [|discriminate E1].
      inversion E1. reflexivity. }
    subst b1.
    assert (Hb2 : b2 = None).
    { destruct (pixel_units_keep_annotations fuel Normalize_default
                  _ _ _ _ _ _ _ _ eq_refl E2) as [Hb _].
      exact Hb. }
    subst b2. inversion E3. split; reflexivity.
  - intros b4 -> Hn Hh Hw.
    cbn [call Compose_call call_unit]. unfold bind.
    cbn [ConvertFromInts_call]. unfold ret at 1.
    unfold Resize_call, shape, bind.
    rewrite (shape_nonempty im Hh Hw). unfold scale_boxes. rewrite Hn.
    reflexivity.
Qed.

Lemma inference_preset_behaviour_witness :
  (exists y,
      @call cv_plain 1 (Augmentation_inference 4 [104; 117; 123])
            (blank 2 3 3 7, None, None) (tape [1 # 3])
      = Ok (y, None, None) (tape [1 # 3]))
  /\ @call cv_plain 1 (Augmentation_inference 4 [104; 117; 123])
           (blank 2 3 3 7, Some (mkArray2 4 [[0; 0; 1; 1]]), Some [1%Z])
           (tape [1 # 3])
     = Raise ValueError.
Proof.
  split.
  - destruct (@call cv_plain 1 (Augmentation_inference 4 [104; 117; 123])
                (blank 2 3 3 7, None, None) (tape [1 # 3]))
      as [[[y b'] l'] g'| |] eqn:Hrun;
      try (vm_compute in Hrun; discriminate Hrun).
    destruct (proj1 (@inference_preset_behaviour cv_plain 1 4
                       [104; 117; 123] (blank 2 3 3 7) None None
                       (tape [1 # 3])) _ _ Hrun) as [-> Hnone].
    destruct (Hnone eq_refl) as [Hb Hl]. cbn [fst snd] in Hb, Hl. subst.
    exists y. reflexivity.
  - apply (proj2 (@inference_preset_behaviour cv_plain 1 4 [104; 117; 123]
                    (blank 2 3 3 7) (Some (mkArray2 4 [[0; 0; 1; 1]]))
                    (Some [1%Z]) (tape [1 # 3]))
             (mkArray2 4 [[0; 0; 1; 1]]) eq_refl eq_refl);
      vm_compute; lia.
Defined.

(** ** The overlap functions *)

(** X5.  [jaccard_numpy] and [modified_jaccard_numpy] take boxes of exactly
    four columns: on any other width they raise, IndexError on three columns
    (at [box_a[:, 3]]) and ValueError otherwise (the slices do not broadcast
    against the rectangle), whether the array has rows or not. *)
Theorem overlap_needs_four_columns (b : array2) (r0 r1 r2 r3 : Q) (g : rng) :
  ncols b <> 4%nat ->
  let e := if (ncols b =? 3)%nat then IndexError else ValueError in
  jaccard_numpy b [r0; r1; r2; r3] g = Raise e
  /\ modified_jaccard_numpy b [r0; r1; r2; r3] g = Raise e.
Proof.
  destruct b as [n rs]. cbn [ncols]. intro Hn.
  destruct n as [|[|[|[|[|n]]]]]; try (split; reflexivity);
    [contradiction Hn; reflexivity|].
  cbv zeta. cbn [Nat.eqb].
  assert (Hcols : columns (Some 2%Z) None (mkArray2 (S (S (S (S (S n))))) rs)
                  = mkArray2 (S (S (S n)))
                             (map (py_slice (Some 2%Z) None) rs)).
  { unfold columns, slice_bounds. cbn [ncols rows].
    change 2%Z with (Z.of_nat 2). rewrite norm_index_nat by lia.
    reflexivity. }
  split.
  - unfold jaccard_numpy, intersect, bind. rewrite Hcols. reflexivity.
  - unfold modified_jaccard_numpy, intersect, bind. rewrite Hcols.
    reflexivity.
Qed.

Lemma overlap_needs_four_columns_witness :
  jaccard_numpy (mkArray2 8 [poly_example]) [5; 5; 45; 45] (tape [])
  = Raise ValueError
  /\ modified_jaccard_numpy (mkArray2 3 []) [5; 5; 45; 45] (tape [])
     = Raise IndexError.
Proof.
  split.
  - apply (overlap_needs_four_columns (mkArray2 8 [poly_example])
             5 5 45 45 (tape [])).
    discriminate.
  - apply (overlap_needs_four_columns (mkArray2 3 []) 5 5 45 45 (tape [])).
    discriminate.
Defined.

Ltac overlap_unfold :=
  cbn [columns slice_bounds ncols rows map] in *;
  change (norm_index 4 2) with 2%nat in *;
  repeat match goal with
    | |- context [py_slice (Some 2%Z) None [?a; ?b; ?c; ?d]] =>
        change (py_slice (Some 2%Z) None [a; b; c; d]) with [c; d]
    | |- context [py_slice None (Some 2%Z) [?a; ?b; ?c; ?d]] =>
        change (py_slice None (Some 2%Z) [a; b; c; d]) with [a; b]
    | H : context [py_slice (Some 2%Z) None [?a; ?b; ?c; ?d]] |- _ =>
        change (py_slice (Some 2%Z) None [a; b; c; d]) with [c; d] in H
    | H : context [py_slice None (Some 2%Z) [?a; ?b; ?c; ?d]] |- _ =>
        change (py_slice None (Some 2%Z) [a; b; c; d]) with [a; b] in H
    end;
  cbn [columns slice_bounds ncols rows broadcast_vec broadcast_arr column
       map zip_with ret bind Nat.eqb Nat.ltb Nat.leb Nat.sub length nth hd]
    in *.

(** On four columns the overlap functions work row by row. *)
Lemma modified_jaccard_rows (rs : list (list Q)) (r0 r1 r2 r3 : Q) (g : rng) :
  Forall (fun r => length r = 4%nat) rs ->
  modified_jaccard_numpy (mkArray2 4 rs) [r0; r1; r2; r3] g
  = Ok (map (fun row => fl_div (box_intersection [r0; r1; r2; r3] row)
                               (box_area row)) rs) g.
Proof.
  induction 1 as [|r rs Hr _ IH]; [reflexivity|].
  destruct r as [|x1 [|y1 [|x2 [|y2 [|? ?]]]]]; try discriminate Hr.
  unfold modified_jaccard_numpy, intersect, area, bind in *.
  overlap_unfold. unfold ret in *. injection IH as IH. rewrite IH.
  reflexivity.
Qed.

Lemma jaccard_rows (rs : list (list Q)) (r0 r1 r2 r3 : Q) (g : rng) :
  Forall (fun r => length r = 4%nat) rs ->
  jaccard_numpy (mkArray2 4 rs) [r0; r1; r2; r3] g
  = Ok (map (fun row =>
               fl_div (box_intersection [r0; r1; r2; r3] row)
                      (box_area row + box_area [r0; r1; r2; r3]
                       - box_intersection [r0; r1; r2; r3] row)) rs) g.
Proof.
  induction 1 as [|r rs Hr _ IH]; [reflexivity|].
  destruct r as [|x1 [|y1 [|x2 [|y2 [|? ?]]]]]; try discriminate Hr.
  unfold jaccard_numpy, intersect, area, bind in *.
  overlap_unfold. unfold ret in *. injection IH as IH. rewrite IH.
  reflexivity.
Qed.

Lemma np_minimum_cases (a b : Q) :
  (b < a /\ np_minimum a b = b) \/ (a <= b /\ np_minimum a b = a).
Proof.
  unfold np_minimum. destruct (Qltb b a) eqn:E.
  - left. split; [apply Qltb_true; exact E | reflexivity].
  - right. split; [apply Qltb_false; exact E | reflexivity].
Qed.

Lemma np_maximum_cases (a b : Q) :
  (a < b /\ np_maximum a b = b) \/ (b <= a /\ np_maximum a b = a).
Proof.
  unfold np_maximum. destruct (Qltb a b) eqn:E.
  - left. split; [apply Qltb_true; exact E | reflexivity].
  - right. split; [apply Qltb_false; exact E | reflexivity].
Qed.

Lemma interval_overlap (a b lo hi : Q) :
  a <= b ->
  0 <= np_maximum 0 (np_minimum b hi - np_maximum a lo) <= b - a
  /\ (lo <= a -> b <= hi ->
      np_maximum 0 (np_minimum b hi - np_maximum a lo) == b - a)
  /\ (a == b -> np_maximum 0 (np_minimum b hi - np_maximum a lo) == 0).
Proof.
  intro Hab.
  destruct (np_minimum_cases b hi) as [[H1 ->]|[H1 ->]];
    destruct (np_maximum_cases a lo) as [[H2 ->]|[H2 ->]];
    match goal with
    | |- context [np_maximum 0 ?d] =>
        destruct (np_maximum_cases 0 d) as [[H3 ->]|[H3 ->]]
    end;
    (split; [split; lra | split; intros; lra]).
Qed.

Lemma Qeq_bool_false (a : Q) : ~ a == 0 -> Qeq_bool a 0 = false.
Proof.
  intro H. destruct (Qeq_bool a 0) eqn:E; [|reflexivity].
  apply Qeq_bool_iff in E. contradiction.
Qed.

Lemma Forall2_map_r {A B} (P : A -> B -> Prop) (f : A -> B) (l : list A) :
  (forall a, In a l -> P a (f a)) -> Forall2 P l (map f l).
Proof.
  induction l as [|a l IH]; intro H; cbn [map]; constructor.
  - apply H. left. reflexivity.
  - apply IH. intros a' Ha'. apply H. right. exact Ha'.
Qed.

(** X6.  For boxes of four coordinates [modified_jaccard_numpy] returns one
    ratio per box.  A box with x1 < x2 and y1 < y2 gets a finite ratio in
    [0,1], equal to 1 when the box lies inside the rectangle; a box without
    width (x1 = x2) gets 0/0 = nan, which no comparison [> 0.9] counts. *)
Theorem containment_ratio_bounds (rs : list (list Q)) (r0 r1 r2 r3 : Q)
  (g : rng) :
  Forall (fun r => length r = 4%nat) rs ->
  exists ov,
    modified_jaccard_numpy (mkArray2 4 rs) [r0; r1; r2; r3] g = Ok ov g
    /\ Forall2
         (fun row o =>
            (proper_box row ->
             exists q,
               o = Fin q /\ 0 <= q <= 1
               /\ (r0 <= nth 0 row 0 -> r1 <= nth 1 row 0 ->
                   nth 2 row 0 <= r2 -> nth 3 row 0 <= r3 -> q == 1))
            /\ (nth 0 row 0 == nth 2 row 0 ->
                o = NaN /\ fl_ltb (Fin (9 # 10)) o = false))
         rs ov.
Proof.
  intro Hwf. eexists. split; [apply modified_jaccard_rows; exact Hwf|].
  apply Forall2_map_r. intros row _. split.
  - intros (Hlen & Hx & Hy).
    unfold box_intersection, box_area. cbn [nth].
    set (x1 := nth 0 row 0) in *. set (y1 := nth 1 row 0) in *.
    set (x2 := nth 2 row 0) in *. set (y2 := nth 3 row 0) in *.
    destruct (interval_overlap x1 x2 r0 r2 (Qlt_le_weak _ _ Hx))
      as ([Hx0 Hx1] & Hxin & _).
    destruct (interval_overlap y1 y2 r1 r3 (Qlt_le_weak _ _ Hy))
      as ([Hy0 Hy1] & Hyin & _).
    set (ix := np_maximum 0 (np_minimum x2 r2 - np_maximum x1 r0)) in *.
    set (iy := np_maximum 0 (np_minimum y2 r3 - np_maximum y1 r1)) in *.
    assert (Harea : 0 < (x2 - x1) * (y2 - y1)) by nra.
    unfold fl_div. rewrite Qeq_bool_false by lra.
    eexists. split; [reflexivity|]. split; [split|].
    + apply Qle_shift_div_l; [exact Harea|]. nra.
    + apply Qle_shift_div_r; [exact Harea|]. nra.
    + intros H0 H1 H2 H3. rewrite (Hxin H0 H2), (Hyin H1 H3).
      field. lra.
  - intro Hdeg. unfold box_intersection, box_area. cbn [nth].
    set (x1 := nth 0 row 0) in *. set (y1 := nth 1 row 0) in *.
    set (x2 := nth 2 row 0) in *. set (y2 := nth 3 row 0) in *.
    assert (Hix : np_maximum 0 (np_minimum x2 r2 - np_maximum x1 r0) == 0).
    { apply (interval_overlap x1 x2 r0 r2); [rewrite Hdeg; lra | exact Hdeg]. }
    unfold fl_div.
    assert (E1 : Qeq_bool ((x2 - x1) * (y2 - y1)) 0 = true).
    { apply Qeq_bool_iff. rewrite Hdeg. ring. }
    assert (E2 : Qeq_bool
                   (np_maximum 0 (np_minimum x2 r2 - np_maximum x1 r0)
                    * np_maximum 0 (np_minimum y2 r3 - np_maximum y1 r1)) 0
                 = true).
    { apply Qeq_bool_iff. rewrite Hix. ring. }
    rewrite E1, E2. split; reflexivity.
Qed.

Lemma containment_ratio_bounds_witness :
  exists ov,
    modified_jaccard_numpy
      (mkArray2 4 [[10; 10; 50; 50]; [20; 20; 30; 30]; [7; 7; 7; 9]])
      [5; 5; 45; 45] (tape [])
    = Ok ov (tape [])
    /\ (exists q, nth 0 ov NaN = Fin q /\ 0 <= q <= 1)
    /\ (exists q, nth 1 ov NaN = Fin q /\ q == 1)
    /\ nth 2 ov (Fin 0) = NaN.
Proof.
  destruct (containment_ratio_bounds
              [[10; 10; 50; 50]; [20; 20; 30; 30]; [7; 7; 7; 9]]
              5 5 45 45 (tape [])) as (ov & Hrun & Hall).
  { repeat constructor. }
  exists ov. split; [exact Hrun|].
  inversion Hall as [|? o0 ? ov1 [H0 _] Hall1]; subst.
  inversion Hall1 as [|? o1 ? ov2 [H1 _] Hall2]; subst.
  inversion Hall2 as [|? o2 ? ov3 [_ H2] _]; subst.
  cbn [nth]. split; [|split].
  - destruct H0 as (q & Hq & Hr & _).
    { split; [reflexivity|]. split; reflexivity. }
    exists q. split; assumption.
  - destruct H1 as (q & Hq & _ & Hin).
    { split; [reflexivity|]. split; reflexivity. }
    exists q. split; [exact Hq|].
    apply Hin; cbn [nth]; discriminate.
  - apply H2. reflexivity.
Defined.

Lemma interval_overlap_rect (a b lo hi : Q) :
  lo <= hi ->
  np_maximum 0 (np_minimum b hi - np_maximum a lo) <= hi - lo.
Proof.
  intro Hr.
  destruct (np_minimum_cases b hi) as [[H1 ->]|[H1 ->]];
    destruct (np_maximum_cases a lo) as [[H2 ->]|[H2 ->]];
    match goal with
    | |- context [np_maximum 0 ?d] =>
        destruct (np_maximum_cases 0 d) as [[H3 ->]|[H3 ->]]
    end; lra.
Qed.

(** X7.  For boxes of four coordinates with x1 < x2 and y1 < y2 and a
    rectangle with the same property, [jaccard_numpy] returns one finite
    overlap per box, in [0,1], and exactly 1 for a box equal to the
    rectangle. *)
Theorem jaccard_bounds (rs : list (list Q)) (r0 r1 r2 r3 : Q) (g : rng) :
  Forall proper_box rs -> r0 < r2 -> r1 < r3 ->
  exists ov,
    jaccard_numpy (mkArray2 4 rs) [r0; r1; r2; r3] g = Ok ov g
    /\ Forall2
         (fun row o =>
            exists q,
              o = Fin q /\ 0 <= q <= 1
              /\ (nth 0 row 0 == r0 -> nth 1 row 0 == r1 ->
                  nth 2 row 0 == r2 -> nth 3 row 0 == r3 -> q == 1))
         rs ov.
Proof.
  intros Hrs Hrx Hry.
  assert (Hwf : Forall (fun r => length r = 4%nat) rs).
  { eapply Forall_impl; [|exact Hrs]. intros r Hr. exact (proj1 Hr). }
  eexists. split; [apply jaccard_rows; exact Hwf|].
  apply Forall2_map_r. intros row Hin.
  rewrite Forall_forall in Hrs. destruct (Hrs row Hin) as (_ & Hx & Hy).
  unfold box_intersection, box_area. cbn [nth].
  set (x1 := nth 0 row 0) in *. set (y1 := nth 1 row 0) in *.
  set (x2 := nth 2 row 0) in *. set (y2 := nth 3 row 0) in *.
  destruct (interval_overlap x1 x2 r0 r2 (Qlt_le_weak _ _ Hx))
    as ([Hx0 Hx1] & Hxin & _).
  destruct (interval_overlap y1 y2 r1 r3 (Qlt_le_weak _ _ Hy))
    as ([Hy0 Hy1] & Hyin & _).
  pose proof (interval_overlap_rect x1 x2 r0 r2 (Qlt_le_weak _ _ Hrx)) as Hx2.
  pose proof (interval_overlap_rect y1 y2 r1 r3 (Qlt_le_weak _ _ Hry)) as Hy2.
  set (ix := np_maximum 0 (np_minimum x2 r2 - np_maximum x1 r0)) in *.
  set (iy := np_maximum 0 (np_minimum y2 r3 - np_maximum y1 r1)) in *.
  assert (Ha : ix * iy <= (x2 - x1) * (y2 - y1)) by nra.
  assert (Hb : ix * iy <= (r2 - r0) * (r3 - r1)) by nra.
  assert (Hpos : 0 < (r2 - r0) * (r3 - r1)) by nra.
  assert (Hi : 0 <= ix * iy) by nra.
  assert (Hunion : 0 < (x2 - x1) * (y2 - y1) + (r2 - r0) * (r3 - r1) - ix * iy)
    by lra.
  unfold fl_div. rewrite Qeq_bool_false by lra.
  eexists. split; [reflexivity|]. split; [split|].
  - apply Qle_shift_div_l; [exact Hunion|]. lra.
  - apply Qle_shift_div_r; [exact Hunion|]. lra.
  - intros E0 E1 E2 E3.
    assert (Ex : ix == x2 - x1) by (apply Hxin; lra).
    assert (Ey : iy == y2 - y1) by (apply Hyin; lra).
    rewrite Ex, Ey, <- E0, <- E1, <- E2, <- E3. field.
    rewrite E0, E1, E2, E3. lra.
Qed.

Lemma jaccard_bounds_witness :
  exists ov,
    jaccard_numpy (mkArray2 4 [[5; 5; 45; 45]; [6; 5; 45; 45]])
                  [5; 5; 45; 45] (tape [])
    = Ok ov (tape [])
    /\ (exists q, nth 0 ov NaN = Fin q /\ q == 1)
    /\ (exists q, nth 1 ov NaN = Fin q /\ 0 <= q <= 1).
Proof.
  destruct (jaccard_bounds [[5; 5; 45; 45]; [6; 5; 45; 45]] 5 5 45 45
              (tape [])) as (ov & Hrun & Hall).
  { repeat constructor. }
  { reflexivity. }
  { reflexivity. }
  exists ov. split; [exact Hrun|].
  inversion Hall as [|? o0 ? ov1 H0 Hall1]; subst.
  inversion Hall1 as [|? o1 ? ov2 H1 _]; subst.
  cbn [nth]. split.
  - destruct H0 as (q & Hq & _ & Heq). exists q. split; [exact Hq|].
    apply Heq; reflexivity.
  - destruct H1 as (q & Hq & Hr & _). exists q. split; assumption.
Defined.

(** ** Truncation of sampled values *)

Lemma py_int_floor (q : Q) : 0 <= q -> py_int q = Qfloor q.
Proof.
  intro H. unfold py_int. apply Qle_bool_iff in H. rewrite H. reflexivity.
Qed.

Lemma Qofnat_nonneg (n : nat) : 0 <= Qofnat n.
Proof.
  unfold Qofnat. change 0 with (inject_Z 0). rewrite <- Zle_Qle. lia.
Qed.

Lemma Qfloor_below (q : Q) (z : Z) : q < inject_Z (z + 1) -> (Qfloor q <= z)%Z.
Proof.
  intro H. pose proof (Qfloor_le q) as Hq.
  assert (Hz : (Qfloor q < z + 1)%Z) by (rewrite Zlt_Qlt; lra). lia.
Qed.

Lemma Qfloor_nonneg (q : Q) : 0 <= q -> (0 <= Qfloor q)%Z.
Proof.
  intro H. change 0%Z with (Qfloor 0). apply Qfloor_resp_le. exact H.
Qed.

(** ** The box cropper *)

Lemma jaccard_empty (b : array2) (r : list Q) (g : rng) (ov : list float)
  (g' : rng) :
  rows b = [] -> jaccard_numpy b r g = Ok ov g' -> ov = [].
Proof.
  destruct b as [n rs]. cbn [rows]. intros -> H.
  unfold jaccard_numpy, intersect, area, bind, columns, broadcast_vec,
    broadcast_arr, column, ret, raise in H.
  cbn [rows ncols map zip_with] in H.
  repeat (cbv beta iota in H;
          match type of H with
          | context [if ?c then _ else _] => destruct c
          | context [let '(_, _) := ?p in _] => destruct p
          end; cbn [rows ncols map zip_with] in H);
    cbv beta iota in H; try discriminate H; inversion H; reflexivity.
Qed.

Lemma RandomSampleCrop_trial_empty (lo hi : float) (im : image) (b : array2)
  (l : option labels_t) (g : rng) (y : triple) (g' : rng) :
  rows b = [] ->
  RandomSampleCrop_trial lo hi (im, Some b, l) g <> Ok (Some y) g'.
Proof.
  intros Hb H. unfold RandomSampleCrop_trial, bind in H.
  destruct (sample_rect (3 # 10) im g) as [[rect|] g1| |];
    try discriminate H.
  destruct (jaccard_numpy b (rect_q rect) g1) as [ov g2| |] eqn:E;
    try discriminate H.
  apply (jaccard_empty b _ _ _ _ Hb) in E. subst ov. discriminate H.
Qed.

(** X9.  RandomSampleCrop hands its input back untouched when the mode
    drawn is None, whatever the geometry is ([None] included: the boxes are
    not looked at), and it never returns a crop of an array without boxes:
    with no row every trial is refused or raises, so whatever the call
    returns on such an array is the input itself. *)
Theorem RandomSampleCrop_identity_cases (fuel : nat) (im : image)
  (b : array2) (l : option labels_t) (g : rng) :
  (forall x,
      choice RandomSampleCrop_options None g = Ok None (rng_tail g) ->
      RandomSampleCrop_call (S fuel) x g = Ok x (rng_tail g))
  /\ (rows b = [] ->
      forall y g',
        RandomSampleCrop_call fuel (im, Some b, l) g = Ok y g' ->
        y = (im, Some b, l)).
Proof.
  split.
  - intros x Hmode. unfold RandomSampleCrop_call. cbn [while_true].
    unfold bind, RandomSampleCrop_pass, bind. rewrite Hmode. reflexivity.
  - intros Hb y g' H. unfold RandomSampleCrop_call in H.
    apply while_true_inv in H. destruct H as (g1 & H).
    unfold RandomSampleCrop_pass, bind in H.
    destruct (choice RandomSampleCrop_options None g1) as [mode g2| |];
      try discriminate H.
    destruct mode as [[mn mx]|].
    + apply trials_inv in H. destruct H as (g3 & H).
      exfalso. exact (RandomSampleCrop_trial_empty _ _ _ _ _ _ _ _ Hb H).
    + unfold ret in H. inversion H. reflexivity.
Qed.

Lemma RandomSampleCrop_identity_cases_witness :
  RandomSampleCrop_call 1 (blank 4 4 3 7, None, None) (tape [1 # 4])
  = Ok (blank 4 4 3 7, None, None) (rng_tail (tape [1 # 4]))
  /\ exists g',
      RandomSampleCrop_call 3 (blank 4 4 3 7, Some (mkArray2 4 []), Some [])
                            (tape [1 # 4])
      = Ok (blank 4 4 3 7, Some (mkArray2 4 []), Some []) g'.
Proof.
  split.
  - apply (proj1 (RandomSampleCrop_identity_cases 0 (blank 4 4 3 7)
                    (mkArray2 4 []) None (tape [1 # 4]))).
    reflexivity.
  - destruct (RandomSampleCrop_call 3
                (blank 4 4 3 7, Some (mkArray2 4 []), Some []) (tape [1 # 4]))
      as [y g'| |] eqn:Hrun;
      try (vm_compute in Hrun; discriminate Hrun).
    rewrite (proj2 (RandomSampleCrop_identity_cases 3 (blank 4 4 3 7)
                      (mkArray2 4 []) (Some []) (tape [1 # 4]))
               eq_refl y g' Hrun).
    exists g'. reflexivity.
Defined.

Lemma clip_box_in_frame (rq r : list Q) :
  let out := clip_box rq r in
  length out = 4%nat
  /\ 0 <= nth 0 out 0 /\ 0 <= nth 1 out 0
  /\ nth 2 out 0 <= nth 2 rq 0 - nth 0 rq 0
  /\ nth 3 out 0 <= nth 3 rq 0 - nth 1 rq 0.
Proof.
  unfold clip_box. cbn [nth length].
  destruct (np_maximum_cases (nth 0 r 0) (nth 0 rq 0)) as [[H0 ->]|[H0 ->]];
    destruct (np_maximum_cases (nth 1 r 0) (nth 1 rq 0)) as [[H1 ->]|[H1 ->]];
    destruct (np_minimum_cases (nth 2 r 0) (nth 2 rq 0)) as [[H2 ->]|[H2 ->]];
    destruct (np_minimum_cases (nth 3 r 0) (nth 3 rq 0)) as [[H3 ->]|[H3 ->]];
    repeat split; lra.
Qed.

(** X10.  Whatever RandomSampleCrop returns is the geometry it was given or
    boxes clipped to one rectangle [x1, y1, x2, y2] and moved to its frame:
    every returned box has four coordinates with left and top at least 0 and
    right and bottom at most x2 - x1 and y2 - y1. *)
Theorem RandomSampleCrop_clips_to_frame (fuel : nat) (im : image)
  (b : array2) (l : option labels_t) (g : rng)
  (im' : image) (b' : array2) (l' : option labels_t) (g' : rng) :
  RandomSampleCrop_call fuel (im, Some b, l) g = Ok (im', Some b', l') g' ->
  b' = b
  \/ exists rect,
      im' = crop_image rect im
      /\ Forall
           (fun row =>
              length row = 4%nat
              /\ 0 <= nth 0 row 0 /\ 0 <= nth 1 row 0
              /\ nth 2 row 0 <= nth 2 (rect_q rect) 0 - nth 0 (rect_q rect) 0
              /\ nth 3 row 0 <= nth 3 (rect_q rect) 0 - nth 1 (rect_q rect) 0)
           (rows b').
Proof.
  intro H. unfold RandomSampleCrop_call in H.
  apply while_true_inv in H. destruct H as (g1 & H).
  apply RandomSampleCrop_pass_inv in H.
  destruct H as [H|(rect & mask & g2 & H)].
  - inversion H. left. reflexivity.
  - apply crop_keep_inv in H.
    destruct H as (b0 & l0 & Hb & Hl & _ & _ & Hy).
    inversion Hy; subst. right. exists rect. split; [reflexivity|].
    cbn [rows]. apply Forall_map, Forall_forall. intros r _.
    apply clip_box_in_frame.
Qed.

Lemma RandomSampleCrop_clips_to_frame_witness :
  exists im' g',
    RandomSampleCrop_call 1
      (blank 50 50 1 7,
       Some (mkArray2 4 [[5; 5; 45; 45]; [6; 5; 45; 45]]), Some [1; 2]%Z)
      (tape [1 # 2; 5 # 7; 5 # 7; 5 # 9; 5 # 9])
    = Ok (im', Some (mkArray2 4 [[0; 0; 40; 40]; [1; 0; 40; 40]]),
          Some [1; 2]%Z) g'
    /\ (mkArray2 4 [[0; 0; 40; 40]; [1; 0; 40; 40]]
        = mkArray2 4 [[5; 5; 45; 45]; [6; 5; 45; 45]]
        \/ exists rect,
            im' = crop_image rect (blank 50 50 1 7)
            /\ Forall
                 (fun row =>
                    length row = 4%nat
                    /\ 0 <= nth 0 row 0 /\ 0 <= nth 1 row 0
                    /\ nth 2 row 0
                       <= nth 2 (rect_q rect) 0 - nth 0 (rect_q rect) 0
                    /\ nth 3 row 0
                       <= nth 3 (rect_q rect) 0 - nth 1 (rect_q rect) 0)
                 [[0; 0; 40; 40]; [1; 0; 40; 40]]).
Proof.
  destruct (RandomSampleCrop_call 1
              (blank 50 50 1 7,
               Some (mkArray2 4 [[5; 5; 45; 45]; [6; 5; 45; 45]]),
               Some [1; 2]%Z)
              (tape [1 # 2; 5 # 7; 5 # 7; 5 # 9; 5 # 9]))
    as [[[im' b'] l'] g'| |] eqn:Hrun;
    try (vm_compute in Hrun; discriminate Hrun).
  assert (Hb : b' = Some (mkArray2 4 [[0; 0; 40; 40]; [1; 0; 40; 40]])
               /\ l' = Some [1; 2]%Z).
  { vm_compute in Hrun. inversion Hrun. split; reflexivity. }
  destruct Hb as [-> ->].
  exists im', g'. split; [reflexivity|].
  exact (RandomSampleCrop_clips_to_frame 1 _ _ _ _ _ _ _ _ Hrun).
Defined.

(** ** The polygon cropper needs two objects *)

Lemma choice_in {A} (options : list A) (d : A) (g : rng) (m : A) (g' : rng) :
  choice options d g = Ok m g' -> m = d \/ In m options.
Proof.
  unfold choice, bind. destruct (randint _ g) as [i g1| |]; try discriminate.
  unfold ret. intro H. inversion H; subst.
  destruct (nth_in_or_default (Z.to_nat i) options d) as [Hin|Hd];
    [right; exact Hin | left; exact Hd].
Qed.

Lemma area_length (b : array2) (g : rng) (a : list Q) (g' : rng) :
  area b g = Ok a g' -> (length a <= length (rows b))%nat.
Proof.
  unfold area, bind, column, ret, raise. intro H.
  repeat (cbv beta iota in H;
          match type of H with
          | context [if ?c then _ else _] => destruct c
          end);
    cbv beta iota in H; try discriminate H.
  inversion H. rewrite !zip_with_length, !length_map. lia.
Qed.

Lemma modified_jaccard_length (b : array2) (r : list Q) (g : rng)
  (ov : list float) (g' : rng) :
  modified_jaccard_numpy b r g = Ok ov g' ->
  (length ov <= length (rows b))%nat.
Proof.
  unfold modified_jaccard_numpy, bind. intro H.
  destruct (intersect b r g) as [inter g1| |]; try discriminate H.
  destruct (area b g1) as [a g2| |] eqn:Ea; try discriminate H.
  apply area_length in Ea. unfold ret in H. inversion H.
  rewrite zip_with_length. lia.
Qed.

Lemma bounding_rects_length (b : array2) (g : rng) (br : array2) (g' : rng) :
  bounding_rects (Some b) g = Ok br g' ->
  length (rows br) = length (rows b).
Proof.
  unfold bounding_rects, bind. intro H.
  match type of H with
  | match ?run with Ok _ _ => _ | Raise _ => _ | Spin => _ end = _ =>
      destruct run as [rs g1| |] eqn:E; try discriminate H
  end.
  apply map_M_length in E. unfold ret in H. inversion H. exact E.
Qed.

Lemma filter_length_le {A} (f : A -> bool) (l : list A) :
  (length (filter f l) <= length l)%nat.
Proof.
  induction l as [|a l IH]; cbn [filter length]; [lia|].
  destruct (f a); cbn [length]; lia.
Qed.

(** X11.  RandomSampleCropPoly never crops an input with fewer than two
    objects: every non-None mode asks for more than one object inside the
    rectangle, so with at most one row each trial is refused and whatever
    the call returns is the input itself. *)
Theorem RandomSampleCropPoly_needs_two_objects (fuel : nat) (im : image)
  (b : array2) (l : option labels_t) (g : rng) (y : triple) (g' : rng) :
  (length (rows b) <= 1)%nat ->
  RandomSampleCropPoly_call fuel (im, Some b, l) g = Ok y g' ->
  y = (im, Some b, l).
Proof.
  intros Hn H. unfold RandomSampleCropPoly_call in H.
  apply while_true_inv in H. destruct H as (g1 & H).
  unfold RandomSampleCropPoly_pass, bind in H.
  destruct (choice RandomSampleCropPoly_options None g1) as [mode g2| |]
    eqn:Emode; try discriminate H.
  destruct (bounding_rects (Some b) g2) as [br g3| |] eqn:Ebr;
    try discriminate H.
  apply bounding_rects_length in Ebr.
  destruct mode as [[mn mx]|]; [|inversion H; reflexivity].
  destruct (length (rows br) =? 0)%nat; [inversion H; reflexivity|].
  exfalso. apply trials_inv in H. destruct H as (g4 & H).
  unfold RandomSampleCropPoly_trial, bind in H.
  destruct (sample_rect (1 # 10) im g4) as [[rect|] g5| |];
    try discriminate H.
  destruct (modified_jaccard_numpy br (rect_q rect) g5) as [ov g6| |] eqn:Eov;
    try discriminate H.
  apply modified_jaccard_length in Eov.
  pose proof (filter_length_le (fl_ltb (Fin (9 # 10))) ov) as Hf.
  set (n := length (filter (fl_ltb (Fin (9 # 10))) ov)) in *.
  assert (Hn1 : (n <= 1)%nat) by lia.
  assert (Hrefused : fl_leb (Fin (Qofnat n)) (lower_bound mn) = true).
  { apply choice_in in Emode.
    destruct Emode as [Hd|Hin]; [discriminate Hd|].
    cbn [RandomSampleCropPoly_options In] in Hin.
    destruct n as [|[|n]]; [| |lia];
      repeat (destruct Hin as [Hin|Hin];
              [inversion Hin; subst; reflexivity|]);
      contradiction. }
  rewrite Hrefused in H. cbn [orb] in H. discriminate H.
Qed.

Lemma RandomSampleCropPoly_needs_two_objects_witness :
  exists g',
    RandomSampleCropPoly_call 2
      (blank 4 4 3 7, Some (mkArray2 8 [poly_small]), Some [1%Z])
      (tape [1 # 10])
    = Ok (blank 4 4 3 7, Some (mkArray2 8 [poly_small]), Some [1%Z]) g'.
Proof.
  destruct (RandomSampleCropPoly_call 2
              (blank 4 4 3 7, Some (mkArray2 8 [poly_small]), Some [1%Z])
              (tape [1 # 10])) as [y g'| |] eqn:Hrun;
    try (vm_compute in Hrun; discriminate Hrun).
  rewrite (RandomSampleCropPoly_needs_two_objects 2 (blank 4 4 3 7)
             (mkArray2 8 [poly_small]) (Some [1%Z]) (tape [1 # 10]) y g'
             ltac:(simpl; lia) Hrun).
  exists g'. reflexivity.
Defined.

(** ** Expand, for every draw *)

Lemma py_int_shift_nonneg (q : Q) (n : nat) :
  0 <= q -> py_int (q + Qofnat n) = (py_int q + Z.of_nat n)%Z.
Proof.
  intro Hq. pose proof (Qofnat_nonneg n) as Hn.
  rewrite !py_int_floor by lra.
  pose proof (Qfloor_le q) as H1. pose proof (Qlt_floor q) as H2.
  apply Qfloor_unique.
  - rewrite inject_Z_plus. unfold Qofnat in *. lra.
  - rewrite !inject_Z_plus in *. unfold Qofnat in *. lra.
Qed.

(** One axis of Expand: the canvas extent [int(n * ratio)] and the offset
    [int(off)] drawn as the source draws them. *)
Lemma expand_axis (n : nat) (u v : Q) :
  0 <= u -> u < 1 -> 0 <= v -> v < 1 ->
  let ratio := 1 + ((5 # 4) - 1) * u in
  let off := 0 + (Qofnat n * ratio - Qofnat n - 0) * v in
  (0 <= py_int off)%Z
  /\ py_int (off + Qofnat n) = (py_int off + Z.of_nat n)%Z
  /\ (py_int off + Z.of_nat n <= py_int (Qofnat n * ratio))%Z
  /\ (4 * py_int (Qofnat n * ratio) <= 5 * Z.of_nat n)%Z.
Proof.
  intros Hu0 Hu1 Hv0 Hv1 ratio off.
  pose proof (Qofnat_nonneg n) as Hn. set (N := Qofnat n) in *.
  assert (Hr : 1 <= ratio <= 5 # 4) by (unfold ratio; split; lra).
  assert (Hgrow : 0 <= N * ratio - N) by nra.
  assert (Hoff : 0 <= off <= N * ratio - N).
  { unfold off. remember (N * ratio - N) as R. split; nra. }
  assert (Hprod : 0 <= N * ratio) by nra.
  split; [|split; [|split]].
  - rewrite py_int_floor by lra. apply Qfloor_nonneg. lra.
  - apply py_int_shift_nonneg. lra.
  - rewrite <- py_int_shift_nonneg by lra. fold N.
    rewrite !py_int_floor by lra. apply Qfloor_resp_le. lra.
  - rewrite py_int_floor by lra.
    pose proof (Qfloor_le (N * ratio)) as Hfl.
    assert (Hq : 4 * inject_Z (Qfloor (N * ratio)) <= 5 * N) by nra.
    unfold N, Qofnat in Hq.
    change 4 with (inject_Z 4) in Hq. change 5 with (inject_Z 5) in Hq.
    rewrite <- !inject_Z_mult, <- Zle_Qle in Hq. exact Hq.
Qed.

(** X12.  Whenever Expand returns after it expanded (its coin fell on 0),
    on an image with at least one pixel and a mean with one entry per
    channel or a single entry, there are offsets top and left and a canvas
    extent such that: the image fits the canvas at the offsets, the canvas
    is at most 1.25 times the image along each axis, the image sits
    unchanged in the window that starts at the offsets, every pixel outside
    that window is the mean, every geometry row is shifted by the same
    offsets, and the labels are as they were. *)
Theorem Expand_places_image (mean : list Q) (im : image) (h w d : nat)
  (b : array2) (labels : option labels_t) (g : rng)
  (canvas : image) (ob : option array2) (l' : option labels_t) (g' : rng) :
  rectangular h w d im -> (0 < h)%nat -> (0 < w)%nat ->
  length mean = d \/ length mean = 1%nat ->
  coin g = 0%Z ->
  Expand_call mean (im, Some b, labels) g = Ok (canvas, ob, l') g' ->
  exists t lf rows_ cols : nat,
    (t + h <= rows_ /\ lf + w <= cols
     /\ 4 * rows_ <= 5 * h /\ 4 * cols <= 5 * w)%nat
    /\ rectangular rows_ cols d canvas
    /\ crop_image [Z.of_nat lf; Z.of_nat t;
                   Z.of_nat (lf + w); Z.of_nat (t + h)] canvas = im
    /\ (forall y x,
           (y < rows_)%nat -> (x < cols)%nat ->
           ~ ((t <= y < t + h)%nat /\ (lf <= x < lf + w)%nat) ->
           nth x (nth y canvas []) [] = fill_pixel mean d)
    /\ ob = Some (shift_boxes Qplus [Qofnat lf; Qofnat t] b)
    /\ l' = labels.
Proof.
  intros Him Hh Hw Hmean Hcoin Hret.
  set (ratio := uniform_value 1 (5 # 4) (rng_tail g)).
  set (left :=
         uniform_value 0 (Qofnat w * ratio - Qofnat w)
                       (rng_tail (rng_tail g))).
  set (top :=
         uniform_value 0 (Qofnat h * ratio - Qofnat h)
                       (rng_tail (rng_tail (rng_tail g)))).
  set (t := Z.to_nat (py_int top)).
  set (lf := Z.to_nat (py_int left)).
  set (rows_ := Z.to_nat (py_int (Qofnat h * ratio))).
  set (cols := Z.to_nat (py_int (Qofnat w * ratio))).
  pose proof (fill_pixel_length mean d) as Hfill.
  destruct (frac_bounds (rng_tail g 0%nat)) as [Hu0 Hu1].
  destruct (frac_bounds (rng_tail (rng_tail g) 0%nat)) as [Hl0 Hl1].
  destruct (frac_bounds (rng_tail (rng_tail (rng_tail g)) 0%nat))
    as [Ht0 Ht1].
  destruct (expand_axis h _ _ Hu0 Hu1 Ht0 Ht1) as (Ht & Hth & Hfit_h & Hmax_h).
  destruct (expand_axis w _ _ Hu0 Hu1 Hl0 Hl1) as (Hl & Hlw & Hfit_w & Hmax_w).
  fold (uniform_value 1 (5 # 4) (rng_tail g)) in Ht, Hth, Hfit_h, Hmax_h,
    Hl, Hlw, Hfit_w, Hmax_w.
  fold ratio in Ht, Hth, Hfit_h, Hmax_h, Hl, Hlw, Hfit_w, Hmax_w.
  fold (uniform_value 0 (Qofnat h * ratio - Qofnat h)
                      (rng_tail (rng_tail (rng_tail g))))
    in Ht, Hth, Hfit_h.
  fold top in Ht, Hth, Hfit_h.
  fold (uniform_value 0 (Qofnat w * ratio - Qofnat w)
                      (rng_tail (rng_tail g))) in Hl, Hlw, Hfit_w.
  fold left in Hl, Hlw, Hfit_w.
  assert (Et : py_int top = Z.of_nat t)
    by (unfold t; rewrite Z2Nat.id; [reflexivity | exact Ht]).
  assert (El : py_int left = Z.of_nat lf)
    by (unfold lf; rewrite Z2Nat.id; [reflexivity | exact Hl]).
  assert (Er : py_int (Qofnat h * ratio) = Z.of_nat rows_)
    by (unfold rows_; rewrite Z2Nat.id; [reflexivity | lia]).
  assert (Ec : py_int (Qofnat w * ratio) = Z.of_nat cols)
    by (unfold cols; rewrite Z2Nat.id; [reflexivity | lia]).
  assert (Hfit : (t + h <= rows_ /\ lf + w <= cols)%nat) by lia.
  assert (Hrun :
    Expand_call mean (im, Some b, labels) g
    = Ok (expanded_canvas rows_ cols t lf (fill_pixel mean d) im,
          Some (shift_boxes Qplus [Qofnat lf; Qofnat t] b), labels)
         (rng_tail (rng_tail (rng_tail (rng_tail g))))).
  { unfold Expand_call, bind. rewrite randint2, Hcoin.
    cbn [Z.eqb negb]. unfold shape.
    change (height im) with (length im).
    rewrite (proj1 Him), (rectangular_width h w d im Him Hh),
      (rectangular_depth h w d im Him Hh Hw).
    rewrite !uniform_run.
    fold (uniform_value 1 (5 # 4) (rng_tail g)). fold ratio.
    fold (uniform_value 0 (Qofnat w * ratio - Qofnat w)
                        (rng_tail (rng_tail g))). fold left.
    fold (uniform_value 0 (Qofnat h * ratio - Qofnat h)
                        (rng_tail (rng_tail (rng_tail g)))). fold top.
    rewrite Er, Ec, (filled_canvas_run rows_ cols d mean _ Hmean).
    rewrite Hth, Hlw, Et, El, <- !Nat2Z.inj_add.
    rewrite (paste_on_fill rows_ cols t lf h w d (fill_pixel mean d) im
               Him Hh Hw Hfill (proj1 Hfit) (proj2 Hfit)).
    reflexivity. }
  rewrite Hrun in Hret. inversion Hret; subst canvas ob l' g'. clear Hret.
  exists t, lf, rows_, cols.
  split; [lia|]. split; [|split; [|split; [|split; reflexivity]]].
  - apply (canvas_rectangular rows_ cols t lf h w d); assumption || lia.
  - apply (canvas_window rows_ cols t lf h w d (fill_pixel mean d) im);
      assumption || lia.
  - intros y x Hy Hx Hout.
    apply (canvas_outside rows_ cols t lf h w d); assumption || lia.
Qed.

Lemma Expand_places_image_witness :
  let g := tape [1 # 4; 1 # 2; 1 # 3; 2 # 3] in
  exists canvas b' g' (t lf rows_ cols : nat),
    Expand_call [104; 117; 123]
                (blank 8 16 3 7, Some (mkArray2 4 [[1; 2; 3; 4]]), None) g
    = Ok (canvas, Some b', None) g'
    /\ rectangular rows_ cols 3 canvas
    /\ crop_image [Z.of_nat lf; Z.of_nat t;
                   Z.of_nat (lf + 16); Z.of_nat (t + 8)] canvas
       = blank 8 16 3 7.
Proof.
  intro g.
  destruct (Expand_call [104; 117; 123]
              (blank 8 16 3 7, Some (mkArray2 4 [[1; 2; 3; 4]]), None) g)
    as [[[canvas ob] l'] g'| |] eqn:Hrun;
    [|vm_compute in Hrun; discriminate Hrun
     |vm_compute in Hrun; discriminate Hrun].
  destruct (Expand_places_image [104; 117; 123] (blank 8 16 3 7) 8 16 3
              (mkArray2 4 [[1; 2; 3; 4]]) None g canvas ob l' g'
              (blank_rectangular 8 16 3 7)
              ltac:(lia) ltac:(lia) (or_introl eq_refl)
              ltac:(vm_compute; reflexivity) Hrun)
    as (t & lf & rows_ & cols & _ & Hrect & Hwin & _ & -> & ->).
  eexists canvas, _, g', t, lf, rows_, cols.
  split; [reflexivity|]. split; [exact Hrect | exact Hwin].
Defined.

(** ** Mirror keeps boxes well formed *)

Lemma mirror_box_facts (w : Q) (r : list Q) :
  let r' := mirror_box w r in
  (nth 0 r 0 <= nth 2 r 0 -> nth 0 r' 0 <= nth 2 r' 0)
  /\ (0 <= nth 0 r 0 -> nth 2 r 0 <= w -> 0 <= nth 0 r' 0 /\ nth 2 r' 0 <= w)
  /\ nth 2 r' 0 - nth 0 r' 0 == nth 2 r 0 - nth 0 r 0
  /\ nth 1 r' 0 = nth 1 r 0 /\ nth 3 r' 0 = nth 3 r 0.
Proof.
  unfold mirror_box. cbn [nth].
  split; [intro; lra|]. split; [intros; split; lra|].
  split; [ring|]. split; reflexivity.
Qed.

(** X13.  A flip by RandomMirror keeps boxes of four coordinates well
    formed: a box with x1 <= x2 stays so, a box inside [0, width] stays
    inside, its width and its y-coordinates are unchanged; and the pixel at
    column x of the returned image is the pixel at column width - 1 - x of
    the input. *)
Theorem RandomMirror_keeps_boxes_in_frame (im : image) (h w d : nat)
  (b : array2) (classes : option labels_t) (g : rng) :
  ncols b = 4%nat -> well_formed b -> coin g <> 0%Z ->
  rectangular h w d im ->
  exists b',
    RandomMirror_call (im, Some b, classes) g
    = Ok (map (@rev (list Q)) im, Some b', classes) (rng_tail g)
    /\ Forall2
         (fun r r' =>
            (nth 0 r 0 <= nth 2 r 0 -> nth 0 r' 0 <= nth 2 r' 0)
            /\ (0 <= nth 0 r 0 -> nth 2 r 0 <= Qofnat (width im) ->
                0 <= nth 0 r' 0 /\ nth 2 r' 0 <= Qofnat (width im))
            /\ nth 2 r' 0 - nth 0 r' 0 == nth 2 r 0 - nth 0 r 0
            /\ nth 1 r' 0 = nth 1 r 0 /\ nth 3 r' 0 = nth 3 r 0)
         (rows b) (rows b')
    /\ (forall y x,
           (y < h)%nat -> (x < w)%nat ->
           nth x (nth y (map (@rev (list Q)) im) []) []
           = nth (w - 1 - x) (nth y im []) []).
Proof.
  intros Hn Hwf Hc Him. eexists. split; [|split].
  - apply RandomMirror_boxes; assumption.
  - cbn [rows]. apply Forall2_map_r. intros r _. apply mirror_box_facts.
  - intros y x Hy Hx.
    assert (E : nth y (map (@rev (list Q)) im) [] = rev (nth y im []))
      by exact (map_nth (@rev (list Q)) im [] y).
    rewrite E.
    assert (Hrow : length (nth y im []) = w).
    { destruct Him as [Hlen Hall]. rewrite Forall_forall in Hall.
      apply Hall. apply nth_In. lia. }
    rewrite rev_nth by lia. rewrite Hrow. f_equal. lia.
Qed.

Lemma RandomMirror_keeps_boxes_in_frame_witness :
  exists b',
    RandomMirror_call ([[[1]; [2]; [3]]], Some (mkArray2 4 [[0; 0; 2; 1]]),
                       None) (tape [1 # 2])
    = Ok ([[[3]; [2]; [1]]], Some b', None) (rng_tail (tape [1 # 2]))
    /\ Forall2
         (fun r r' =>
            0 <= nth 0 r' 0 /\ nth 0 r' 0 <= nth 2 r' 0
            /\ nth 2 r' 0 <= 3)
         [[0; 0; 2; 1]] (rows b').
Proof.
  destruct (RandomMirror_keeps_boxes_in_frame [[[1]; [2]; [3]]] 1 3 1
              (mkArray2 4 [[0; 0; 2; 1]]) None (tape [1 # 2]) eq_refl
              ltac:(repeat constructor) ltac:(vm_compute; discriminate)
              ltac:(split; [reflexivity | repeat constructor]))
    as (b' & Hrun & Hall & _).
  exists b'. split; [exact Hrun|].
  cbn [rows] in Hall. inversion Hall as [|? r' ? rs' H0 Hrest]; subst.
  inversion Hrest; subst. constructor; [|constructor].
  destruct H0 as (Hord & Hin & _).
  cbn [nth] in Hord, Hin.
  destruct Hin as [Hlo Hhi]; [discriminate | discriminate|].
  split; [exact Hlo|]. split; [apply Hord; discriminate | exact Hhi].
Defined.

(** ** ToTensor and ToCV2Image *)

Lemma map_nth_seq {A} (l : list A) (d : A) :
  map (fun i => nth i l d) (seq 0 (length l)) = l.
Proof.
  induction l as [|a l IH]; [reflexivity|].
  cbn [length seq map nth]. f_equal.
  rewrite <- seq_shift, map_map. exact IH.
Qed.

Lemma plane_entry (im : image) (k y x : nat) :
  nth x (nth y (map (map (fun px : list Q => nth k px 0)) im) []) 0
  = nth k (nth x (nth y im []) []) 0.
Proof.
  set (f := fun px : list Q => nth k px 0).
  assert (E1 : nth y (map (map f) im) [] = map f (nth y im []))
    by exact (map_nth (map f) im [] y).
  rewrite E1.
  assert (E2 : forall row, nth x (map f row) 0 = f (nth x row [])).
  { intro row. rewrite <- (map_nth f row [] x).
    unfold f at 3. rewrite nth_nil. reflexivity. }
  rewrite E2. reflexivity.
Qed.

Lemma transpose_permute (h w c : nat) (im : image) :
  rectangular h w c im -> (0 < h)%nat -> (0 < w)%nat -> (0 < c)%nat ->
  transpose_120 (permute_201 im) = im.
Proof.
  intros Him Hh Hw Hc.
  pose proof (rectangular_depth h w c im Him Hh Hw) as Hd.
  destruct Him as [Hlen Hall]. rewrite Forall_forall in Hall.
  unfold transpose_120, permute_201. rewrite Hd.
  destruct c as [|c]; [lia|]. cbn [seq map hd].
  rewrite !length_map, Hlen.
  assert (Hfirst : length (hd [] (map (map (fun px : list Q => nth 0 px 0)) im))
                   = w).
  { destruct im as [|row im]; [simpl in Hlen; lia|].
    cbn [map hd]. rewrite length_map. apply Hall. left. reflexivity. }
  rewrite Hfirst.
  transitivity (map (fun y => nth y im []) (seq 0 h));
    [|rewrite <- Hlen; apply map_nth_seq].
  apply map_ext_in. intros y Hy. apply in_seq in Hy.
  assert (Hrow : In (nth y im []) im) by (apply nth_In; lia).
  destruct (Hall _ Hrow) as [Hroww Hpx]. rewrite Forall_forall in Hpx.
  transitivity (map (fun x => nth x (nth y im []) []) (seq 0 w));
    [|rewrite <- Hroww; apply map_nth_seq].
  apply map_ext_in. intros x Hx. apply in_seq in Hx.
  assert (Hpix : length (nth x (nth y im []) []) = S c).
  { apply Hpx. apply nth_In. lia. }
  transitivity (map (fun k => nth k (nth x (nth y im []) []) 0)
                    (seq 0 (S c)));
    [|rewrite <- Hpix; apply map_nth_seq].
  cbn [seq map]. f_equal; [apply plane_entry|].
  rewrite map_map. apply map_ext. intro k. apply plane_entry.
Qed.

(** X14.  ToCV2Image undoes ToTensor: on an image with at least one pixel
    and one channel, converting to the channel-first tensor and back gives
    the image again, with geometry and labels as they were (both present or
    both absent), and no random draw is used. *)
Theorem ToTensor_ToCV2Image_round_trip (h w c : nat) (im : image)
  (b : option array2) (l : option labels_t) (g : rng) :
  rectangular h w c im -> (0 < h)%nat -> (0 < w)%nat -> (0 < c)%nat ->
  synced b l ->
  Compose_call [ToTensor_call; ToCV2Image_call] (im, b, l) g
  = Ok (im, b, l) g.
Proof.
  intros Him Hh Hw Hc Hs. cbn [Compose_call]. unfold bind.
  destruct b as [b|]; destruct l as [l|]; cbn [synced] in Hs;
    try contradiction;
    cbn [ToTensor_call from_numpy bind ret ToCV2Image_call];
    unfold bind, ret; cbn [ToCV2Image_call]; unfold ret;
    rewrite (transpose_permute h w c im Him Hh Hw Hc); reflexivity.
Qed.

Lemma ToTensor_ToCV2Image_round_trip_witness :
  Compose_call [ToTensor_call; ToCV2Image_call]
    ([[[1; 2; 3]; [4; 5; 6]]], Some (mkArray2 8 [poly_example]), Some [1%Z])
    (tape [])
  = Ok ([[[1; 2; 3]; [4; 5; 6]]], Some (mkArray2 8 [poly_example]),
        Some [1%Z]) (tape []).
Proof.
  apply (ToTensor_ToCV2Image_round_trip 1 2 3 [[[1; 2; 3]; [4; 5; 6]]]
           (Some (mkArray2 8 [poly_example])) (Some [1%Z]) (tape [])).
  - split; [reflexivity | repeat constructor].
  - lia.
  - lia.
  - lia.
  - reflexivity.
Defined.

(** ** Resize after Resize *)

Lemma Qofnat_pos (n : nat) : (0 < n)%nat -> 0 < Qofnat n.
Proof.
  intro H. unfold Qofnat. change 0 with (inject_Z 0). rewrite <- Zlt_Qlt. lia.
Qed.

Lemma Forall2_map_both {A B C} (P : B -> C -> Prop) (f : A -> B) (k : A -> C)
  (l : list A) :
  (forall a, P (f a) (k a)) -> Forall2 P (map f l) (map k l).
Proof.
  intro H. induction l as [|a l IH]; cbn [map]; constructor; auto.
Qed.

(** What a return of Resize on present geometry tells. *)
Lemma Resize_inv {cv : OpenCV} (size : nat) (im : image) (b : array2)
  (l : option labels_t) (g : rng) (im' : image) (b' : array2)
  (l' : option labels_t) (g' : rng) :
  Resize_call size (im, Some b, l) g = Ok (im', Some b', l') g' ->
  let t := tile [Qofnat size / Qofnat (width im);
                 Qofnat size / Qofnat (height im)] 4 in
  (0 < width im)%nat /\ (0 < height im)%nat
  /\ cv2_resize (astype_uint8 im) (size, size) INTER_CUBIC = Some im'
  /\ l' = l
  /\ ((ncols b = 8%nat
       /\ b' = mkArray2 8 (map (fun r => zip_with Qmult r t) (rows b)))
      \/ (ncols b = 1%nat
          /\ b' = mkArray2 8 (map (fun r => map (Qmult (hd 0 r)) t)
                                  (rows b)))).
Proof.
  intros H t. unfold Resize_call, shape, bind in H.
  destruct ((width im =? 0)%nat || (height im =? 0)%nat) eqn:E0;
    [discriminate H|].
  apply orb_false_iff in E0. destruct E0 as [Ew Eh].
  apply Nat.eqb_neq in Ew. apply Nat.eqb_neq in Eh.
  unfold scale_boxes in H. fold t in H.
  change (length t) with 8%nat in H.
  destruct (ncols b =? 8)%nat eqn:E8.
  - apply Nat.eqb_eq in E8. unfold ret in H.
    destruct (cv2_resize _ _ _) as [out|] eqn:Ecv; [|discriminate H].
    inversion H; subst.
    repeat split; try lia. left. split; [exact E8 | rewrite E8; reflexivity].
  - destruct (ncols b =? 1)%nat eqn:E1; [|discriminate H].
    apply Nat.eqb_eq in E1. unfold ret in H.
    destruct (cv2_resize _ _ _) as [out|] eqn:Ecv; [|discriminate H].
    inversion H; subst.
    repeat split; try lia. right. split; [exact E1 | reflexivity].
Qed.

Lemma scale_twice (r : list Q) (a b a' b' a'' b'' : Q) :
  a * a' == a'' -> b * b' == b'' ->
  Forall2 Qeq (zip_with Qmult (zip_with Qmult r (tile [a; b] 4))
                        (tile [a'; b'] 4))
          (zip_with Qmult r (tile [a''; b''] 4)).
Proof.
  intros Ha Hb. cbn [tile app].
  do 8 (destruct r as [|? r]; cbn [zip_with];
        [repeat constructor; rewrite <- ?Ha, <- ?Hb; ring|]).
  destruct r; cbn [zip_with];
    repeat constructor; rewrite <- ?Ha, <- ?Hb; ring.
Qed.

Lemma scale_broadcast_twice (x a b a' b' a'' b'' : Q) :
  a * a' == a'' -> b * b' == b'' ->
  Forall2 Qeq (zip_with Qmult (map (Qmult x) (tile [a; b] 4))
                        (tile [a'; b'] 4))
          (map (Qmult x) (tile [a''; b''] 4)).
Proof.
  intros Ha Hb. cbn [tile app map zip_with].
  repeat constructor; rewrite <- ?Ha, <- ?Hb; ring.
Qed.

(** X15.  Resizing twice scales the geometry like resizing once to the
    final size: if Resize(s1) and then Resize(s2) return on a triple with
    geometry, and Resize(s2) returns on that triple directly, the two
    geometries have the same eight columns and equal entries, and the
    labels are the input's.  This takes OpenCV's contract that the first
    resize gives an s1 x s1 image. *)
Theorem Resize_twice {cv : OpenCV} (s1 s2 : nat) (im : image) (b : array2)
  (l : option labels_t) (g : rng)
  (im1 im2 im3 : image) (b1 b2 b3 : array2) (l1 l2 l3 : option labels_t)
  (g1 g2 g3 : rng) :
  resize_contract cv ->
  Resize_call s1 (im, Some b, l) g = Ok (im1, Some b1, l1) g1 ->
  Resize_call s2 (im1, Some b1, l1) g1 = Ok (im2, Some b2, l2) g2 ->
  Resize_call s2 (im, Some b, l) g = Ok (im3, Some b3, l3) g3 ->
  ncols b2 = 8%nat /\ ncols b3 = 8%nat
  /\ rows_eq (rows b2) (rows b3)
  /\ l2 = l /\ l3 = l.
Proof.
  intros Hcv H1 H2 H3.
  apply Resize_inv in H1. destruct H1 as (Hw & Hh & Hcv1 & -> & Hb1).
  apply Resize_inv in H2. destruct H2 as (Hw1 & Hh1 & _ & -> & Hb2).
  apply Resize_inv in H3. destruct H3 as (_ & _ & _ & -> & Hb3).
  destruct (Hcv _ _ _ Hcv1) as [Eh1 Ew1]. rewrite Eh1, Ew1 in *.
  pose proof (Qofnat_pos _ Hw) as Pw. pose proof (Qofnat_pos _ Hh) as Ph.
  pose proof (Qofnat_pos _ Hw1) as Ps.
  assert (Ex : Qofnat s1 / Qofnat (width im) * (Qofnat s2 / Qofnat s1)
               == Qofnat s2 / Qofnat (width im)) by (field; split; lra).
  assert (Ey : Qofnat s1 / Qofnat (height im) * (Qofnat s2 / Qofnat s1)
               == Qofnat s2 / Qofnat (height im)) by (field; split; lra).
  destruct Hb1 as [[Hn ->]|[Hn ->]];
    (destruct Hb2 as [[_ ->]|[Hn2 _]]; [|discriminate Hn2]);
    (destruct Hb3 as [[Hn3 ->]|[Hn3 ->]];
     try (rewrite Hn in Hn3; discriminate Hn3));
    cbn [ncols rows];
    (split; [reflexivity|]); (split; [reflexivity|]);
    (split; [|split; reflexivity]);
    unfold rows_eq; rewrite map_map; apply Forall2_map_both; intro r.
  - apply scale_twice; assumption.
  - apply scale_broadcast_twice; assumption.
Qed.

Lemma Resize_twice_witness :
  exists im2 b2 im3 b3,
    Compose_call [@Resize_call cv_plain 20; @Resize_call cv_plain 5]
      (blank 40 10 3 7, Some (mkArray2 8 [poly_example]), Some [1%Z])
      (tape [])
    = Ok (im2, Some b2, Some [1%Z]) (tape [])
    /\ @Resize_call cv_plain 5
         (blank 40 10 3 7, Some (mkArray2 8 [poly_example]), Some [1%Z])
         (tape [])
       = Ok (im3, Some b3, Some [1%Z]) (tape [])
    /\ rows_eq (rows b2) (rows b3).
Proof.
  eexists _, _, _, _. split; [reflexivity|]. split; [reflexivity|].
  refine (proj1 (proj2 (proj2
    (@Resize_twice cv_plain 20 5 (blank 40 10 3 7)
       (mkArray2 8 [poly_example]) (Some [1%Z]) (tape [])
       _ _ _ _ _ _ _ _ _ _ _ _ _ eq_refl eq_refl eq_refl)))).
  intros src dst n Hdst. injection Hdst as <-. cbn [fst snd].
  split; [apply blank_shape|].
  destruct n; [reflexivity | apply blank_shape; lia].
Defined.

(** ** The channel permutation *)

(** [numpy.random.randint(n)] for a positive [n] returns an integer of
    [0, n) and takes one draw. *)
Lemma randint_bounds (n : Z) (g : rng) :
  (0 < n)%Z ->
  exists z, randint n g = Ok z (rng_tail g) /\ (0 <= z < n)%Z.
Proof.
  intro Hn. unfold randint, randint_range.
  destruct (n <=? 0)%Z eqn:E; [apply Z.leb_le in E; lia|].
  unfold bind, random_sample, ret.
  destruct (frac_bounds (g 0%nat)) as [Hlo Hhi].
  set (u := frac (g 0%nat)) in *.
  exists (0 + Qfloor (inject_Z (n - 0) * u))%Z. split; [reflexivity|].
  rewrite Z.sub_0_r, Z.add_0_l.
  assert (Hq : 0 < inject_Z n)
    by (change 0 with (inject_Z 0); rewrite <- Zlt_Qlt; exact Hn).
  split.
  - apply Qfloor_nonneg. nra.
  - assert (Hb : (Qfloor (inject_Z n * u) <= n - 1)%Z).
    { apply Qfloor_below. replace (n - 1 + 1)%Z with n by lia. nra. }
    lia.
Qed.

Lemma choice_perms (g : rng) :
  exists swap, choice perms [] g = Ok swap (rng_tail g) /\ In swap perms.
Proof.
  destruct (randint_bounds 6 g ltac:(lia)) as (z & Hz & Hlo & Hhi).
  exists (nth (Z.to_nat z) perms []). unfold choice, bind.
  change (Z.of_nat (length perms)) with 6%Z. rewrite Hz. split; [reflexivity|].
  apply nth_In. change (length perms) with 6%nat. lia.
Qed.

Lemma perms_permute (swap : list nat) (a b c : Q) :
  In swap perms ->
  Permutation [a; b; c] (map (fun s => nth s [a; b; c] 0) swap).
Proof.
  intro H. cbn [perms In] in H.
  destruct H as [<-|[<-|[<-|[<-|[<-|[<-|[]]]]]]]; cbn [map nth].
  - apply Permutation_refl.
  - apply perm_skip, perm_swap.
  - apply perm_swap.
  - exact (Permutation_cons_append [b; c] a).
  - apply Permutation_sym. exact (Permutation_cons_append [a; b] c).
  - exact (Permutation_rev [a; b; c]).
Qed.

Lemma perms_use_last_channel (swap : list nat) (c : nat) :
  In swap perms -> (c < 3)%nat ->
  forallb (fun s => (s <? c)%nat) swap = false.
Proof.
  intros H Hc. cbn [perms In] in H.
  assert (E2 : (2 <? c)%nat = false) by (apply Nat.ltb_ge; lia).
  destruct H as [<-|[<-|[<-|[<-|[<-|[<-|[]]]]]]]; cbn [forallb];
    rewrite E2, ?andb_false_r; reflexivity.
Qed.

Lemma perms_in_three (swap : list nat) :
  In swap perms -> forallb (fun s => (s <? 3)%nat) swap = true.
Proof.
  intro H. cbn [perms In] in H.
  destruct H as [<-|[<-|[<-|[<-|[<-|[<-|[]]]]]]]; reflexivity.
Qed.

Lemma Forall2_same {A} (P : A -> A -> Prop) (l : list A) :
  (forall a, In a l -> P a a) -> Forall2 P l l.
Proof.
  intro H. rewrite <- (map_id l) at 2. apply Forall2_map_r. exact H.
Qed.

(** X16.  RandomLightingNoise on a non-empty image.  With three channels it
    always returns, with the geometry and labels of the input, and every
    pixel of the result holds the three values of the input pixel in some
    order.  With fewer than three channels the call raises IndexError
    whenever the coin decides to permute, as each of the six orders reads
    channel 2. *)
Theorem RandomLightingNoise_permutes_channels (h w c : nat)
  (im : image) (boxes : option array2) (labels : option labels_t) (g : rng) :
  rectangular h w c im -> (0 < h)%nat -> (0 < w)%nat ->
  (c = 3%nat ->
   exists im' g',
     RandomLightingNoise_call (im, boxes, labels) g
     = Ok (im', boxes, labels) g'
     /\ Forall2 (Forall2 (@Permutation Q)) im im')
  /\ ((c < 3)%nat -> coin g <> 0%Z ->
      RandomLightingNoise_call (im, boxes, labels) g = Raise IndexError).
Proof.
  intros Hrect Hh Hw.
  pose proof (rectangular_depth _ _ _ _ Hrect Hh Hw) as Hd.
  unfold RandomLightingNoise_call, bind. rewrite randint2.
  destruct (choice_perms (rng_tail g)) as (swap & Hswap & Hin).
  split.
  - intros ->. destruct (coin g =? 0)%Z.
    + exists im, (rng_tail g). split; [reflexivity|].
      apply Forall2_same. intros row _. apply Forall2_same. intros px _.
      apply Permutation_refl.
    + rewrite Hswap. unfold SwapChannels_call. rewrite Hd.
      rewrite (perms_in_three _ Hin). unfold ret.
      eexists _, _. split; [reflexivity|].
      destruct Hrect as [_ Hrows].
      apply Forall2_map_r. intros row Hrow.
      apply Forall2_map_r. intros px Hpx.
      rewrite Forall_forall in Hrows. destruct (Hrows _ Hrow) as [_ Hpxs].
      rewrite Forall_forall in Hpxs. specialize (Hpxs _ Hpx).
      destruct px as [|a [|b [|c0 [|]]]]; try discriminate Hpxs.
      apply perms_permute. exact Hin.
  - intros Hc Hcoin. rewrite (coin_taken _ Hcoin). rewrite Hswap.
    unfold SwapChannels_call. rewrite Hd.
    rewrite (perms_use_last_channel _ _ Hin Hc). reflexivity.
Qed.

Lemma RandomLightingNoise_permutes_channels_witness :
  (exists im' g',
      @RandomLightingNoise_call
        ([ [ [1; 2; 3]; [4; 5; 6] ] ], None, None) (tape [3 # 4; 4 # 5])
      = Ok (im', None, None) g'
      /\ Forall2 (Forall2 (@Permutation Q))
                 [ [ [1; 2; 3]; [4; 5; 6] ] ] im')
  /\ @RandomLightingNoise_call
       ([ [ [1; 2] ] ], None, None) (tape [3 # 4; 4 # 5])
     = Raise IndexError.
Proof.
  split.
  - refine (proj1 (RandomLightingNoise_permutes_channels
              1 2 3 [ [ [1; 2; 3]; [4; 5; 6] ] ] None None
              (tape [3 # 4; 4 # 5]) _ _ _) eq_refl);
      [split; [reflexivity | repeat constructor] | lia | lia].
  - refine (proj2 (RandomLightingNoise_permutes_channels
              1 1 2 [ [ [1; 2] ] ] None None
              (tape [3 # 4; 4 # 5]) _ _ _) _ _);
      [split; [reflexivity | repeat constructor] | lia | lia | lia
      | vm_compute; discriminate].
Defined.

(** ** Bounding rectangles of polygons *)

Lemma In_step2 (lo len : Z) (j : nat) :
  (0 <= lo < len)%Z ->
  In j (map (fun k => Z.to_nat (lo + Z.of_nat k * 2))
            (seq 0 (Z.to_nat ((len - lo - 1) / 2 + 1))))
  <-> exists k : nat,
        (Z.of_nat j = lo + 2 * Z.of_nat k)%Z /\ (Z.of_nat j < len)%Z.
Proof.
  intro Hlo. set (q := ((len - lo - 1) / 2)%Z).
  assert (Hq : (2 * q <= len - lo - 1 < 2 * q + 2)%Z).
  { pose proof (Z.div_mod (len - lo - 1) 2 ltac:(lia)) as H1.
    pose proof (Z.mod_pos_bound (len - lo - 1) 2 ltac:(lia)) as H2.
    fold q in H1. lia. }
  clearbody q. rewrite in_map_iff. split.
  - intros (k & Hk & Hin). apply in_seq in Hin. exists k. lia.
  - intros (k & Hk & Hlt). exists k. split; [lia | apply in_seq; lia].
Qed.

(** [::2] selects the even and [1::2] the odd columns. *)
Lemma slice_even (n j : nat) :
  In j (slice_indices None None 2 n)
  <-> (j < n)%nat /\ Nat.even j = true.
Proof.
  unfold slice_indices. cbv zeta.
  change (2 <? 0)%Z with false. change (0 <? 2)%Z with true. cbv iota.
  destruct (0 <? Z.of_nat n)%Z eqn:E.
  - apply Z.ltb_lt in E. rewrite (In_step2 0 (Z.of_nat n) j) by lia.
    rewrite Nat.even_spec. split.
    + intros (k & Hk & Hlt). split; [lia | exists k; lia].
    + intros (Hlt & k & Hk). exists k. lia.
  - apply Z.ltb_ge in E. cbn [Z.to_nat seq map In]. split; [contradiction|].
    intros [Hlt _]. lia.
Qed.

Lemma slice_odd (n j : nat) :
  In j (slice_indices (Some 1%Z) None 2 n)
  <-> (j < n)%nat /\ Nat.odd j = true.
Proof.
  unfold slice_indices. cbv zeta.
  change (2 <? 0)%Z with false. change (0 <? 2)%Z with true.
  change (1 <? 0)%Z with false. cbv iota.
  rewrite Nat.odd_spec.
  destruct (Z.of_nat n <=? 1)%Z eqn:E0.
  - apply Z.leb_le in E0. rewrite Z.ltb_irrefl.
    cbn [Z.to_nat seq map In]. split; [contradiction|].
    intros (Hlt & k & Hk). lia.
  - apply Z.leb_gt in E0.
    change (1 <? 0)%Z with false. cbv iota.
    destruct (1 <? Z.of_nat n)%Z eqn:E1; [|apply Z.ltb_ge in E1; lia].
    rewrite (In_step2 1 (Z.of_nat n) j) by lia. split.
    + intros (k & Hk & Hlt). split; [lia | exists k; lia].
    + intros (Hlt & k & Hk). exists k. lia.
Qed.

Lemma fold_min (r : list Q) (x : Q) :
  let m := fold_left (fun m y => if Qltb y m then y else m) r x in
  (m = x \/ In m r) /\ m <= x /\ Forall (Qle m) r.
Proof.
  revert x. induction r as [|y r IH]; intro x; cbn [fold_left].
  - cbv zeta. split; [left; reflexivity|]. split; [lra | constructor].
  - specialize (IH (if Qltb y x then y else x)). cbv zeta in IH |- *.
    destruct IH as (Hin & Hle & Hall).
    destruct (Qltb y x) eqn:E; [apply Qltb_true in E | apply Qltb_false in E].
    + split; [right; destruct Hin as [->|Hin]; [left; reflexivity
                                               | right; exact Hin]|].
      split; [lra | constructor; [exact Hle | exact Hall]].
    + split; [destruct Hin as [->|Hin]; [left; reflexivity
                                        | right; right; exact Hin]|].
      split; [exact Hle | constructor; [lra | exact Hall]].
Qed.

Lemma fold_max (r : list Q) (x : Q) :
  let m := fold_left (fun m y => if Qltb m y then y else m) r x in
  (m = x \/ In m r) /\ x <= m /\ Forall (fun y => y <= m) r.
Proof.
  revert x. induction r as [|y r IH]; intro x; cbn [fold_left].
  - cbv zeta. split; [left; reflexivity|]. split; [lra | constructor].
  - specialize (IH (if Qltb x y then y else x)). cbv zeta in IH |- *.
    destruct IH as (Hin & Hle & Hall).
    destruct (Qltb x y) eqn:E; [apply Qltb_true in E | apply Qltb_false in E].
    + split; [right; destruct Hin as [->|Hin]; [left; reflexivity
                                               | right; exact Hin]|].
      split; [lra | constructor; [exact Hle | exact Hall]].
    + split; [destruct Hin as [->|Hin]; [left; reflexivity
                                        | right; right; exact Hin]|].
      split; [exact Hle | constructor; [lra | exact Hall]].
Qed.

(** Python's [min] returns an entry below every entry, [max] one above. *)
Lemma py_min_spec (l : list Q) (g : rng) (v : Q) (g' : rng) :
  py_min l g = Ok v g' ->
  g' = g /\ In v l /\ Forall (Qle v) l.
Proof.
  destruct l as [|x r]; [discriminate|]. unfold py_min, ret. intro H.
  inversion H; subst. destruct (fold_min r x) as (Hin & Hle & Hall).
  split; [reflexivity|]. split.
  - destruct Hin as [->|Hin]; [left; reflexivity | right; exact Hin].
  - constructor; assumption.
Qed.

Lemma py_max_spec (l : list Q) (g : rng) (v : Q) (g' : rng) :
  py_max l g = Ok v g' ->
  g' = g /\ In v l /\ Forall (fun y => y <= v) l.
Proof.
  destruct l as [|x r]; [discriminate|]. unfold py_max, ret. intro H.
  inversion H; subst. destruct (fold_max r x) as (Hin & Hle & Hall).
  split; [reflexivity|]. split.
  - destruct Hin as [->|Hin]; [left; reflexivity | right; exact Hin].
  - constructor; assumption.
Qed.

Lemma map_M_Forall2 {A B} (P : A -> B -> Prop) (f : A -> M B) (l : list A)
  (g : rng) (bs : list B) (g' : rng) :
  (forall a g1 b g2, f a g1 = Ok b g2 -> P a b) ->
  map_M f l g = Ok bs g' -> Forall2 P l bs.
Proof.
  intro Hf. revert g bs.
  induction l as [|a l IH]; intros g bs H; cbn [map_M] in H.
  - unfold ret in H. inversion H. constructor.
  - unfold bind in H. destruct (f a g) as [b g1| |] eqn:Ea; try discriminate H.
    destruct (map_M f l g1) as [bs1 g2| |] eqn:E; try discriminate H.
    unfold ret in H. inversion H; subst.
    constructor; [exact (Hf _ _ _ _ Ea) | exact (IH _ _ E)].
Qed.

Lemma In_take_indices (idx : list nat) (r : list Q) (v : Q) :
  In v (take_indices idx r) -> exists j, In j idx /\ nth j r 0 = v.
Proof.
  unfold take_indices. rewrite in_map_iff. intros (j & Hj & Hin).
  exists j. split; assumption.
Qed.

Lemma Forall_take_indices (P : Q -> Prop) (idx : list nat) (r : list Q)
  (j : nat) :
  Forall P (take_indices idx r) -> In j idx -> P (nth j r 0).
Proof.
  unfold take_indices. rewrite Forall_forall. intros H Hj.
  apply H. apply in_map_iff. exists j. split; [reflexivity | exact Hj].
Qed.

(** X17.  The rectangles the polygon cropper computes for its objects.  On
    an array of at least two columns the computation returns without a
    draw, one rectangle [x0, y0, x1, y1] per row, and each is the smallest
    rectangle around the row's points: x0 and x1 bound the entries of the
    even columns, y0 and y1 those of the odd columns, and each bound is one
    of these entries. *)
Theorem bounding_rects_enclose (b : array2) (g : rng) :
  (2 <= ncols b)%nat ->
  exists rs,
    bounding_rects (Some b) g = Ok (mkArray2 4 rs) g
    /\ Forall2 (tight_rect (ncols b)) (rows b) rs.
Proof.
  intro Hn.
  destruct (bounding_rects_run b g (or_introl Hn)) as (rs & Hrun & _).
  exists rs. split; [exact Hrun|].
  unfold bounding_rects, bind in Hrun.
  match type of Hrun with
  | match ?run with Ok _ _ => _ | Raise _ => _ | Spin => _ end = _ =>
      destruct run as [rs' g1| |] eqn:E; try discriminate Hrun
  end.
  unfold ret in Hrun. inversion Hrun; subst rs' g1. clear Hrun.
  refine (map_M_Forall2 _ _ _ _ _ _ _ E). clear E.
  intros r g1 rect g2 H. unfold bind in H.
  destruct (py_min (take_indices (slice_indices None None 2 (ncols b)) r) g1)
    as [x0 h1| |] eqn:E1; try discriminate H.
  destruct (py_min (take_indices (slice_indices (Some 1%Z) None 2 (ncols b))
                                 r) h1)
    as [y0 h2| |] eqn:E2; try discriminate H.
  destruct (py_max (take_indices (slice_indices None None 2 (ncols b)) r) h2)
    as [x1 h3| |] eqn:E3; try discriminate H.
  destruct (py_max (take_indices (slice_indices (Some 1%Z) None 2 (ncols b))
                                 r) h3)
    as [y1 h4| |] eqn:E4; try discriminate H.
  unfold ret in H. inversion H; subst rect g2. clear H.
  apply py_min_spec in E1. destruct E1 as (_ & Hx0 & Ax0).
  apply py_min_spec in E2. destruct E2 as (_ & Hy0 & Ay0).
  apply py_max_spec in E3. destruct E3 as (_ & Hx1 & Ax1).
  apply py_max_spec in E4. destruct E4 as (_ & Hy1 & Ay1).
  exists x0, y0, x1, y1. split; [reflexivity|].
  split; [|split].
  - intros j Hj Hev.
    assert (Hin : In j (slice_indices None None 2 (ncols b)))
      by (apply slice_even; split; assumption).
    split; [exact (Forall_take_indices _ _ _ _ Ax0 Hin)
           | exact (Forall_take_indices _ _ _ _ Ax1 Hin)].
  - intros j Hj Hodd.
    assert (Hin : In j (slice_indices (Some 1%Z) None 2 (ncols b)))
      by (apply slice_odd; split; assumption).
    split; [exact (Forall_take_indices _ _ _ _ Ay0 Hin)
           | exact (Forall_take_indices _ _ _ _ Ay1 Hin)].
  - repeat split.
    + apply In_take_indices in Hx0. destruct Hx0 as (j & Hj & Hv).
      apply slice_even in Hj. exists j. tauto.
    + apply In_take_indices in Hy0. destruct Hy0 as (j & Hj & Hv).
      apply slice_odd in Hj. exists j. tauto.
    + apply In_take_indices in Hx1. destruct Hx1 as (j & Hj & Hv).
      apply slice_even in Hj. exists j. tauto.
    + apply In_take_indices in Hy1. destruct Hy1 as (j & Hj & Hv).
      apply slice_odd in Hj. exists j. tauto.
Qed.

Lemma bounding_rects_enclose_witness :
  exists rs,
    bounding_rects (Some (mkArray2 8 [poly_example])) (tape [])
    = Ok (mkArray2 4 rs) (tape [])
    /\ Forall2 (tight_rect 8) [poly_example] rs.
Proof.
  apply (bounding_rects_enclose (mkArray2 8 [poly_example]) (tape [])).
  simpl. lia.
Defined.

(** ** Rotate *)

Lemma py_slice_nat {A} (lo hi : nat) (l : list A) :
  (lo <= hi)%nat -> (hi <= length l)%nat ->
  py_slice (Some (Z.of_nat lo)) (Some (Z.of_nat hi)) l
  = firstn (hi - lo) (skipn lo l).
Proof.
  intros H1 H2. unfold py_slice, slice_bounds.
  rewrite !norm_index_nat by lia. reflexivity.
Qed.

(** A row that does not hold four points stops the loop at the product
    with the matrix. *)
Lemma rotate_box_short (m : matrix23) (box : list Q) (g : rng) :
  (length box < 8)%nat -> rotate_box m box g = Raise ValueError.
Proof.
  intro H. destruct m as [[[a b] c] [[d e] f]].
  do 8 (destruct box as [|? box]; [reflexivity|]).
  simpl in H. lia.
Qed.

Lemma rotate_box_long (m : matrix23) (box : list Q) (g : rng) :
  (8 <= length box)%nat ->
  exists r, rotate_box m box g = Ok r g
            /\ Forall2 Qeq r (rotated_row m box).
Proof.
  intro H.
  do 8 (destruct box as [|? box]; [simpl in H; lia|]).
  destruct m as [[[a b] c] [[d e] f]].
  unfold rotate_box. cbn [seq fold_left]. unfold bind. cbn [ret].
  do 4 (rewrite py_slice_nat by (cbn [length]; lia);
        cbn [Nat.mul Nat.add Nat.sub firstn skipn app dot ret]).
  eexists. split; [reflexivity|].
  cbn [rotated_row affine app].
  repeat (constructor; [ring|]).
  apply Forall2_same. intros; reflexivity.
Qed.

Lemma map_M_rotate_long (m : matrix23) (l : list (list Q)) (g : rng) :
  Forall (fun r => (8 <= length r)%nat) l ->
  exists rs, map_M (rotate_box m) l g = Ok rs g
             /\ rows_eq rs (map (rotated_row m) l).
Proof.
  induction 1 as [|r l Hr _ (rs & Hrs & Heq)].
  - exists []. split; [reflexivity | constructor].
  - destruct (rotate_box_long m r g Hr) as (r' & Hr' & Hq).
    exists (r' :: rs). cbn [map_M map]. unfold bind. rewrite Hr', Hrs.
    split; [reflexivity | constructor; assumption].
Qed.

Lemma map_M_rotate_short (m : matrix23) (l : list (list Q)) (g : rng) :
  Exists (fun r => (length r < 8)%nat) l ->
  map_M (rotate_box m) l g = Raise ValueError.
Proof.
  induction l as [|r l IH]; intro H; [inversion H|].
  cbn [map_M]. unfold bind.
  destruct (le_lt_dec 8 (length r)) as [Hlong|Hshort].
  - destruct (rotate_box_long m r g Hlong) as (r' & Hr' & _). rewrite Hr'.
    inversion H as [? ? Hr|? ? Hl]; subst; [lia|].
    rewrite (IH Hl). reflexivity.
  - rewrite (rotate_box_short m r g Hshort). reflexivity.
Qed.

Lemma third_zero (u : Q) :
  0 <= u -> u < 1 -> (Qfloor (inject_Z 3 * u) = 0%Z <-> u < 1 # 3).
Proof.
  intros Hlo Hhi. change (inject_Z 3) with 3.
  pose proof (Qfloor_le (3 * u)) as H1.
  pose proof (Qlt_floor (3 * u)) as H2.
  rewrite inject_Z_plus in H2. change (inject_Z 1) with 1 in H2.
  split; intro H.
  - rewrite H in H2. change (inject_Z 0) with 0 in H2. lra.
  - assert (Hb : (Qfloor (3 * u) <= 0)%Z)
      by (apply Qfloor_below; change (inject_Z (0 + 1)) with 1; lra).
    pose proof (Qfloor_nonneg (3 * u) ltac:(lra)). lia.
Qed.

(** X18.  Rotate on a triple with geometry, by the first two draws u and v
    of the generator.  For u >= 1/3 the triple is returned as it is.  For
    u < 1/3 the angle is the integer -90 + floor(180 v), which lies in
    [-90, 90) and never is 90; if every row has at least eight entries the
    call returns the warped image, the labels as they are, and rows whose
    first four points are moved by the rotation matrix while further
    columns stay; if some row has fewer than eight entries the call raises
    ValueError. *)
Theorem Rotate_behaviour {cv : OpenCV} (mean : list Q) (im : image)
  (b : array2) (labels : option labels_t) (g : rng) :
  let u := frac (g 0%nat) in
  let angle := (-90 + Qfloor (inject_Z 180 * frac (g 1%nat)))%Z in
  let m := cv2_getRotationMatrix2D
             (Qofnat (width im) / 2, Qofnat (height im) / 2) angle 1 in
  (1 # 3 <= u ->
   Rotate_call mean (im, Some b, labels) g
   = Ok (im, Some b, labels) (rng_tail g))
  /\ (u < 1 # 3 ->
      (-90 <= angle < 90)%Z
      /\ (Forall (fun r => (8 <= length r)%nat) (rows b) ->
          exists rs,
            Rotate_call mean (im, Some b, labels) g
            = Ok (cv2_warpAffine im m (width im, height im) mean,
                  Some (mkArray2 (ncols b) rs), labels)
                 (rng_tail (rng_tail g))
            /\ rows_eq rs (map (rotated_row m) (rows b)))
      /\ (Exists (fun r => (length r < 8)%nat) (rows b) ->
          Rotate_call mean (im, Some b, labels) g = Raise ValueError)).
Proof.
  intros u angle m.
  destruct (frac_bounds (g 0%nat)) as [Hlo Hhi]. fold u in Hlo, Hhi.
  assert (Hk : randint 3 g = Ok (Qfloor (inject_Z 3 * u)) (rng_tail g))
    by reflexivity.
  assert (Ha : randint_range (-90) 90 (rng_tail g)
               = Ok angle (rng_tail (rng_tail g))) by reflexivity.
  unfold Rotate_call, shape, bind. rewrite Hk. split.
  - intro Hu. destruct (Qfloor (inject_Z 3 * u) =? 0)%Z eqn:E;
      [|reflexivity].
    apply Z.eqb_eq in E. apply (third_zero u Hlo Hhi) in E. lra.
  - intro Hu. apply (third_zero u Hlo Hhi) in Hu. rewrite Hu.
    cbn [Z.eqb]. rewrite Ha. fold m. split; [|split].
    + unfold angle. destruct (frac_bounds (g 1%nat)) as [Vlo Vhi].
      pose proof (Qfloor_nonneg (inject_Z 180 * frac (g 1%nat))
                    ltac:(change (inject_Z 180) with 180; lra)) as H0.
      assert (H1 : (Qfloor (inject_Z 180 * frac (g 1%nat)) <= 179)%Z).
      { apply Qfloor_below. change (inject_Z (179 + 1)) with 180.
        change (inject_Z 180) with 180. lra. }
      lia.
    + intro Hall.
      destruct (map_M_rotate_long m (rows b) (rng_tail (rng_tail g)) Hall)
        as (rs & Hrs & Heq).
      exists rs. rewrite Hrs. split; [reflexivity | exact Heq].
    + intro Hex.
      rewrite (map_M_rotate_short m (rows b) (rng_tail (rng_tail g)) Hex).
      reflexivity.
Qed.

Lemma Rotate_behaviour_witness :
  (exists rs,
      @Rotate_call cv_plain [104; 117; 123]
        (blank 4 4 3 0, Some (mkArray2 8 [poly_example]), Some [1%Z])
        (tape [1 # 4; 1 # 2])
      = Ok (blank 4 4 3 0, Some (mkArray2 8 rs), Some [1%Z])
           (rng_tail (rng_tail (tape [1 # 4; 1 # 2])))
      /\ rows_eq rs [poly_example])
  /\ @Rotate_call cv_plain [104; 117; 123]
       (blank 4 4 3 0, Some (mkArray2 4 [[10; 10; 50; 50]]), Some [1%Z])
       (tape [1 # 4; 1 # 2])
     = Raise ValueError
  /\ @Rotate_call cv_plain [104; 117; 123]
       (blank 4 4 3 0, Some (mkArray2 4 [[10; 10; 50; 50]]), Some [1%Z])
       (tape [1 # 2])
     = Ok (blank 4 4 3 0, Some (mkArray2 4 [[10; 10; 50; 50]]), Some [1%Z])
          (rng_tail (tape [1 # 2])).
Proof.
  split; [|split].
  - destruct (proj1 (proj2 (proj2
      (@Rotate_behaviour cv_plain [104; 117; 123] (blank 4 4 3 0)
         (mkArray2 8 [poly_example]) (Some [1%Z]) (tape [1 # 4; 1 # 2]))
      eq_refl)) ltac:(repeat constructor)) as (rs & Hrun & Heq).
    exists rs. split; [exact Hrun|].
    refine (eq_ind _ (rows_eq rs) Heq _ _). vm_compute. reflexivity.
  - refine (proj2 (proj2 (proj2
      (@Rotate_behaviour cv_plain [104; 117; 123] (blank 4 4 3 0)
         (mkArray2 4 [[10; 10; 50; 50]]) (Some [1%Z]) (tape [1 # 4; 1 # 2]))
      eq_refl)) _).
    constructor. simpl. lia.
  - refine (proj1
      (@Rotate_behaviour cv_plain [104; 117; 123] (blank 4 4 3 0)
         (mkArray2 4 [[10; 10; 50; 50]]) (Some [1%Z]) (tape [1 # 2])) _).
    vm_compute. discriminate.
Defined.

(** ** The output of the inference preset *)

Lemma rectangular_map (F : list Q -> list Q) (h w c c' : nat) (im : image) :
  (forall px, length px = c -> length (F px) = c') ->
  rectangular h w c im -> rectangular h w c' (map (map F) im).
Proof.
  intros HF [Hlen Hrows]. split; [rewrite length_map; exact Hlen|].
  apply Forall_map. revert Hrows. apply Forall_impl. intros row [Hw Hpx].
  split; [rewrite length_map; exact Hw|].
  apply Forall_map. revert Hpx. apply Forall_impl. exact HF.
Qed.

Lemma nth_map_pixel (F : list Q -> list Q) (im : image) (y x : nat) :
  F [] = [] ->
  nth x (nth y (map (map F) im) []) [] = F (nth x (nth y im []) []).
Proof.
  intro HF.
  assert (E1 : nth y (map (map F) im) [] = map F (nth y im []))
    by exact (map_nth (map F) im [] y).
  rewrite E1. rewrite <- HF at 1. apply map_nth.
Qed.

Lemma rectangular_pixel_length (h w c : nat) (im : image) (y x : nat) :
  rectangular h w c im -> (y < h)%nat -> (x < w)%nat ->
  length (nth x (nth y im []) []) = c.
Proof.
  intros [Hlen Hrows] Hy Hx. rewrite Forall_forall in Hrows.
  destruct (Hrows (nth y im [])) as [Hw Hpx];
    [apply nth_In; lia|].
  rewrite Forall_forall in Hpx. apply Hpx. apply nth_In. lia.
Qed.

Lemma shape_map_pixels (f : Q -> Q) (im : image) :
  height (map_pixels f im) = height im
  /\ width (map_pixels f im) = width im.
Proof.
  unfold height, width, map_pixels. split; [apply length_map|].
  destruct im as [|row im]; [reflexivity | apply length_map].
Qed.

(** X19.  The output of the inference preset without annotations.  Given a
    [cv2.resize] that returns a size x size image with the channels of its
    source, the preset on a non-empty three-channel image returns, without
    a draw, a 3 x size x size tensor whose entry [k, y, x] is the entry
    [y, x, k] of the resized image divided by 255, less the k-th default
    mean, divided by the k-th default deviation; geometry and labels come
    back as [None]. *)
Theorem inference_preset_output {cv : OpenCV} (fuel size : nat)
  (mean : list Q) (h w : nat) (im : image) (l : option labels_t) (g : rng) :
  resize_returns cv ->
  rectangular h w 3 im -> (0 < h)%nat -> (0 < w)%nat -> (0 < size)%nat ->
  exists dst t,
    cv2_resize (astype_uint8 im) (size, size) INTER_CUBIC = Some dst
    /\ call fuel (Augmentation_inference size mean) (im, None, l) g
       = Ok (t, None, None) g
    /\ rectangular 3 size size t
    /\ forall k y x,
        (k < 3)%nat -> (y < size)%nat -> (x < size)%nat ->
        pixel t k y x
        = (pixel dst y x k / 255
           - nth k [485 # 1000; 456 # 1000; 406 # 1000] 0)
          / nth k [229 # 1000; 224 # 1000; 225 # 1000] 0.
Proof.
  intros Hcv Hrect Hh Hw Hs.
  pose proof (rectangular_depth _ _ _ _ Hrect Hh Hw) as Hd.
  pose proof (rectangular_width _ _ _ _ Hrect Hh) as Hwd.
  destruct (shape_map_pixels (fun v => inject_Z (py_int v mod 256)) im)
    as [Eh Ew].
  destruct (Hcv (astype_uint8 im) size Hs) as (dst & Hres & Hdst).
  { unfold astype_uint8. rewrite Eh. destruct Hrect as [Hlen _].
    unfold height. lia. }
  { unfold astype_uint8. rewrite Ew. lia. }
  unfold astype_uint8 in Hdst. rewrite depth_map_pixels, Hd in Hdst.
  set (m := [485 # 1000; 456 # 1000; 406 # 1000]).
  set (s := [229 # 1000; 224 # 1000; 225 # 1000]).
  set (im1 := map_pixels (fun v => v / 255) dst).
  set (im2 := map (map (fun px => zip_with Qminus px m)) im1).
  set (im3 := map (map (fun px => zip_with Qdiv px s)) im2).
  assert (R1 : rectangular size size 3 im1).
  { apply (rectangular_map (map (fun v => v / 255)) size size 3 3 dst);
      [intros px Hpx; rewrite length_map; exact Hpx | exact Hdst]. }
  assert (R2 : rectangular size size 3 im2).
  { apply (rectangular_map (fun px => zip_with Qminus px m) size size 3 3 im1);
      [|exact R1].
    intros [|a [|b [|c [|]]]] Hpx; try discriminate Hpx. reflexivity. }
  assert (R3 : rectangular size size 3 im3).
  { apply (rectangular_map (fun px => zip_with Qdiv px s) size size 3 3 im2);
      [|exact R2].
    intros [|a [|b [|c [|]]]] Hpx; try discriminate Hpx. reflexivity. }
  pose proof (rectangular_depth _ _ _ _ R1 Hs Hs) as D1.
  pose proof (rectangular_depth _ _ _ _ R2 Hs Hs) as D2.
  exists dst, (permute_201 im3).
  split; [exact Hres|]. split; [|split].
  - assert (E1 : Resize_call size (im, None, l) g = Ok (dst, None, l) g).
    { unfold Resize_call, shape, bind, ret. rewrite Hres. reflexivity. }
    assert (E2 : Normalize_call m s (dst, None, l) g = Ok (im3, None, l) g).
    { unfold Normalize_call, bind. fold im1. rewrite D1.
      change (broadcast_channels m 3 g) with (Ok m g). cbv beta iota.
      fold im2. rewrite D2.
      change (broadcast_channels s 3 g) with (Ok s g). reflexivity. }
    cbn [call Compose_call call_unit Normalize_default]. unfold bind.
    cbn [ConvertFromInts_call]. unfold ret at 1. rewrite E1.
    fold m s. rewrite E2. reflexivity.
  - apply (permute_201_rectangular size size 3 im3 R3 Hs Hs).
  - intros k y x Hk Hy Hx.
    rewrite permute_201_pixel
      by (rewrite (rectangular_depth _ _ _ _ R3 Hs Hs); exact Hk).
    unfold im3, im2, im1, map_pixels, pixel.
    rewrite !nth_map_pixel by reflexivity.
    pose proof (rectangular_pixel_length _ _ _ _ _ _ Hdst Hy Hx) as Hpx.
    destruct (nth x (nth y dst []) []) as [|a [|b [|c [|]]]];
      try discriminate Hpx.
    destruct k as [|[|[|k]]]; [reflexivity | reflexivity | reflexivity | lia].
Qed.

Lemma inference_preset_output_witness :
  exists dst t,
    @cv2_resize cv_plain (astype_uint8 (blank 4 6 3 200)) (2%nat, 2%nat)
                INTER_CUBIC = Some dst
    /\ @call cv_plain 0 (Augmentation_inference 2 [104; 117; 123])
         (blank 4 6 3 200, None, None) (tape [])
       = Ok (t, None, None) (tape [])
    /\ rectangular 3 2 2 t
    /\ forall k y x,
        (k < 3)%nat -> (y < 2)%nat -> (x < 2)%nat ->
        pixel t k y x
        = (pixel dst y x k / 255
           - nth k [485 # 1000; 456 # 1000; 406 # 1000] 0)
          / nth k [229 # 1000; 224 # 1000; 225 # 1000] 0.
Proof.
  apply (@inference_preset_output cv_plain 0 2 [104; 117; 123] 4 6
           (blank 4 6 3 200) None (tape [])).
  - intros src n Hn Hsh Hsw. eexists. split; [reflexivity|].
    apply blank_rectangular.
  - apply blank_rectangular.
  - lia.
  - lia.
  - lia.
Defined.

(** ** The copy loop of the weight script *)

Lemma getitem_setitem_eq (tensor : Type) (k : string) (v : tensor)
  (d : state_dict tensor) :
  getitem (setitem k v d) k = Some v.
Proof.
  induction d as [|[k' v'] d IH]; cbn [setitem getitem].
  - rewrite String.eqb_refl. reflexivity.
  - destruct (k' =? k)%string eqn:E; cbn [getitem].
    + rewrite String.eqb_refl. reflexivity.
    + rewrite E. exact IH.
Qed.

Lemma getitem_setitem_neq (tensor : Type) (k k' : string) (v : tensor)
  (d : state_dict tensor) :
  k <> k' -> getitem (setitem k v d) k' = getitem d k'.
Proof.
  intro Hne. induction d as [|[k1 v1] d IH]; cbn [setitem getitem].
  - destruct (k =? k')%string eqn:E; [|reflexivity].
    apply String.eqb_eq in E. contradiction.
  - destruct (k1 =? k)%string eqn:E; cbn [getitem].
    + apply String.eqb_eq in E. subst k1.
      destruct (k =? k')%string eqn:E'; [|reflexivity].
      apply String.eqb_eq in E'. contradiction.
    + destruct (k1 =? k')%string; [reflexivity | exact IH].
Qed.

Lemma getitem_In (tensor : Type) (d : state_dict tensor) (k : string)
  (v : tensor) :
  NoDup (keys d) -> In (k, v) d -> getitem d k = Some v.
Proof.
  induction d as [|[k1 v1] d IH]; intros Hnd Hin; [contradiction|].
  cbn [keys map fst] in Hnd. inversion Hnd as [|? ? Hnot Hnd']; subst.
  cbn [getitem]. destruct Hin as [E|Hin].
  - inversion E; subst. rewrite String.eqb_refl. reflexivity.
  - destruct (k1 =? k)%string eqn:E.
    + apply String.eqb_eq in E. subst k1. exfalso. apply Hnot.
      change k with (fst (k, v)). apply in_map. exact Hin.
    + exact (IH Hnd' Hin).
Qed.

(** The loop on keys that [d] holds, up to the first one with the mark. *)
Lemma copy_keys_run (tensor : Type) (d : state_dict tensor)
  (pk rest : list string) :
  Forall (fun k => contains "last_linear" k = false) pk ->
  (forall k, In k pk -> getitem d k <> None) ->
  rest = [] \/ (exists k0 rest', rest = k0 :: rest'
                                 /\ contains "last_linear" k0 = true) ->
  forall dd,
  exists dd',
    copy_keys d (pk ++ rest) dd = Some dd'
    /\ (forall k, In k pk -> getitem dd' k = getitem d k)
    /\ (forall k, ~ In k pk -> getitem dd' k = getitem dd k).
Proof.
  intros Hpk Hd Hrest. induction pk as [|k1 pk IH]; intro dd.
  - exists dd. cbn [app]. split.
    + destruct Hrest as [->|(k0 & rest' & -> & Hk0)]; cbn [copy_keys];
        [|rewrite Hk0]; reflexivity.
    + split; [intros k []| reflexivity].
  - inversion Hpk as [|? ? Hk1 Hpk']; subst.
    cbn [app copy_keys]. rewrite Hk1.
    destruct (getitem d k1) as [v1|] eqn:E1;
      [|exfalso; apply (Hd k1); [left; reflexivity | exact E1]].
    destruct (IH Hpk' (fun k Hk => Hd k (or_intror Hk)) (setitem k1 v1 dd))
      as (dd' & Hrun & Hin & Hout).
    exists dd'. split; [exact Hrun|]. split.
    + intros k Hk. destruct (in_dec string_dec k pk) as [Hk'|Hk'];
        [exact (Hin k Hk')|].
      destruct Hk as [<-|Hk]; [|contradiction].
      rewrite (Hout k1 Hk'), getitem_setitem_eq. symmetry. exact E1.
    + intros k Hk. rewrite (Hout k (fun H => Hk (or_intror H))).
      apply getitem_setitem_neq. intros ->. apply Hk. left. reflexivity.
Qed.

(** X20.  The loop of [get_state_dict.py] that fills the backbone's state
    from the pretrained one.  Let the pretrained dict be the items [pre]
    followed by [post], where no key of [pre] contains "last_linear" and
    [post] is empty or starts with a key that does.  The loop ends without
    a KeyError; afterwards every item of [pre] is in the backbone's state
    with its pretrained tensor, and every other key maps to what it did
    before.  So the loop stops at the first marked key: the items after it
    are not copied, whatever their names. *)
Theorem copy_pretrained_stops_at_mark (tensor : Type)
  (pre post dd : state_dict tensor) :
  NoDup (keys (pre ++ post)) ->
  Forall (fun k => contains "last_linear" k = false) (keys pre) ->
  post = [] \/ (exists k0 v0 post', post = (k0, v0) :: post'
                                    /\ contains "last_linear" k0 = true) ->
  exists dd',
    copy_pretrained (pre ++ post) dd = Some dd'
    /\ (forall k v, In (k, v) pre -> getitem dd' k = Some v)
    /\ (forall k, ~ In k (keys pre) -> getitem dd' k = getitem dd k).
Proof.
  intros Hnd Hpre Hpost.
  assert (Hlook : forall k v, In (k, v) pre ->
                              getitem (pre ++ post) k = Some v).
  { intros k v Hin. apply getitem_In; [exact Hnd|].
    apply in_or_app. left. exact Hin. }
  destruct (copy_keys_run tensor (pre ++ post) (keys pre) (keys post) Hpre)
    with (dd := dd) as (dd' & Hrun & Hin & Hout).
  - intros k Hk. unfold keys in Hk. apply in_map_iff in Hk.
    destruct Hk as ([k' v] & <- & Hkv). cbn [fst].
    rewrite (Hlook _ _ Hkv). discriminate.
  - destruct Hpost as [->|(k0 & v0 & post' & -> & Hk0)];
      [left; reflexivity|].
    right. exists k0, (keys post'). split; [reflexivity | exact Hk0].
  - exists dd'. unfold copy_pretrained, keys. rewrite map_app.
    split; [exact Hrun|]. split; [|exact Hout].
    intros k v Hkv. rewrite Hin; [exact (Hlook _ _ Hkv)|].
    unfold keys. change k with (fst (k, v)). apply in_map. exact Hkv.
Qed.

Lemma copy_pretrained_stops_at_mark_witness :
  exists dd',
    copy_pretrained
      ([("conv1.weight"%string, 1%nat); ("layer1.0.bias"%string, 2%nat)]
       ++ [("last_linear.weight"%string, 3%nat);
           ("extra.weight"%string, 4%nat)])
      [("conv1.weight"%string, 0%nat); ("extra.weight"%string, 0%nat)]
    = Some dd'
    /\ (forall k v,
           In (k, v) [("conv1.weight"%string, 1%nat);
                      ("layer1.0.bias"%string, 2%nat)]
           -> getitem dd' k = Some v)
    /\ (forall k,
           ~ In k (keys [("conv1.weight"%string, 1%nat);
                         ("layer1.0.bias"%string, 2%nat)]) ->
           getitem dd' k
           = getitem [("conv1.weight"%string, 0%nat);
                      ("extra.weight"%string, 0%nat)] k).
Proof.
  apply (copy_pretrained_stops_at_mark nat).
  - cbn [keys map fst app].
    repeat (constructor; [cbn [In]; intuition discriminate|]). constructor.
  - repeat constructor.
  - right. eexists _, _, _. split; reflexivity.
Defined.

(** ** The saturation jitter *)

Lemma nth_set_nth {A} (l : list A) (i k : nat) (v d : A) :
  (i < length l)%nat ->
  nth k (set_nth i v l) d = if (k =? i)%nat then v else nth k l d.
Proof.
  revert i k. induction l as [|a l IH]; intros i k Hi; [simpl in Hi; lia|].
  destruct i as [|i]; destruct k as [|k]; cbn [set_nth nth Nat.eqb];
    try reflexivity.
  apply IH. simpl in Hi. lia.
Qed.

Lemma pixel_map_pixels (f : Q -> Q) (im : image) (y x k : nat) :
  f 0 = 0 -> pixel (map_pixels f im) y x k = f (pixel im y x k).
Proof.
  intro Hf. unfold pixel, map_pixels.
  rewrite (nth_map_pixel (map f)) by reflexivity.
  rewrite <- Hf at 1. apply map_nth.
Qed.

(** X21.  RandomSaturation when the coin takes the branch, on a non-empty
    image with at least two channels: the call returns after one more draw,
    with geometry and labels as they were; channel 1 is multiplied by the
    drawn factor and then every channel, not channel 1 alone, is cut to
    [0,255], so that a hue above 255 comes back as 255.  With fewer than two
    channels the call raises IndexError. *)
Theorem RandomSaturation_clamps_all_channels (lower upper : Q) (h w c : nat)
  (im : image) (b : option array2) (l : option labels_t) (g : rng) :
  rectangular h w c im -> (0 < h)%nat -> (0 < w)%nat -> coin g <> 0%Z ->
  ((2 <= c)%nat ->
   exists im',
     RandomSaturation_call lower upper (im, b, l) g
     = Ok (im', b, l) (rng_tail (rng_tail g))
     /\ in_range 0 255 im'
     /\ forall y x k,
         (y < h)%nat -> (x < w)%nat -> (k < c)%nat ->
         pixel im' y x k
         = clamp_lo (clamp_hi
             (if (k =? 1)%nat
              then pixel im y x k * uniform_value lower upper (rng_tail g)
              else pixel im y x k)))
  /\ ((c < 2)%nat ->
      RandomSaturation_call lower upper (im, b, l) g = Raise IndexError).
Proof.
  intros Hrect Hh Hw Hcoin.
  pose proof (rectangular_depth _ _ _ _ Hrect Hh Hw) as Hd.
  unfold RandomSaturation_call, bind.
  rewrite randint2, (coin_taken _ Hcoin), uniform_run.
  fold (uniform_value lower upper (rng_tail g)).
  set (a := uniform_value lower upper (rng_tail g)).
  unfold map_channel. rewrite Hd. split.
  - intro Hc. destruct (1 <? c)%nat eqn:E; [|apply Nat.ltb_ge in E; lia].
    unfold ret. eexists. split; [reflexivity|].
    split; [apply clamp_image_range|].
    intros y x k Hy Hx Hk. unfold clamp_image.
    rewrite !pixel_map_pixels by reflexivity. do 2 f_equal.
    unfold pixel.
    rewrite (nth_map_pixel (fun px => set_nth 1 (nth 1 px 0 * a) px))
      by reflexivity.
    pose proof (rectangular_pixel_length _ _ _ _ _ _ Hrect Hy Hx) as Hpx.
    rewrite nth_set_nth by lia.
    destruct (k =? 1)%nat eqn:Ek; [|reflexivity].
    apply Nat.eqb_eq in Ek. subst k. reflexivity.
  - intro Hc. destruct (1 <? c)%nat eqn:E; [apply Nat.ltb_lt in E; lia|].
    reflexivity.
Qed.

Lemma RandomSaturation_clamps_all_channels_witness :
  (exists im',
      RandomSaturation_call (1 # 2) (3 # 2) ([ [ [300; 100; 50] ] ], None, None)
        (tape [3 # 4; 1 # 2])
      = Ok (im', None, None) (rng_tail (rng_tail (tape [3 # 4; 1 # 2])))
      /\ in_range 0 255 im'
      /\ pixel im' 0 0 0 = 255)
  /\ RandomSaturation_call (1 # 2) (3 # 2) ([ [ [300] ] ], None, None)
       (tape [3 # 4; 1 # 2])
     = Raise IndexError.
Proof.
  split.
  - destruct (proj1 (RandomSaturation_clamps_all_channels (1 # 2) (3 # 2)
                       1 1 3 [ [ [300; 100; 50] ] ] None None
                       (tape [3 # 4; 1 # 2])
                       ltac:(split; [reflexivity | repeat constructor])
                       ltac:(lia) ltac:(lia)
                       ltac:(vm_compute; discriminate))
                    ltac:(lia)) as (im' & Hrun & Hrange & Hpx).
    exists im'. split; [exact Hrun|]. split; [exact Hrange|].
    rewrite (Hpx 0%nat 0%nat 0%nat) by lia. reflexivity.
  - refine (proj2 (RandomSaturation_clamps_all_channels (1 # 2) (3 # 2)
                     1 1 1 [ [ [300] ] ] None None (tape [3 # 4; 1 # 2])
                     _ _ _ _) _);
      [split; [reflexivity | repeat constructor] | lia | lia
      | vm_compute; discriminate | lia].
Defined.

(** ** The training preset without geometry *)

Lemma PhotometricDistort_annotations {cv : OpenCV} (fuel : nat)
  (im : image) (b : option array2) (l : option labels_t) (g : rng)
  (im' : image) (b' : option array2) (l' : option labels_t) (g' : rng) :
  PhotometricDistort_call fuel (im, b, l) g = Ok (im', b', l') g' ->
  b' = b /\ l' = l.
Proof.
  intro H. unfold PhotometricDistort_call, bind in H.
  destruct (RandomBrightness_call 16 (im, b, l) g)
    as [[[im1 b1] l1] g1| |] eqn:E1; try discriminate H.
  destruct (pixel_units_keep_annotations fuel (RandomBrightness 16)
              im b l g im1 b1 l1 g1 eq_refl E1) as [-> ->].
  destruct (randint 2 g1) as [c g2| |]; try discriminate H.
  match type of H with
  | match ?run with Ok _ _ => _ | Raise _ => _ | Spin => _ end = _ =>
      destruct run as [[[im2 b2] l2] g3| |] eqn:E2; try discriminate H
  end.
  unfold ret in H. inversion H; subst.
  destruct (negb (c =? 0)%Z).
  - exact (pixel_chain_keeps_annotations fuel
             (py_slice None (Some (-1)%Z) pd) eq_refl
             im1 b l g2 im2 b' l' g' E2).
  - exact (pixel_chain_keeps_annotations fuel
             (py_slice (Some 1%Z) None pd) eq_refl
             im1 b l g2 im2 b' l' g' E2).
Qed.

Lemma PhotometricDistort_rejects {cv : OpenCV} (fuel : nat) (im : image)
  (b : option array2) (l : option labels_t) (g : rng) :
  cvt_needs_three cv -> (depth im < 3)%nat ->
  PhotometricDistort_call fuel (im, b, l) g = Raise CvError.
Proof.
  intros Hcv Hd. unfold PhotometricDistort_call, bind.
  destruct (RandomBrightness_total 16 im b l g) as (im1 & g1 & E1 & D1).
  rewrite E1, randint2.
  destruct (coin g1 =? 0)%Z; cbn [negb].
  - change (py_slice (Some 1%Z) None pd) with chain_contrast_last.
    unfold chain_contrast_last.
    cbn [map call_unit Compose_call]. unfold bind.
    rewrite ConvertColor_BGR_HSV, (Hcv im1 COLOR_BGR2HSV) by lia.
    reflexivity.
  - change (py_slice None (Some (-1)%Z) pd) with chain_contrast_first.
    unfold chain_contrast_first.
    cbn [map call_unit Compose_call]. unfold bind.
    destruct (RandomContrast_total (1 # 2) (3 # 2) im1 b l (rng_tail g1))
      as (im2 & g2 & E2 & D2).
    rewrite E2, ConvertColor_BGR_HSV, (Hcv im2 COLOR_BGR2HSV) by lia.
    reflexivity.
Qed.

(** X22.  The training preset cannot run without geometry.  With a colour
    conversion that takes three channels to three channels, on an image of
    three channels the photometric stage returns and the polygon cropper
    then raises TypeError at [len(boxes)]: the preset called with
    [boxes = None] raises TypeError for every generator and every label
    argument.  On an image with fewer than three channels the colour
    conversion refuses the image and the preset raises [cv2.error] in the
    photometric stage, whatever the geometry is. *)
Theorem training_preset_needs_geometry {cv : OpenCV} (fuel size : nat)
  (mean : list Q) (im : image) (l : option labels_t) (g : rng) :
  (cvt_three_channels cv -> depth im = 3%nat ->
   call (S fuel) (Augmentation_traininig size mean) (im, None, l) g
   = Raise TypeError)
  /\ (cvt_needs_three cv -> (depth im < 3)%nat ->
      forall b,
        call fuel (Augmentation_traininig size mean) (im, b, l) g
        = Raise CvError).
Proof.
  split.
  - intros Hcv Hd. cbn [call Compose_call call_unit]. unfold bind.
    cbn [ConvertFromInts_call]. unfold ret at 1.
    destruct (PhotometricDistort_returns (S fuel) im None l g Hcv Hd)
      as ([[im1 b1] l1] & g1 & Hrun).
    rewrite Hrun.
    destruct (PhotometricDistort_annotations _ _ _ _ _ _ _ _ _ Hrun)
      as [-> ->].
    unfold RandomSampleCropPoly_call. cbn [while_true]. unfold bind.
    unfold RandomSampleCropPoly_pass, bind.
    destruct (choice_poly_run g1) as (mode & ->).
    reflexivity.
  - intros Hcv Hd b. cbn [call Compose_call call_unit]. unfold bind.
    cbn [ConvertFromInts_call]. unfold ret at 1.
    rewrite (PhotometricDistort_rejects fuel im b l g Hcv Hd). reflexivity.
Qed.

Lemma training_preset_needs_geometry_witness :
  @call cv_plain 1 (Augmentation_traininig 300 [104; 117; 123])
    (blank 4 4 3 100, None, None) (tape [1 # 4; 3 # 4; 1 # 2])
  = Raise TypeError
  /\ @call cv_plain 1 (Augmentation_traininig 300 [104; 117; 123])
       (blank 4 4 1 100, Some (mkArray2 8 [poly_example]), Some [1%Z])
       (tape [1 # 4; 3 # 4; 1 # 2])
     = Raise CvError.
Proof.
  split.
  - apply (proj1 (@training_preset_needs_geometry cv_plain 0 300
                    [104; 117; 123] (blank 4 4 3 100) None
                    (tape [1 # 4; 3 # 4; 1 # 2]))).
    + intros src code H. exists src. split; [|exact H].
      cbn [cv2_cvtColor cv_plain]. rewrite H. reflexivity.
    + reflexivity.
  - apply (proj2 (@training_preset_needs_geometry cv_plain 1 300
                    [104; 117; 123] (blank 4 4 1 100) (Some [1%Z])
                    (tape [1 # 4; 3 # 4; 1 # 2]))).
    + intros src code H. cbn [cv2_cvtColor cv_plain].
      destruct (depth src =? 3)%nat eqn:E; [|reflexivity].
      apply Nat.eqb_eq in E. lia.
    + vm_compute. lia.
Defined.

(** ** A polygon crop that never ends *)

Lemma never_first_tail (g : rng) :
  never_first_of_six g -> never_first_of_six (rng_tail g).
Proof. intros H n. exact (H (S n)). Qed.

Lemma Forall2_Forall_r {A B} (P : B -> Prop) (l : list A) (l' : list B) :
  Forall2 (fun _ b => P b) l l' -> Forall P l'.
Proof. induction 1; constructor; assumption. Qed.

Lemma bounding_rects_shape (b : array2) (g : rng) :
  (2 <= ncols b)%nat ->
  exists rs,
    bounding_rects (Some b) g = Ok (mkArray2 4 rs) g
    /\ length rs = length (rows b)
    /\ Forall (fun r => length r = 4%nat) rs.
Proof.
  intro Hn.
  destruct (bounding_rects_run b g (or_introl Hn)) as (rs & Hrun & Hlen).
  exists rs. split; [exact Hrun|]. split; [exact Hlen|].
  unfold bounding_rects, bind in Hrun.
  match type of Hrun with
  | match ?run with Ok _ _ => _ | Raise _ => _ | Spin => _ end = _ =>
      destruct run as [rs' g1| |] eqn:E; try discriminate Hrun
  end.
  unfold ret in Hrun. inversion Hrun; subst rs' g1. clear Hrun.
  apply (Forall2_Forall_r (fun r => length r = 4%nat) (rows b)).
  refine (map_M_Forall2 _ _ _ _ _ _ _ E). clear E.
  intros r g1 rect g2 H. unfold bind in H.
  repeat match type of H with
         | match ?run with Ok _ _ => _ | Raise _ => _ | Spin => _ end = _ =>
             destruct run as [? ?| |]; try discriminate H
         end.
  unfold ret in H. inversion H. reflexivity.
Qed.

Lemma randint_run (n : Z) (g : rng) :
  (0 < n)%Z ->
  randint n g = Ok (Qfloor (inject_Z n * frac (g 0%nat))) (rng_tail g).
Proof.
  intro Hn. unfold randint, randint_range.
  destruct (n <=? 0)%Z eqn:E; [apply Z.leb_le in E; lia|].
  unfold bind, random_sample, ret. rewrite Z.sub_0_r, Z.add_0_l. reflexivity.
Qed.

(** With the first option excluded, the drawn mode asks for at least one
    object inside. *)
Lemma choice_poly_bounded (g : rng) :
  never_first_of_six g ->
  exists k, 1 <= k
            /\ choice RandomSampleCropPoly_options None g
               = Ok (Some (Some k, None)) (rng_tail g).
Proof.
  intro H. specialize (H 0%nat).
  destruct (frac_bounds (g 0%nat)) as [_ Hhi].
  unfold choice, bind.
  change (Z.of_nat (length RandomSampleCropPoly_options)) with 6%Z.
  rewrite (randint_run 6 g) by lia. unfold ret.
  set (u := frac (g 0%nat)) in *.
  assert (Hz : (1 <= Qfloor (inject_Z 6 * u) <= 5)%Z).
  { change (inject_Z 6) with 6. split.
    - change 1%Z with (Qfloor 1). apply Qfloor_resp_le. lra.
    - apply Qfloor_below. change (inject_Z (5 + 1)) with 6. lra. }
  set (z := Qfloor (inject_Z 6 * u)) in *. clearbody z.
  assert (Hc : (z = 1 \/ z = 2 \/ z = 3 \/ z = 4 \/ z = 5)%Z) by lia.
  destruct Hc as [-> | [-> | [-> | [-> | ->]]]]; eexists;
    (split; [|reflexivity]); cbv; discriminate.
Qed.

Lemma sample_rect_returns (im : image) (g : rng) :
  (0 < width im)%nat -> never_first_of_six g ->
  exists r g',
    sample_rect (1 # 10) im g = Ok r g'
    /\ never_first_of_six g'
    /\ (r = None \/ exists a b c d, r = Some [a; b; c; d]).
Proof.
  intros Hw Hg. unfold sample_rect, shape, bind.
  rewrite uniform_run. cbv beta iota. rewrite uniform_run. cbv beta iota.
  pose proof (Qofnat_pos _ Hw) as Pw.
  destruct (frac_bounds (g 0%nat)) as [Ulo Uhi].
  set (w := (1 # 10) * Qofnat (width im)
            + (Qofnat (width im) - (1 # 10) * Qofnat (width im))
              * frac (g 0%nat)).
  assert (Hpos : 0 < w) by (unfold w; nra).
  rewrite (Qeq_bool_false w) by lra.
  match goal with
  | |- context [if ?c then _ else _] => destruct c
  end.
  - eexists _, _. split; [reflexivity|].
    split; [apply never_first_tail, never_first_tail, Hg | left; reflexivity].
  - rewrite uniform_run. cbv beta iota. rewrite uniform_run. cbv beta iota.
    eexists _, _. split; [reflexivity|]. split.
    + do 4 apply never_first_tail. exact Hg.
    + right. eexists _, _, _, _. reflexivity.
Qed.

(** With at most one object no trial of a bounded mode succeeds. *)
Lemma RandomSampleCropPoly_trial_refused (k : Q) (rs : list (list Q))
  (x : triple) (g : rng) :
  1 <= k -> (length rs <= 1)%nat ->
  Forall (fun r => length r = 4%nat) rs ->
  (0 < width (image_of x))%nat -> never_first_of_six g ->
  exists g',
    RandomSampleCropPoly_trial (Fin k) PInf (mkArray2 4 rs) x g = Ok None g'
    /\ never_first_of_six g'.
Proof.
  intros Hk Hlen Hrs Hw Hg. destruct x as [[im b] l]. cbn [image_of fst] in Hw.
  unfold RandomSampleCropPoly_trial, bind.
  destruct (sample_rect_returns im g Hw Hg) as (r & g' & -> & Hg' & Hr).
  destruct Hr as [->|(a & b0 & c & d & ->)].
  - exists g'. split; [reflexivity | exact Hg'].
  - cbn [rect_q map]. rewrite (modified_jaccard_rows rs _ _ _ _ g' Hrs).
    set (ov := map _ rs).
    assert (Hcount : (length (filter (fl_ltb (Fin (9 # 10))) ov) <= 1)%nat).
    { pose proof (filter_length_le (fl_ltb (Fin (9 # 10))) ov) as H1.
      unfold ov in H1 at 2. rewrite length_map in H1. lia. }
    set (c0 := length (filter (fl_ltb (Fin (9 # 10))) ov)) in *.
    clearbody c0.
    assert (Hle : fl_leb (Fin (Qofnat c0)) (Fin k) = true).
    { cbn [fl_leb]. apply Qle_bool_iff.
      assert (Hc : c0 = 0%nat \/ c0 = 1%nat) by lia.
      destruct Hc as [-> | ->].
      - change (Qofnat 0) with 0. lra.
      - change (Qofnat 1) with 1. exact Hk. }
    rewrite Hle. cbn [orb]. exists g'. split; [reflexivity | exact Hg'].
Qed.

Lemma trials_refused (k : Q) (rs : list (list Q)) (x : triple) (n : nat) :
  1 <= k -> (length rs <= 1)%nat ->
  Forall (fun r => length r = 4%nat) rs ->
  (0 < width (image_of x))%nat ->
  forall g, never_first_of_six g ->
  exists g',
    trials n (RandomSampleCropPoly_trial (Fin k) PInf (mkArray2 4 rs) x) g
    = Ok None g'
    /\ never_first_of_six g'.
Proof.
  intros Hk Hlen Hrs Hw. induction n as [|n IH]; intros g Hg.
  - exists g. split; [reflexivity | exact Hg].
  - cbn [trials]. unfold bind.
    destruct (RandomSampleCropPoly_trial_refused k rs x g Hk Hlen Hrs Hw Hg)
      as (g1 & -> & Hg1).
    exact (IH g1 Hg1).
Qed.

(** X23.  A polygon crop that never ends.  RandomSampleCropPoly leaves its
    [while True] only through the mode None or a successful trial.  On an
    image of positive width with exactly one object (of at least two
    columns) no trial succeeds, so with a generator that never draws the
    first of the six modes every pass of the loop ends without a result:
    the call uses up every budget of passes. *)
Theorem RandomSampleCropPoly_spins (fuel : nat) (im : image) (b : array2)
  (l : option labels_t) (g : rng) :
  length (rows b) = 1%nat -> (2 <= ncols b)%nat -> (0 < width im)%nat ->
  never_first_of_six g ->
  RandomSampleCropPoly_call fuel (im, Some b, l) g = Spin.
Proof.
  intros Hrows Hn Hw. unfold RandomSampleCropPoly_call.
  revert g. induction fuel as [|fuel IH]; intros g Hg; [reflexivity|].
  cbn [while_true]. unfold bind.
  assert (Hpass : exists g', RandomSampleCropPoly_pass (im, Some b, l) g
                             = Ok None g' /\ never_first_of_six g').
  { unfold RandomSampleCropPoly_pass, bind.
    destruct (choice_poly_bounded g Hg) as (k & Hk & ->).
    destruct (bounding_rects_shape b (rng_tail g) Hn)
      as (rs & -> & Hlen & Hrs).
    cbn [rows lower_bound upper_bound].
    destruct (length rs =? 0)%nat eqn:E;
      [apply Nat.eqb_eq in E; lia|].
    apply trials_refused; try assumption; [lia|].
    apply never_first_tail. exact Hg. }
  destruct Hpass as (g' & -> & Hg'). exact (IH g' Hg').
Qed.

Lemma RandomSampleCropPoly_spins_witness :
  RandomSampleCropPoly_call 3
    (blank 50 50 3 0, Some (mkArray2 8 [poly_example]), Some [1%Z])
    (fun _ => 1 # 2)
  = Spin.
Proof.
  apply RandomSampleCropPoly_spins.
  - reflexivity.
  - simpl. lia.
  - vm_compute. lia.
  - intro n. vm_compute. discriminate.
Defined.

(** ** What the training preset returns *)

Lemma Resize_some {cv : OpenCV} (size : nat) (im : image) (b : array2)
  (l : option labels_t) (g : rng) (im' : image) (ob : option array2)
  (l' : option labels_t) (g' : rng) :
  Resize_call size (im, Some b, l) g = Ok (im', ob, l') g' ->
  exists b', ob = Some b'.
Proof.
  intro H. unfold Resize_call, shape, bind in H.
  destruct ((width im =? 0)%nat || (height im =? 0)%nat);
    [discriminate H|].
  destruct (scale_boxes _ b g) as [b1 g1| |]; try discriminate H.
  unfold ret in H.
  destruct (cv2_resize _ _ _); [|discriminate H].
  inversion H. exists b1. reflexivity.
Qed.

Lemma RandomSampleCropPoly_pass_rects (im : image) (ob : option array2)
  (l : option labels_t) (g : rng) (r : option triple) (g' : rng) :
  RandomSampleCropPoly_pass (im, ob, l) g = Ok r g' ->
  exists br g1 g2, bounding_rects ob g1 = Ok br g2.
Proof.
  intro H. unfold RandomSampleCropPoly_pass, bind in H.
  destruct (choice RandomSampleCropPoly_options None g) as [mode g1| |];
    try discriminate H.
  destruct (bounding_rects ob g1) as [br g2| |] eqn:E; try discriminate H.
  exists br, g1, g2. exact E.
Qed.

(** A single column has no y coordinate: [min] of an empty slice raises. *)
Lemma bounding_rects_one_column (b : array2) (g : rng) (br : array2)
  (g' : rng) :
  ncols b = 1%nat -> bounding_rects (Some b) g = Ok br g' -> rows b = [].
Proof.
  intros Hn H. destruct b as [n rs]. cbn [ncols rows] in *. subst n.
  destruct rs as [|r rs]; [reflexivity|].
  unfold bounding_rects, bind in H. cbn [ncols rows map_M] in H.
  unfold bind in H. cbv in H. discriminate H.
Qed.

(** X24.  What the training preset hands back.  Whenever it returns on a
    triple with geometry, the labels were present and come back as they
    were, and the geometry comes back with eight columns and as many rows
    as the input: no object is dropped on the way.  The input geometry had
    eight columns, or one column and no row. *)
Theorem training_preset_output {cv : OpenCV} (fuel size : nat)
  (mean : list Q) (im : image) (b : array2) (l : option labels_t) (g : rng)
  (t : image) (b' : option array2) (l' : option labels_t) (g' : rng) :
  call fuel (Augmentation_traininig size mean) (im, Some b, l) g
  = Ok (t, b', l') g' ->
  exists b2 lab,
    b' = Some b2 /\ l = Some lab /\ l' = Some lab
    /\ ncols b2 = 8%nat
    /\ length (rows b2) = length (rows b)
    /\ (ncols b = 8%nat \/ (ncols b = 1%nat /\ rows b = [])).
Proof.
  intro H. cbn [call Compose_call call_unit] in H. unfold bind in H.
  cbn [ConvertFromInts_call] in H. unfold ret at 1 in H.
  destruct (PhotometricDistort_call fuel (im, Some b, l) g)
    as [[[im1 b1] l1] g1| |] eqn:E1; try discriminate H.
  destruct (PhotometricDistort_annotations _ _ _ _ _ _ _ _ _ E1) as [-> ->].
  destruct (RandomSampleCropPoly_call fuel (im1, Some b, l) g1)
    as [[[im2 b2] l2] g2| |] eqn:E2; try discriminate H.
  unfold RandomSampleCropPoly_call in E2. apply while_true_inv in E2.
  destruct E2 as (h1 & E2).
  destruct (RandomSampleCropPoly_pass_rects _ _ _ _ _ _ E2)
    as (br & h2 & h3 & Hbr).
  assert (Hcrop : exists bb, b2 = Some bb /\ l2 = l
                             /\ ncols bb = ncols b
                             /\ length (rows bb) = length (rows b)).
  { apply RandomSampleCropPoly_pass_inv in E2.
    destruct E2 as [E2|(rect & h4 & E2)].
    - inversion E2; subst. exists b. repeat split.
    - apply crop_translate_inv in E2. inversion E2; subst.
      eexists. split; [reflexivity|]. split; [reflexivity|].
      split; [reflexivity | apply shift_boxes_rows]. }
  destruct Hcrop as (bb & -> & -> & Hnc & Hrows).
  destruct (Resize_call size (im2, Some bb, l) g2)
    as [[[im3 b3] l3] g3| |] eqn:E3; try discriminate H.
  destruct (Resize_some _ _ _ _ _ _ _ _ _ E3) as (b3' & ->).
  apply Resize_inv in E3. destruct E3 as (_ & _ & _ & -> & Hb3).
  destruct (call_unit fuel Normalize_default (im3, Some b3', l) g3)
    as [[[im4 b4] l4] g4| |] eqn:E4; try discriminate H.
  destruct (pixel_units_keep_annotations fuel Normalize_default
              _ _ _ _ _ _ _ _ eq_refl E4) as [-> ->].
  destruct (ToTensor_call (im4, Some b3', l) g4) as [y g5| |] eqn:E5;
    try discriminate H.
  unfold ret in H. inversion H; subst y g5. clear H.
  unfold ToTensor_call, bind, from_numpy in E5.
  cbn [ret] in E5. destruct l as [lab|]; [|discriminate E5].
  cbn [ret] in E5. inversion E5; subst.
  exists b3', lab. split; [reflexivity|]. split; [reflexivity|].
  split; [reflexivity|].
  destruct Hb3 as [[Hn ->]|[Hn ->]]; cbn [ncols rows];
    rewrite length_map, Hrows.
  - split; [reflexivity|]. split; [reflexivity|]. left. lia.
  - split; [reflexivity|]. split; [reflexivity|]. right.
    split; [lia|]. apply (bounding_rects_one_column b h2 br h3); [lia|].
    exact Hbr.
Qed.

Lemma training_preset_output_witness :
  exists t b2 lab g',
    @call cv_plain 1 (Augmentation_traininig 10 [104; 117; 123])
      (blank 50 50 3 100, Some (mkArray2 8 [poly_example]), Some [4%Z])
      (tape [1 # 4; 1 # 4; 1 # 4; 1 # 4; 1 # 12])
    = Ok (t, Some b2, Some lab) g'
    /\ lab = [4%Z] /\ ncols b2 = 8%nat /\ length (rows b2) = 1%nat.
Proof.
  destruct (@call cv_plain 1 (Augmentation_traininig 10 [104; 117; 123])
              (blank 50 50 3 100, Some (mkArray2 8 [poly_example]),
               Some [4%Z])
              (tape [1 # 4; 1 # 4; 1 # 4; 1 # 4; 1 # 12]))
    as [[[t b'] l'] g'| |] eqn:Hrun;
    [|vm_compute in Hrun; discriminate Hrun
     |vm_compute in Hrun; discriminate Hrun].
  destruct (@training_preset_output cv_plain 1 10 [104; 117; 123]
              (blank 50 50 3 100) (mkArray2 8 [poly_example]) (Some [4%Z])
              (tape [1 # 4; 1 # 4; 1 # 4; 1 # 4; 1 # 12])
              t b' l' g' Hrun)
    as (b2 & lab & -> & Hl & -> & Hn & Hr & _).
  exists t, b2, lab, g'. split; [reflexivity|].
  split; [inversion Hl; reflexivity|]. split; [exact Hn | exact Hr].
Defined.

(** * The photometric transforms against the specification's wording *)

(** ** The units, branch by branch *)

Lemma clamp_is_clip (v : Q) : clamp_lo (clamp_hi v) = np_clip 0 255 v.
Proof.
  unfold clamp_lo, clamp_hi, np_clip.
  destruct (Qltb v 0) eqn:E2; destruct (Qltb 255 v) eqn:E1;
    try reflexivity.
  - apply Qltb_true in E1. apply Qltb_true in E2. lra.
  - rewrite E2. reflexivity.
  - rewrite E2. reflexivity.
Qed.

Lemma map_pixels_ext (f k : Q -> Q) (im : image) :
  (forall v, f v = k v) -> map_pixels f im = map_pixels k im.
Proof.
  intro H. unfold map_pixels. apply map_ext. intro row.
  apply map_ext. intro px. apply map_ext. exact H.
Qed.

Lemma clamp_image_clip (f : Q -> Q) (im : image) :
  clamp_image (map_pixels f im)
  = map_pixels (fun v => np_clip 0 255 (f v)) im.
Proof.
  unfold clamp_image. rewrite !map_pixels_compose.
  apply map_pixels_ext. intro v. apply clamp_is_clip.
Qed.

(** The two assignments of RandomHue wrap as the specification says. *)
Lemma wrap_hue_spec (s : Q) : wrap_hue s = hue_wrapped s.
Proof.
  unfold wrap_hue, hue_wrapped.
  destruct (Qltb 360 s) eqn:E1; [|reflexivity].
  destruct (Qltb (s - 360) 0) eqn:E2; [|reflexivity].
  apply Qltb_true in E1. apply Qltb_true in E2. lra.
Qed.

Lemma hue_update_jitter (d : Q) (im : image) :
  map (map (fun px => set_nth 0 (wrap_hue (nth 0 px 0 + d)) px)) im
  = map (map (jitter_hue d)) im.
Proof.
  apply map_ext. intro row. apply map_ext. intros [|hue rest];
    [reflexivity|].
  cbn [set_nth nth jitter_hue]. rewrite wrap_hue_spec. reflexivity.
Qed.

Lemma hue_wrapped_cases (s : Q) :
  (360 < s -> hue_wrapped s = s - 360)
  /\ (s < 0 -> hue_wrapped s = s + 360)
  /\ (0 <= s <= 360 -> hue_wrapped s = s).
Proof.
  unfold hue_wrapped.
  destruct (Qltb 360 s) eqn:E1; destruct (Qltb s 0) eqn:E2;
    try apply Qltb_true in E1; try apply Qltb_false in E1;
    try apply Qltb_true in E2; try apply Qltb_false in E2;
    (split; [|split]); intros; try reflexivity; lra.
Qed.

Lemma RandomBrightness_eq (delta : Q) (im : image) (b : option array2)
  (l : option labels_t) (g : rng) :
  RandomBrightness_call delta (im, b, l) g
  = if (coin g =? 0)%Z then Ok (im, b, l) (rng_tail g)
    else Ok (map_pixels
               (fun v => np_clip 0 255
                           (v + uniform_value (- delta) delta (rng_tail g)))
               im, b, l)
            (rng_tail (rng_tail g)).
Proof.
  unfold RandomBrightness_call, bind. rewrite randint2.
  destruct (coin g =? 0)%Z; [reflexivity|].
  rewrite uniform_run. unfold ret. rewrite clamp_image_clip. reflexivity.
Qed.

Lemma RandomContrast_eq (lower upper : Q) (im : image) (b : option array2)
  (l : option labels_t) (g : rng) :
  RandomContrast_call lower upper (im, b, l) g
  = if (coin g =? 0)%Z then Ok (im, b, l) (rng_tail g)
    else Ok (map_pixels
               (fun v => np_clip 0 255
                           (v * uniform_value lower upper (rng_tail g)))
               im, b, l)
            (rng_tail (rng_tail g)).
Proof.
  unfold RandomContrast_call, bind. rewrite randint2.
  destruct (coin g =? 0)%Z; [reflexivity|].
  rewrite uniform_run. unfold ret. rewrite clamp_image_clip. reflexivity.
Qed.

Lemma RandomHue_eq (delta : Q) (im : image) (b : option array2)
  (l : option labels_t) (g : rng) :
  RandomHue_call delta (im, b, l) g
  = if (coin g =? 0)%Z then Ok (im, b, l) (rng_tail g)
    else if (0 <? depth im)%nat then
      Ok (map (map (jitter_hue
                      (uniform_value (- delta) delta (rng_tail g)))) im,
          b, l)
         (rng_tail (rng_tail g))
    else Raise IndexError.
Proof.
  unfold RandomHue_call, bind. rewrite randint2.
  destruct (coin g =? 0)%Z; [reflexivity|].
  rewrite uniform_run. unfold map_channel.
  destruct (0 <? depth im)%nat; [|reflexivity].
  unfold ret. rewrite hue_update_jitter. reflexivity.
Qed.

Lemma uniform_value_bounds (low high : Q) (g : rng) :
  low <= high ->
  low <= uniform_value low high g /\ uniform_value low high g <= high.
Proof.
  intro H. unfold uniform_value.
  destruct (frac_bounds (g 0%nat)) as [Hlo Hhi]. split; nra.
Qed.

Lemma jitter_hue_range (d : Q) (im : image) :
  - (360) <= d <= 360 -> hue_in_range 0 360 im ->
  hue_in_range 0 360 (map (map (jitter_hue d)) im).
Proof.
  intros Hd Him. rewrite <- hue_update_jitter.
  apply (hue_update_range (fun v => wrap_hue (v + d))); [|exact Him].
  intros v Hv. apply wrap_hue_bounds; assumption.
Qed.

(** C6 (amended).  The three jitter units, branch by branch; d, a and dh
    are the values [random.uniform] draws after the coin.
    RandomBrightness and RandomContrast always return, geometry and labels
    untouched: a skipped branch (coin 0) hands the input back as it is,
    unclipped, and a taken branch returns every value plus d, or times a,
    clipped to [0,255]; so every value of the result lies in [0,255] as soon
    as the branch is taken or the input was within [0,255].  RandomHue
    hands the input back on a skipped branch and otherwise, on an image
    with a channel, adds dh to the hue of every pixel and wraps the sum:
    above 360 it goes down by 360, below 0 up by 360, and a sum in [0,360],
    360 included, stays.  For a delta in [0,360] and input hues in [0,360]
    the hues of the result lie in the closed interval [0,360]. *)
Theorem photometric_units_in_range
  (im : image) (boxes : option array2) (labels : option labels_t)
  (delta lower upper hue_delta : Q) (g : rng) :
  let d := uniform_value (- delta) delta (rng_tail g) in
  let a := uniform_value lower upper (rng_tail g) in
  let dh := uniform_value (- hue_delta) hue_delta (rng_tail g) in
  RandomBrightness_call delta (im, boxes, labels) g
  = (if (coin g =? 0)%Z then Ok (im, boxes, labels) (rng_tail g)
     else Ok (map_pixels (fun v => np_clip 0 255 (v + d)) im, boxes, labels)
             (rng_tail (rng_tail g)))
  /\ RandomContrast_call lower upper (im, boxes, labels) g
     = (if (coin g =? 0)%Z then Ok (im, boxes, labels) (rng_tail g)
        else Ok (map_pixels (fun v => np_clip 0 255 (v * a)) im,
                 boxes, labels)
                (rng_tail (rng_tail g)))
  /\ RandomHue_call hue_delta (im, boxes, labels) g
     = (if (coin g =? 0)%Z then Ok (im, boxes, labels) (rng_tail g)
        else if (0 <? depth im)%nat then
          Ok (map (map (jitter_hue dh)) im, boxes, labels)
             (rng_tail (rng_tail g))
        else Raise IndexError)
  /\ (forall s,
         (360 < s -> hue_wrapped s = s - 360)
         /\ (s < 0 -> hue_wrapped s = s + 360)
         /\ (0 <= s <= 360 -> hue_wrapped s = s))
  /\ (exists im' g',
         RandomBrightness_call delta (im, boxes, labels) g
         = Ok (im', boxes, labels) g'
         /\ (coin g <> 0%Z \/ in_range 0 255 im -> in_range 0 255 im'))
  /\ (exists im' g',
         RandomContrast_call lower upper (im, boxes, labels) g
         = Ok (im', boxes, labels) g'
         /\ (coin g <> 0%Z \/ in_range 0 255 im -> in_range 0 255 im'))
  /\ ((1 <= depth im)%nat ->
      exists im' g',
        RandomHue_call hue_delta (im, boxes, labels) g
        = Ok (im', boxes, labels) g'
        /\ (0 <= hue_delta <= 360 -> hue_in_range 0 360 im ->
            hue_in_range 0 360 im')).
Proof.
  intros d a dh.
  split; [apply RandomBrightness_eq|].
  split; [apply RandomContrast_eq|].
  split; [apply RandomHue_eq|].
  split; [exact hue_wrapped_cases|].
  split; [|split].
  - rewrite RandomBrightness_eq. fold d.
    destruct (coin g =? 0)%Z eqn:Hc; eexists _, _;
      (split; [reflexivity|]).
    + apply Z.eqb_eq in Hc. intros [H|H]; [contradiction | exact H].
    + intros _. apply map_pixels_range. intro v. apply np_clip_bounds.
  - rewrite RandomContrast_eq. fold a.
    destruct (coin g =? 0)%Z eqn:Hc; eexists _, _;
      (split; [reflexivity|]).
    + apply Z.eqb_eq in Hc. intros [H|H]; [contradiction | exact H].
    + intros _. apply map_pixels_range. intro v. apply np_clip_bounds.
  - intro Hd. rewrite RandomHue_eq. fold dh.
    assert (Hk : (0 <? depth im)%nat = true) by (apply Nat.ltb_lt; lia).
    rewrite Hk.
    destruct (coin g =? 0)%Z; eexists _, _; (split; [reflexivity|]).
    + intros _ H. exact H.
    + intros Hdelta Him. apply jitter_hue_range; [|exact Him].
      destruct (uniform_value_bounds (- hue_delta) hue_delta (rng_tail g))
        as [H1 H2]; [lra|].
      fold dh in H1, H2. lra.
Qed.

Lemma photometric_units_in_range_witness :
  let im := [[[350; 300; 20]]] in
  let g := tape [3 # 4; 1 # 2] in
  (exists im' g',
      RandomBrightness_call 16 (im, None, None) g = Ok (im', None, None) g'
      /\ in_range 0 255 im')
  /\ (exists im' g',
         RandomContrast_call (1 # 2) (3 # 2) (im, None, None) g
         = Ok (im', None, None) g'
         /\ in_range 0 255 im')
  /\ (exists im' g',
         RandomHue_call 36 (im, None, None) g = Ok (im', None, None) g'
         /\ hue_in_range 0 360 im').
Proof.
  intros im g.
  destruct (photometric_units_in_range im None None 16 (1 # 2) (3 # 2) 36 g)
    as (_ & _ & _ & _ & Hb & Hc & Hh).
  assert (Hcoin : coin g <> 0%Z) by (vm_compute; discriminate).
  split; [|split].
  - destruct Hb as (im' & g' & Heq & Hr).
    exists im', g'. split; [exact Heq | apply Hr; left; exact Hcoin].
  - destruct Hc as (im' & g' & Heq & Hr).
    exists im', g'. split; [exact Heq | apply Hr; left; exact Hcoin].
  - destruct Hh as (im' & g' & Heq & Hr); [vm_compute; lia|].
    exists im', g'. split; [exact Heq|]. apply Hr.
    + split; [vm_compute; discriminate | vm_compute; discriminate].
    + repeat constructor; vm_compute; discriminate.
Defined.

(** ** The composite distortion, step by step *)

Lemma RandomBrightness_inv (delta : Q) (im : image) (b : option array2)
  (l : option labels_t) (g : rng) (im' : image) (b' : option array2)
  (l' : option labels_t) (g' : rng) :
  0 <= delta ->
  RandomBrightness_call delta (im, b, l) g = Ok (im', b', l') g' ->
  b' = b /\ l' = l /\ brightened delta im im'.
Proof.
  intros Hd H. rewrite RandomBrightness_eq in H.
  destruct (coin g =? 0)%Z; inversion H; subst;
    (split; [reflexivity|]); (split; [reflexivity|]).
  - left. reflexivity.
  - right. eexists. split; [|reflexivity].
    destruct (uniform_value_bounds (- delta) delta (rng_tail g)) as [H1 H2];
      [lra | split; assumption].
Qed.

Lemma RandomContrast_inv (lower upper : Q) (im : image) (b : option array2)
  (l : option labels_t) (g : rng) (im' : image) (b' : option array2)
  (l' : option labels_t) (g' : rng) :
  lower <= upper ->
  RandomContrast_call lower upper (im, b, l) g = Ok (im', b', l') g' ->
  b' = b /\ l' = l /\ contrasted lower upper im im'.
Proof.
  intros Hd H. rewrite RandomContrast_eq in H.
  destruct (coin g =? 0)%Z; inversion H; subst;
    (split; [reflexivity|]); (split; [reflexivity|]).
  - left. reflexivity.
  - right. eexists. split; [|reflexivity].
    destruct (uniform_value_bounds lower upper (rng_tail g)) as [H1 H2];
      [exact Hd | split; assumption].
Qed.

Lemma RandomHue_inv (delta : Q) (im : image) (b : option array2)
  (l : option labels_t) (g : rng) (im' : image) (b' : option array2)
  (l' : option labels_t) (g' : rng) :
  0 <= delta ->
  RandomHue_call delta (im, b, l) g = Ok (im', b', l') g' ->
  b' = b /\ l' = l /\ hue_jittered delta im im'.
Proof.
  intros Hd H. rewrite RandomHue_eq in H.
  destruct (coin g =? 0)%Z.
  - inversion H; subst. split; [reflexivity|]. split; [reflexivity|].
    left. reflexivity.
  - destruct (0 <? depth im)%nat; [|discriminate H].
    inversion H; subst. split; [reflexivity|]. split; [reflexivity|].
    right. eexists. split; [|reflexivity].
    destruct (uniform_value_bounds (- delta) delta (rng_tail g)) as [H1 H2];
      [lra | split; assumption].
Qed.

Lemma ConvertColor_BGR_HSV_inv {cv : OpenCV} (im : image)
  (b : option array2) (l : option labels_t) (g : rng) (im' : image)
  (b' : option array2) (l' : option labels_t) (g' : rng) :
  ConvertColor_call "BGR" "HSV" (im, b, l) g = Ok (im', b', l') g' ->
  cv2_cvtColor im COLOR_BGR2HSV = Some im' /\ b' = b /\ l' = l /\ g' = g.
Proof.
  rewrite ConvertColor_BGR_HSV.
  destruct (cv2_cvtColor im COLOR_BGR2HSV); intro H; inversion H.
  repeat split.
Qed.

Lemma ConvertColor_HSV_BGR_inv {cv : OpenCV} (im : image)
  (b : option array2) (l : option labels_t) (g : rng) (im' : image)
  (b' : option array2) (l' : option labels_t) (g' : rng) :
  ConvertColor_call "HSV" "BGR" (im, b, l) g = Ok (im', b', l') g' ->
  cv2_cvtColor im COLOR_HSV2BGR = Some im' /\ b' = b /\ l' = l /\ g' = g.
Proof.
  rewrite ConvertColor_HSV_BGR.
  destruct (cv2_cvtColor im COLOR_HSV2BGR); intro H; inversion H.
  repeat split.
Qed.

(** C5.  PhotometricDistort is RandomBrightness, then a coin (0 exactly
    when the raw draw falls in the lower half of the unit interval), then
    the four units of one chain, then a clip to [0,255]: the chain is
    RandomContrast, BGR to HSV, RandomHue, HSV to BGR when the coin is not
    0, and BGR to HSV, RandomHue, HSV to BGR, RandomContrast when it is 0.
    These are [pd[:-1]] and [pd[1:]], and each holds RandomContrast once.
    On every return the geometry and the labels are the input's, every
    value of the image lies in [0,255], and the image came about by these
    steps: a brightness step on the input, then, by the coin drawn after
    it, a contrast step, the conversion to HSV, a hue step and the
    conversion back, or the conversion, the hue step, the conversion back
    and the contrast step, and the final clip.  With a colour conversion
    that takes three channels to three channels the call returns on every
    image of three channels. *)
Theorem photometric_distort_chain {cv : OpenCV} (fuel : nat)
  (im : image) (boxes : option array2) (labels : option labels_t) (g : rng) :
  PhotometricDistort_call fuel (im, boxes, labels) g
  = (y0 <- RandomBrightness_call 16 (im, boxes, labels) ;;
     c <- randint 2 ;;
     y4 <- (if (c =? 0)%Z
            then (y1 <- ConvertColor_call "BGR" "HSV" y0 ;;
                  y2 <- RandomHue_call 36 y1 ;;
                  y3 <- ConvertColor_call "HSV" "BGR" y2 ;;
                  RandomContrast_call (1 # 2) (3 # 2) y3)
            else (y1 <- RandomContrast_call (1 # 2) (3 # 2) y0 ;;
                  y2 <- ConvertColor_call "BGR" "HSV" y1 ;;
                  y3 <- RandomHue_call 36 y2 ;;
                  ConvertColor_call "HSV" "BGR" y3)) ;;
     ret (map_pixels (np_clip 0 255) (image_of y4), snd (fst y4), snd y4)) g
  /\ (forall g0, coin g0 = 0%Z <-> frac (g0 0%nat) < 1 # 2)
  /\ py_slice None (Some (-1)%Z) pd = chain_contrast_first
  /\ py_slice (Some 1%Z) None pd = chain_contrast_last
  /\ length (filter is_contrast chain_contrast_first) = 1%nat
  /\ length (filter is_contrast chain_contrast_last) = 1%nat
  /\ (forall im' b' l' g',
         PhotometricDistort_call fuel (im, boxes, labels) g
         = Ok (im', b', l') g' ->
         b' = boxes /\ l' = labels /\ in_range 0 255 im'
         /\ exists im1 g1 im2 im3 im4 im5,
             RandomBrightness_call 16 (im, boxes, labels) g
             = Ok (im1, boxes, labels) g1
             /\ brightened 16 im im1
             /\ (if (coin g1 =? 0)%Z
                 then cv2_cvtColor im1 COLOR_BGR2HSV = Some im2
                      /\ hue_jittered 36 im2 im3
                      /\ cv2_cvtColor im3 COLOR_HSV2BGR = Some im4
                      /\ contrasted (1 # 2) (3 # 2) im4 im5
                 else contrasted (1 # 2) (3 # 2) im1 im2
                      /\ cv2_cvtColor im2 COLOR_BGR2HSV = Some im3
                      /\ hue_jittered 36 im3 im4
                      /\ cv2_cvtColor im4 COLOR_HSV2BGR = Some im5)
             /\ im' = map_pixels (np_clip 0 255) im5)
  /\ (cvt_three_channels cv -> depth im = 3%nat ->
      exists y g',
        PhotometricDistort_call fuel (im, boxes, labels) g = Ok y g').
Proof.
  split; [|split; [exact coin_half|]].
  { unfold PhotometricDistort_call, bind.
    destruct (RandomBrightness_call 16 (im, boxes, labels) g)
      as [[[im1 b1] l1] g1| |]; try reflexivity.
    rewrite !randint2. rewrite pd_without_last, pd_without_first.
    destruct (coin g1 =? 0)%Z; cbn [negb];
      unfold chain_contrast_last, chain_contrast_first;
      cbn [map call_unit Compose_call]; unfold bind.
    - destruct (ConvertColor_call "BGR" "HSV" (im1, b1, l1) (rng_tail g1))
        as [y1 h1| |]; try reflexivity.
      destruct (RandomHue_call 36 y1 h1) as [y2 h2| |]; try reflexivity.
      destruct (ConvertColor_call "HSV" "BGR" y2 h2) as [y3 h3| |];
        try reflexivity.
      destruct (RandomContrast_call (1 # 2) (3 # 2) y3 h3)
        as [[[im5 b5] l5] h4| |]; reflexivity.
    - destruct (RandomContrast_call (1 # 2) (3 # 2) (im1, b1, l1)
                                    (rng_tail g1))
        as [y1 h1| |]; try reflexivity.
      destruct (ConvertColor_call "BGR" "HSV" y1 h1) as [y2 h2| |];
        try reflexivity.
      destruct (RandomHue_call 36 y2 h2) as [y3 h3| |]; try reflexivity.
      destruct (ConvertColor_call "HSV" "BGR" y3 h3)
        as [[[im5 b5] l5] h4| |]; reflexivity. }
  split; [reflexivity|]. split; [reflexivity|].
  split; [reflexivity|]. split; [reflexivity|].
  split; [|apply PhotometricDistort_returns].
  intros im' b' l' g' H. unfold PhotometricDistort_call, bind in H.
  destruct (RandomBrightness_call 16 (im, boxes, labels) g)
    as [[[im1 b1] l1] g1| |] eqn:E1; try discriminate H.
  destruct (RandomBrightness_inv 16 _ _ _ _ _ _ _ _ ltac:(lra) E1)
    as (-> & -> & Hbri).
  rewrite randint2 in H. rewrite pd_without_last, pd_without_first in H.
  destruct (coin g1 =? 0)%Z eqn:Hc; cbn [negb] in H;
    unfold chain_contrast_last, chain_contrast_first in H;
    cbn [map call_unit Compose_call] in H; unfold bind in H.
  - destruct (ConvertColor_call "BGR" "HSV" (im1, boxes, labels)
                                (rng_tail g1))
      as [[[im2 b2] l2] h2| |] eqn:E2; try discriminate H.
    apply ConvertColor_BGR_HSV_inv in E2. destruct E2 as (C2 & -> & -> & ->).
    destruct (RandomHue_call 36 (im2, boxes, labels) (rng_tail g1))
      as [[[im3 b3] l3] h3| |] eqn:E3; try discriminate H.
    destruct (RandomHue_inv 36 _ _ _ _ _ _ _ _ ltac:(lra) E3)
      as (-> & -> & Hhue).
    destruct (ConvertColor_call "HSV" "BGR" (im3, boxes, labels) h3)
      as [[[im4 b4] l4] h4| |] eqn:E4; try discriminate H.
    apply ConvertColor_HSV_BGR_inv in E4. destruct E4 as (C4 & -> & -> & ->).
    destruct (RandomContrast_call (1 # 2) (3 # 2) (im4, boxes, labels) h3)
      as [[[im5 b5] l5] h5| |] eqn:E5; try discriminate H.
    destruct (RandomContrast_inv (1 # 2) (3 # 2) _ _ _ _ _ _ _ _
                ltac:(lra) E5) as (-> & -> & Hcon).
    unfold ret in H. inversion H; subst.
    split; [reflexivity|]. split; [reflexivity|].
    split; [apply map_pixels_range, np_clip_bounds|].
    exists im1, g1, im2, im3, im4, im5.
    split; [reflexivity|]. split; [exact Hbri|]. rewrite Hc.
    split; [|reflexivity]. repeat split; assumption.
  - destruct (RandomContrast_call (1 # 2) (3 # 2) (im1, boxes, labels)
                                  (rng_tail g1))
      as [[[im2 b2] l2] h2| |] eqn:E2; try discriminate H.
    destruct (RandomContrast_inv (1 # 2) (3 # 2) _ _ _ _ _ _ _ _
                ltac:(lra) E2) as (-> & -> & Hcon).
    destruct (ConvertColor_call "BGR" "HSV" (im2, boxes, labels) h2)
      as [[[im3 b3] l3] h3| |] eqn:E3; try discriminate H.
    apply ConvertColor_BGR_HSV_inv in E3. destruct E3 as (C3 & -> & -> & ->).
    destruct (RandomHue_call 36 (im3, boxes, labels) h2)
      as [[[im4 b4] l4] h4| |] eqn:E4; try discriminate H.
    destruct (RandomHue_inv 36 _ _ _ _ _ _ _ _ ltac:(lra) E4)
      as (-> & -> & Hhue).
    destruct (ConvertColor_call "HSV" "BGR" (im4, boxes, labels) h4)
      as [[[im5 b5] l5] h5| |] eqn:E5; try discriminate H.
    apply ConvertColor_HSV_BGR_inv in E5. destruct E5 as (C5 & -> & -> & ->).
    unfold ret in H. inversion H; subst.
    split; [reflexivity|]. split; [reflexivity|].
    split; [apply map_pixels_range, np_clip_bounds|].
    exists im1, g1, im2, im3, im4, im5.
    split; [reflexivity|]. split; [exact Hbri|]. rewrite Hc.
    split; [|reflexivity]. repeat split; assumption.
Qed.

Lemma photometric_distort_chain_witness :
  exists im' g' im1 im5,
    @PhotometricDistort_call cv_plain 1
      ([[[350; 300; 20]; [0; 10; 400]]], None, None)
      (tape [3 # 4; 1 # 2; 1 # 4; 3 # 4; 1 # 2; 3 # 4; 1 # 3])
    = Ok (im', None, None) g'
    /\ in_range 0 255 im'
    /\ brightened 16 [[[350; 300; 20]; [0; 10; 400]]] im1
    /\ im' = map_pixels (np_clip 0 255) im5.
Proof.
  pose proof (@photometric_distort_chain cv_plain 1
                [[[350; 300; 20]; [0; 10; 400]]] None None
                (tape [3 # 4; 1 # 2; 1 # 4; 3 # 4; 1 # 2; 3 # 4; 1 # 3]))
    as (_ & _ & _ & _ & _ & _ & Hsteps & Htotal).
  destruct Htotal as ([[im' b'] l'] & g' & Hrun).
  - intros src code H. exists src. split; [|exact H].
    cbn [cv2_cvtColor cv_plain]. rewrite H. reflexivity.
  - reflexivity.
  - destruct (Hsteps im' b' l' g' Hrun)
      as (-> & -> & Hrange & im1 & g1 & im2 & im3 & im4 & im5
          & _ & Hbri & _ & Hclip).
    exists im', g', im1, im5.
    split; [exact Hrun|]. split; [exact Hrange|].
    split; [exact Hbri | exact Hclip].
Defined.
